(** * Agent HUD: the relay hub and the dashboard client

    A shallow embedding of [ui/dist/app.js].  The file holds two programs:
    the dashboard client [AgentHUDApp] (module [App]) and the Node relay
    [AgentHUDWebSocketServer] (module [Hub]).  Handlers are pure functions
    from a state to a new state and the list of effects they produce; a
    handler that can throw also says how it ends.  The event loop is a step
    function over the events Node or the browser delivers.

    Values that come off the wire are as [JSON.parse] gives them, with two
    idealisations: a field that holds text holds a string, and a payload
    ([message.data]) is absent or an object.  Property order inside an
    object is not modelled: a frame is the object it carries, not its JSON
    text. *)

From stdpp Require Import base decidable option numbers list strings gmap.

Open Scope string_scope.
Open Scope list_scope.

(** ** JavaScript values *)

(** Identifiers are strings.  [uuidv4()] draws 122 random bits; the n-th
    draw of a hub is modelled as the token [Uuid n], distinct from every
    other draw and from every literal the program writes itself. *)
Inductive ident :=
  | Uuid (n : nat)
  | Named (s : string).

#[global] Instance ident_eq_dec : EqDecision ident.
Proof. solve_decision. Defined.

(** [a || d] on a possibly missing string: [undefined] and the empty string
    are falsy. *)
Definition js_or (a : option string) (d : string) : string :=
  match a with
  | Some (String c s) => String c s
  | _ => d
  end.

(** Truthiness of a possibly missing string. *)
Definition truthy (a : option string) : bool :=
  match a with
  | Some (String _ _) => true
  | _ => false
  end.

(** Truthiness of a possibly missing identifier. *)
Definition truthy_ident (a : option ident) : bool :=
  match a with
  | Some (Uuid _) => true
  | Some (Named s) => truthy (Some s)
  | None => false
  end.

(** A JavaScript [Map]: entries in insertion order, one per key.  [set] on
    a key that is present replaces the value where it stands. *)
Section JsMap.
Context {K V : Type} `{EqDecision K}.

Fixpoint Map_get (k : K) (m : list (K * V)) : option V :=
  match m with
  | [] => None
  | (k', v) :: m' => if decide (k = k') then Some v else Map_get k m'
  end.

Fixpoint Map_set (k : K) (v : V) (m : list (K * V)) : list (K * V) :=
  match m with
  | [] => [(k, v)]
  | (k', v') :: m' =>
      if decide (k = k') then (k, v) :: m' else (k', v') :: Map_set k v m'
  end.

Definition Map_delete (k : K) (m : list (K * V)) : list (K * V) :=
  filter (λ kv, kv.1 ≠ k) m.

Definition Map_values (m : list (K * V)) : list V := m.*2.
End JsMap.

(** A JavaScript [Set], in insertion order. *)
Section JsSet.
Context {A : Type} `{EqDecision A}.

Definition Set_add (x : A) (s : list A) : list A :=
  if decide (x ∈ s) then s else s ++ [x].

Definition Set_delete (x : A) (s : list A) : list A :=
  filter (λ y, y ≠ x) s.
End JsSet.

(** [Array.prototype.find] with the callback [x => x.id === id]. *)
Definition find_by {A I : Type} `{EqDecision I} (key : A → I) (i : I)
    (l : list A) : option A :=
  snd <$> list_find (λ x, key x = i) l.

(** [Array.prototype.findIndex] with the same callback. *)
Definition findIndex_by {A I : Type} `{EqDecision I} (key : A → I) (i : I)
    (l : list A) : option nat :=
  fst <$> list_find (λ x, key x = i) l.

(** [readyState] of a [WebSocket], in the browser and in the [ws] library. *)
Inductive ready_state := CONNECTING | OPEN | CLOSING | CLOSED.

#[global] Instance ready_state_eq_dec : EqDecision ready_state.
Proof. solve_decision. Defined.

(** [a[i]] on an array, for a number [i] that may be negative. *)
Definition js_index {A : Type} (a : list A) (i : Z) : option A :=
  if decide (0 ≤ i)%Z then a !! Z.to_nat i else None.

(** ** Records on the wire *)

(** A connection is the position of its socket object in the hub's heap. *)
Abbreviation conn := nat (only parsing).

(** An agent object: the four fields [registerAgent] writes, and in
    [a_more] the own properties an [agent-update] patch has added under
    other keys. *)
Record agent := {
  a_id : ident;
  a_name : string;
  a_status : string;
  a_timestamp : string;
  a_more : gmap string string
}.

(** A human input request object.  [r_agent_id] is [ws.agentId], which is
    [undefined] on a connection that never registered as agent;
    [r_response] is [undefined] until a response is stored; [r_agentWs] is
    the socket the request arrived on (absent on the demo request). *)
Record request := {
  r_id : ident;
  r_agent_id : option ident;
  r_agent_name : string;
  r_request_type : string;
  r_message : string;
  r_priority : string;
  r_status : string;
  r_timestamp : string;
  r_options : list string;
  r_response : option string;
  r_agentWs : option conn
}.

(** A content item as the client keeps it. *)
Record content_item := {
  c_id : option string;
  c_type : option string;
  c_content : option string;
  c_language : option string;
  c_caption : option string;
  c_title : option string;
  c_agent_id : option string;
  c_agent_name : option string;
  c_timestamp : option string
}.

(** The payload of [markdown-content], [code-content] and [image-content]. *)
Record content_data := {
  d_content : option string;
  d_url : option string;
  d_language : option string;
  d_caption : option string;
  d_title : option string;
  d_agent_id : option string;
  d_agent_name : option string;
  d_timestamp : option string
}.

#[global] Instance agent_eq_dec : EqDecision agent.
Proof. solve_decision. Defined.
#[global] Instance request_eq_dec : EqDecision request.
Proof. solve_decision. Defined.
#[global] Instance content_item_eq_dec : EqDecision content_item.
Proof. solve_decision. Defined.
#[global] Instance content_data_eq_dec : EqDecision content_data.
Proof. solve_decision. Defined.

(** Messages a server sends to a client, by their [type]. *)
Inductive event :=
  | AgentConnected (data : agent)
  | AgentDisconnected (agentId : ident)
  | HumanInputRequestEvent (data : request)
  | AgentUpdateEvent (data : agent)
  | HumanInputResponseEvent (requestId : ident) (response : option string)
  | ContentEmission (data : content_item)
  | MarkdownContent (data : content_data)
  | CodeContent (data : content_data)
  | ImageContent (data : content_data)
  | OtherEvent (type : string).

#[global] Instance event_eq_dec : EqDecision event.
Proof. solve_decision. Defined.

(** Messages a client sends to the hub, by their [type], after
    [JSON.parse].  Any field may be missing: [message.data],
    [message.requestId] and [message.response] are [None] when the message
    does not carry them (or carries [null]), and so are the fields of a
    payload the handlers default with [||].  [OtherMessage] is a message
    with any other type, or with none.  A frame whose text is not JSON, or
    is the JSON [null], is no message: [JSON.parse], or the read of
    [message.type], throws, the listener logs the error and nothing else
    happens; such frames are not among the events of the model. *)
Record agent_data := { ad_name : option string }.

Record request_data := {
  rd_request_type : option string;
  rd_message : option string;
  rd_priority : option string;
  rd_options : option (list string)
}.

(** The patch of an [agent-update], a parsed object: the properties it
    has under the four keys of an agent, and in [p_more] the properties it
    has under other keys. *)
Record agent_patch := {
  p_id : option ident;
  p_name : option string;
  p_status : option string;
  p_timestamp : option string;
  p_more : gmap string string
}.

Inductive message :=
  | RegisterGui
  | RegisterAgent (data : option agent_data)
  | HumanInputRequest (data : option request_data)
  | HumanInputResponse (requestId : option ident) (response : option string)
  | AgentUpdate (data : option agent_patch)
  | OtherMessage (type : option string).

(** The keys [Object.assign] does not store from [p_more].  The four keys
    of an agent are the fields of the patch, so [p_more] has nothing to say
    about them.  An assignment to [__proto__] goes to the setter of
    [Object.prototype], which ignores a string: no own property is made. *)
Definition not_stored : list string :=
  ["id"; "name"; "status"; "timestamp"; "__proto__"].

(** [Object.assign(agent, updateData)]: every own property of the source
    is assigned to the target; a source that is [undefined] or [null] is
    skipped. *)
Definition Object_assign (a : agent) (source : option agent_patch) : agent :=
  match source with
  | None => a
  | Some p =>
      {| a_id := default (a_id a) (p_id p);
         a_name := default (a_name a) (p_name p);
         a_status := default (a_status a) (p_status p);
         a_timestamp := default (a_timestamp a) (p_timestamp p);
         a_more := filter (λ kv, kv.1 ∉ not_stored) (p_more p) ∪ a_more a |}
  end.

(** ** The relay hub: [AgentHUDWebSocketServer] *)

Module Hub.

(** A socket object of the [ws] library, with the two properties the hub
    hangs on it. *)
Record socket := {
  readyState : ready_state;
  clientType : option string;
  agentId : option ident
}.

(** The two nested timers of [createDemoData]: the first is armed by
    [start], the second by the first, with [demoAgent] in its closure. *)
Inductive demo_timers :=
  | AgentTimerArmed
  | RequestTimerArmed (demoAgent : agent)
  | DemoDone.

(** The hub object, the socket objects it can reach, and the number of
    identifiers drawn so far. *)
Record hub := {
  agents : list (ident * agent);
  humanRequests : list (ident * request);
  guiClients : list conn;
  sockets : list socket;
  uuids : nat;
  demo : demo_timers
}.

(** Lines written to the console. *)
Inductive console :=
  | NewConnection
  | ConnectionClosed
  | ReceivedMessage (m : message)
  | UnknownMessageType (type : option string)
  | GuiClientRegistered
  | AgentRegistered (name : string)
  | HumanInputRequestLine (message : string)
  | HumanInputResponseLine (response : option string)
  | RequestNotFound (requestId : option ident)
  | FailedToParseMessage
  | AgentDisconnectedLine (name : string)
  | CreatedDemoAgent (name : string)
  | CreatedDemoRequest (message : string).

(** How a call ends: it returns, or it throws a [TypeError] because it
    read a property of [undefined]. *)
Inductive completion := Returns | Throws.

(** What a handler does to the outside: a frame written to a socket, or a
    line on the console. *)
Inductive effect :=
  | Send (ws : conn) (m : event)
  | Log (line : console).

(** The frames among the effects, in order. *)
Definition sent (out : list effect) : list (conn * event) :=
  omap (λ e, match e with Send ws m => Some (ws, m) | Log _ => None end) out.

(** The frames written to one socket. *)
Definition sent_to (ws : conn) (out : list effect) : list event :=
  omap (λ e, match e with
             | Send ws' m => if decide (ws' = ws) then Some m else None
             | Log _ => None
             end) out.

Definition is_open (s : hub) (ws : conn) : bool :=
  match sockets s !! ws with
  | Some w => bool_decide (readyState w = OPEN)
  | None => false
  end.

(** The constructor, up to the call of [start]. *)
Definition init : hub :=
  {| agents := []; humanRequests := []; guiClients := []; sockets := [];
     uuids := 0; demo := AgentTimerArmed |}.

Definition set_agents (v : list (ident * agent)) (s : hub) : hub :=
  {| agents := v; humanRequests := humanRequests s;
     guiClients := guiClients s; sockets := sockets s; uuids := uuids s;
     demo := demo s |}.

Definition set_humanRequests (v : list (ident * request)) (s : hub) : hub :=
  {| agents := agents s; humanRequests := v; guiClients := guiClients s;
     sockets := sockets s; uuids := uuids s; demo := demo s |}.

Definition set_guiClients (v : list conn) (s : hub) : hub :=
  {| agents := agents s; humanRequests := humanRequests s; guiClients := v;
     sockets := sockets s; uuids := uuids s; demo := demo s |}.

Definition set_sockets (v : list socket) (s : hub) : hub :=
  {| agents := agents s; humanRequests := humanRequests s;
     guiClients := guiClients s; sockets := v; uuids := uuids s;
     demo := demo s |}.

Definition set_demo (v : demo_timers) (s : hub) : hub :=
  {| agents := agents s; humanRequests := humanRequests s;
     guiClients := guiClients s; sockets := sockets s; uuids := uuids s;
     demo := v |}.

(** [this.agents.get(ws.agentId)]: the agent record of a connection. *)
Definition agent_of (s : hub) (ws : conn) : option agent :=
  match sockets s !! ws ≫= agentId with
  | Some id => Map_get id (agents s)
  | None => None
  end.

(** [uuidv4()]: the next token, and the hub with one more drawn. *)
Definition uuidv4 (s : hub) : ident * hub :=
  (Uuid (uuids s),
   {| agents := agents s; humanRequests := humanRequests s;
      guiClients := guiClients s; sockets := sockets s;
      uuids := S (uuids s); demo := demo s |}).

(** [sendToClient(ws, message)].  [JSON.stringify] is taken to succeed on
    every message; the frame is recorded as the message itself. *)
Definition sendToClient (s : hub) (ws : conn) (m : event) : list effect :=
  if is_open s ws then [Send ws m] else [].

(** [broadcastToGUIs(message)]. *)
Definition broadcastToGUIs (s : hub) (m : event) : list effect :=
  gui ← guiClients s; sendToClient s gui m.

(** [registerGUI(ws)]. *)
Definition registerGUI (ws : conn) (s : hub) : hub * list effect :=
  let s := set_sockets
             (alter (λ w, {| readyState := readyState w;
                             clientType := Some "gui";
                             agentId := agentId w |}) ws (sockets s)) s in
  let s := set_guiClients (Set_add ws (guiClients s)) s in
  (s, [Log GuiClientRegistered]
      ++ (a ← Map_values (agents s); sendToClient s ws (AgentConnected a))
      ++ (r ← Map_values (humanRequests s);
          sendToClient s ws (HumanInputRequestEvent r))).

(** [registerAgent(ws, agentData)].  The identifier is drawn first; the
    object literal then reads [agentData.name], which throws when the
    message carried no [data], before anything is assigned. *)
Definition registerAgent (ws : conn) (now : string)
    (agentData : option agent_data) (s : hub)
    : hub * list effect * completion :=
  let '(id, s) := uuidv4 s in
  match agentData with
  | None => (s, [], Throws)
  | Some agentData =>
      let agent := {| a_id := id;
                      a_name := js_or (ad_name agentData) "Unknown Agent";
                      a_status := "Connected";
                      a_timestamp := now;
                      a_more := ∅ |} in
      let s := set_sockets
                 (alter (λ w, {| readyState := readyState w;
                                 clientType := Some "agent";
                                 agentId := Some id |}) ws (sockets s)) s in
      let s := set_agents (Map_set id agent (agents s)) s in
      (s, [Log (AgentRegistered (a_name agent))]
          ++ broadcastToGUIs s (AgentConnected agent), Returns)
  end.

(** [handleHumanInputRequest(ws, requestData)].  The identifier is drawn
    and the agent looked up; the object literal then reads
    [requestData.request_type], which throws when the message carried no
    [data], before the ledger is touched. *)
Definition handleHumanInputRequest (ws : conn) (now : string)
    (requestData : option request_data) (s : hub)
    : hub * list effect * completion :=
  let '(requestId, s) := uuidv4 s in
  let ws_agentId := sockets s !! ws ≫= agentId in
  let agent := agent_of s ws in
  match requestData with
  | None => (s, [], Throws)
  | Some requestData =>
      let request :=
        {| r_id := requestId;
           r_agent_id := ws_agentId;
           r_agent_name := match agent with
                           | Some a => a_name a
                           | None => "Unknown Agent"
                           end;
           r_request_type := js_or (rd_request_type requestData) "input";
           r_message :=
             js_or (rd_message requestData) "Human input required";
           r_priority := js_or (rd_priority requestData) "Medium";
           r_status := "Pending";
           r_timestamp := now;
           r_options := default [] (rd_options requestData);
           r_response := None;
           r_agentWs := Some ws |} in
      let s := set_humanRequests
                 (Map_set requestId request (humanRequests s)) s in
      (s, [Log (HumanInputRequestLine (r_message request))]
          ++ broadcastToGUIs s (HumanInputRequestEvent request), Returns)
  end.

(** The two assignments [request.status = 'Completed'] and
    [request.response = response]; the response is whatever the message
    carried, [undefined] included. *)
Definition complete (response : option string) (r : request) : request :=
  {| r_id := r_id r; r_agent_id := r_agent_id r;
     r_agent_name := r_agent_name r; r_request_type := r_request_type r;
     r_message := r_message r; r_priority := r_priority r;
     r_status := "Completed"; r_timestamp := r_timestamp r;
     r_options := r_options r; r_response := response;
     r_agentWs := r_agentWs r |}.

(** [handleHumanInputResponse(requestId, response)].  No key of the ledger
    is [undefined], so a message without [requestId] finds no request. *)
Definition handleHumanInputResponse (requestId : option ident)
    (response : option string) (s : hub) : hub * list effect :=
  match requestId ≫= λ id, (id,.) <$> Map_get id (humanRequests s) with
  | None => (s, [Log (RequestNotFound requestId)])
  | Some (id, request) =>
      let request := complete response request in
      let s := set_humanRequests (Map_set id request (humanRequests s)) s in
      (s, [Log (HumanInputResponseLine response)]
          ++ match r_agentWs request with
             | Some agentWs =>
                 if is_open s agentWs
                 then sendToClient s agentWs
                        (HumanInputResponseEvent id response)
                 else []
             | None => []
             end
          ++ broadcastToGUIs s (HumanInputRequestEvent request))
  end.

(** [handleAgentUpdate(ws, updateData)]. *)
Definition handleAgentUpdate (ws : conn) (updateData : option agent_patch)
    (s : hub) : hub * list effect :=
  match sockets s !! ws ≫= agentId with
  | Some id =>
      match Map_get id (agents s) with
      | Some agent =>
          let agent := Object_assign agent updateData in
          let s := set_agents (Map_set id agent (agents s)) s in
          (s, broadcastToGUIs s (AgentUpdateEvent agent))
      | None => (s, [])
      end
  | None => (s, [])
  end.

(** [handleDisconnection(ws)]. *)
Definition handleDisconnection (ws : conn) (s : hub) : hub * list effect :=
  match sockets s !! ws with
  | None => (s, [])
  | Some w =>
      if decide (clientType w = Some "gui") then
        (set_guiClients (Set_delete ws (guiClients s)) s, [])
      else if bool_decide (clientType w = Some "agent")
              && truthy_ident (agentId w) then
        match agentId w ≫= λ id, (id,.) <$> Map_get id (agents s) with
        | Some (id, agent) =>
            let s := set_agents (Map_delete id (agents s)) s in
            (s, [Log (AgentDisconnectedLine (a_name agent))]
                ++ broadcastToGUIs s (AgentDisconnected id))
        | None => (s, [])
        end
      else (s, [])
  end.

(** A call that returns. *)
Definition returns (r : hub * list effect) : hub * list effect * completion :=
  (r, Returns).

(** [handleMessage(ws, message)]: the switch on [message.type]. *)
Definition handleMessage (ws : conn) (now : string) (m : message)
    (s : hub) : hub * list effect * completion :=
  let '(s, out, c) :=
    match m with
    | RegisterGui => returns (registerGUI ws s)
    | RegisterAgent data => registerAgent ws now data s
    | HumanInputRequest data => handleHumanInputRequest ws now data s
    | HumanInputResponse requestId response =>
        returns (handleHumanInputResponse requestId response s)
    | AgentUpdate data => returns (handleAgentUpdate ws data s)
    | OtherMessage type => returns (s, [Log (UnknownMessageType type)])
    end in
  (s, Log (ReceivedMessage m) :: out, c).

(** The listener [ws.on('message', ...)] of [start], on a frame that
    parses: [handleMessage] inside [try], and in [catch] a line on the
    console.  What the handler did before it threw stays done. *)
Definition onmessage (ws : conn) (now : string) (m : message)
    (s : hub) : hub * list effect :=
  let '(s, out, c) := handleMessage ws now m s in
  (s, out ++ match c with
             | Returns => []
             | Throws => [Log FailedToParseMessage]
             end).

(** The demo agent and the demo request of [createDemoData]. *)
Definition demoAgent (now : string) : agent :=
  {| a_id := Named "demo-agent-001";
     a_name := "Demo Analysis Agent";
     a_status := "Active";
     a_timestamp := now;
     a_more := ∅ |}.

Definition demoRequest (demoAgent : agent) (now : string) : request :=
  {| r_id := Named "demo-request-001";
     r_agent_id := Some (a_id demoAgent);
     r_agent_name := a_name demoAgent;
     r_request_type := "approval";
     r_message := "Should I proceed with the data analysis? This will process 10,000 records.";
     r_priority := "High";
     r_status := "Pending";
     r_timestamp := now;
     r_options := ["Yes, proceed"; "No, cancel"; "Review settings first"];
     r_response := None;
     r_agentWs := None |}.

(** The events of the hub's event loop. *)
Inductive hub_event :=
  | Connection
  | Message (ws : conn) (now : string) (m : message)
  | Closing (ws : conn)
  | Close (ws : conn)
  | DemoAgentTimer (now : string)
  | DemoRequestTimer (now : string).

(** One turn of the event loop.  [None] when the event cannot occur in
    the state: a message arrives on a socket that is open, a socket
    leaves the open state once and emits [close] once, and each demo
    timer fires once, the second after the first. *)
Definition step (s : hub) (e : hub_event) : option (hub * list effect) :=
  match e with
  | Connection =>
      Some (set_sockets
              (sockets s ++ [{| readyState := OPEN; clientType := None;
                                agentId := None |}]) s,
            [Log NewConnection])
  | Message ws now m =>
      if is_open s ws then Some (onmessage ws now m s) else None
  | Closing ws =>
      if is_open s ws then
        Some (set_sockets
                (alter (λ w, {| readyState := CLOSING;
                                clientType := clientType w;
                                agentId := agentId w |}) ws (sockets s)) s,
              [])
      else None
  | Close ws =>
      match sockets s !! ws with
      | Some w =>
          if decide (readyState w = CLOSED) then None else
          let s := set_sockets
                     (alter (λ w, {| readyState := CLOSED;
                                     clientType := clientType w;
                                     agentId := agentId w |}) ws
                            (sockets s)) s in
          let '(s, out) := handleDisconnection ws s in
          Some (s, Log ConnectionClosed :: out)
      | None => None
      end
  | DemoAgentTimer now =>
      match demo s with
      | AgentTimerArmed =>
          let a := demoAgent now in
          let s := set_agents (Map_set (a_id a) a (agents s)) s in
          Some (set_demo (RequestTimerArmed a) s,
                [Log (CreatedDemoAgent (a_name a))])
      | _ => None
      end
  | DemoRequestTimer now =>
      match demo s with
      | RequestTimerArmed a =>
          let r := demoRequest a now in
          let s := set_humanRequests
                     (Map_set (r_id r) r (humanRequests s)) s in
          let s := set_demo DemoDone s in
          Some (s, [Log (CreatedDemoRequest (r_message r))]
                   ++ broadcastToGUIs s (AgentConnected a)
                   ++ broadcastToGUIs s (HumanInputRequestEvent r))
      | _ => None
      end
  end.

(** A run of the event loop, with the effects of all turns in order. *)
Fixpoint run (s : hub) (es : list hub_event) : option (hub * list effect) :=
  match es with
  | [] => Some (s, [])
  | e :: es =>
      match step s e with
      | Some (s1, out1) =>
          match run s1 es with
          | Some (s2, out2) => Some (s2, out1 ++ out2)
          | None => None
          end
      | None => None
      end
  end.

(** The states the hub can be in. *)
Inductive reachable : hub → Prop :=
  | reachable_init : reachable init
  | reachable_step s e s' out :
      reachable s → step s e = Some (s', out) → reachable s'.

End Hub.

(** ** The dashboard client: [AgentHUDApp] *)

Module App.

(** What the browser supplies when a handler asks for it:
    [new Date().toISOString()], [Date.now()] in decimal, and
    [Math.random().toString(36).substr(2, 9)]. *)
Record clock := {
  toISOString : string;
  Date_now : string;
  Math_random : string
}.

(** A timer armed with [setTimeout(() => this.connectToWebSocket(), delay)]. *)
Record timer := {
  timer_id : nat;
  delay : Z
}.

(** A [WebSocket] object of the browser: the port it was opened on. *)
Record socket := {
  port : Z;
  readyState : ready_state
}.

(** What the page writes with [console.error]: the line after the loop of
    [connectToWebSocket], the line of [ws.onerror] for the socket of a
    port, and the message of [showError]. *)
Inductive console_error :=
  | ServerNotFound
  | WebSocketError (port : Z)
  | ErrorShown (message : string).

(** The application object, with the parts of the browser it drives: the
    sockets it has created, the timers it has armed, the text of the
    [connectionStatus] element, the frames it has sent, the errors it has
    written to the console and the alerts it has raised.  The rest of the
    document is written by [updateUI] and read by nobody; it is left out.
    The document is taken to be the one the page ships with, so that
    [getElementById] finds its element and rendering does not throw. *)
Record app := {
  agents : list agent;
  humanRequests : list request;
  contentItems : list content_item;
  latestContent : option content_item;
  currentContentIndex : Z;
  currentRequestId : option ident;
  activeTab : string;
  activeMainTab : string;
  ws : option nat;
  reconnectInterval : option nat;
  sockets : list socket;
  timers : list timer;
  timeouts : nat;
  connectionStatus : string;
  outbox : list (nat * message);
  errors : list console_error;
  alerts : list string
}.

(** The constructor, up to the call of [init]. *)
Definition new (connectionStatus : string) : app :=
  {| agents := []; humanRequests := []; contentItems := [];
     latestContent := None; currentContentIndex := -1;
     currentRequestId := None; activeTab := "all";
     activeMainTab := "requests"; ws := None; reconnectInterval := None;
     sockets := []; timers := []; timeouts := 0;
     connectionStatus := connectionStatus; outbox := []; errors := [];
     alerts := [] |}.

Definition set_agents (v : list agent) (s : app) : app :=
  {| agents := v; humanRequests := humanRequests s;
     contentItems := contentItems s; latestContent := latestContent s;
     currentContentIndex := currentContentIndex s;
     currentRequestId := currentRequestId s; activeTab := activeTab s;
     activeMainTab := activeMainTab s; ws := ws s;
     reconnectInterval := reconnectInterval s; sockets := sockets s;
     timers := timers s; timeouts := timeouts s;
     connectionStatus := connectionStatus s; outbox := outbox s;
     errors := errors s; alerts := alerts s |}.

Definition set_humanRequests (v : list request) (s : app) : app :=
  {| agents := agents s; humanRequests := v;
     contentItems := contentItems s; latestContent := latestContent s;
     currentContentIndex := currentContentIndex s;
     currentRequestId := currentRequestId s; activeTab := activeTab s;
     activeMainTab := activeMainTab s; ws := ws s;
     reconnectInterval := reconnectInterval s; sockets := sockets s;
     timers := timers s; timeouts := timeouts s;
     connectionStatus := connectionStatus s; outbox := outbox s;
     errors := errors s; alerts := alerts s |}.

(** The three content fields, which the handlers assign together. *)
Definition set_content (items : list content_item)
    (latest : option content_item) (index : Z) (s : app) : app :=
  {| agents := agents s; humanRequests := humanRequests s;
     contentItems := items; latestContent := latest;
     currentContentIndex := index;
     currentRequestId := currentRequestId s; activeTab := activeTab s;
     activeMainTab := activeMainTab s; ws := ws s;
     reconnectInterval := reconnectInterval s; sockets := sockets s;
     timers := timers s; timeouts := timeouts s;
     connectionStatus := connectionStatus s; outbox := outbox s;
     errors := errors s; alerts := alerts s |}.

Definition set_currentRequestId (v : option ident) (s : app) : app :=
  {| agents := agents s; humanRequests := humanRequests s;
     contentItems := contentItems s; latestContent := latestContent s;
     currentContentIndex := currentContentIndex s;
     currentRequestId := v; activeTab := activeTab s;
     activeMainTab := activeMainTab s; ws := ws s;
     reconnectInterval := reconnectInterval s; sockets := sockets s;
     timers := timers s; timeouts := timeouts s;
     connectionStatus := connectionStatus s; outbox := outbox s;
     errors := errors s; alerts := alerts s |}.

Definition set_activeTab (v : string) (s : app) : app :=
  {| agents := agents s; humanRequests := humanRequests s;
     contentItems := contentItems s; latestContent := latestContent s;
     currentContentIndex := currentContentIndex s;
     currentRequestId := currentRequestId s; activeTab := v;
     activeMainTab := activeMainTab s; ws := ws s;
     reconnectInterval := reconnectInterval s; sockets := sockets s;
     timers := timers s; timeouts := timeouts s;
     connectionStatus := connectionStatus s; outbox := outbox s;
     errors := errors s; alerts := alerts s |}.

Definition set_activeMainTab (v : string) (s : app) : app :=
  {| agents := agents s; humanRequests := humanRequests s;
     contentItems := contentItems s; latestContent := latestContent s;
     currentContentIndex := currentContentIndex s;
     currentRequestId := currentRequestId s; activeTab := activeTab s;
     activeMainTab := v; ws := ws s;
     reconnectInterval := reconnectInterval s; sockets := sockets s;
     timers := timers s; timeouts := timeouts s;
     connectionStatus := connectionStatus s; outbox := outbox s;
     errors := errors s; alerts := alerts s |}.

(** The fields the connection handlers assign. *)
Definition set_link (w r : option nat) (socks : list socket)
    (ts : list timer) (n : nat) (status : string)
    (out : list (nat * message)) (errs : list console_error) (s : app)
    : app :=
  {| agents := agents s; humanRequests := humanRequests s;
     contentItems := contentItems s; latestContent := latestContent s;
     currentContentIndex := currentContentIndex s;
     currentRequestId := currentRequestId s; activeTab := activeTab s;
     activeMainTab := activeMainTab s; ws := w;
     reconnectInterval := r; sockets := socks;
     timers := ts; timeouts := n;
     connectionStatus := status; outbox := out;
     errors := errs; alerts := alerts s |}.

(** [showError(message)]: a line on the console, and an alert. *)
Definition showError (message : string) (s : app) : app :=
  {| agents := agents s; humanRequests := humanRequests s;
     contentItems := contentItems s; latestContent := latestContent s;
     currentContentIndex := currentContentIndex s;
     currentRequestId := currentRequestId s; activeTab := activeTab s;
     activeMainTab := activeMainTab s; ws := ws s;
     reconnectInterval := reconnectInterval s; sockets := sockets s;
     timers := timers s; timeouts := timeouts s;
     connectionStatus := connectionStatus s; outbox := outbox s;
     errors := errors s ++ [ErrorShown message];
     alerts := alerts s ++ ["Error: " +:+ message] |}.

(** *** The local copies of the hub's state *)

(** [addAgent(agent)]. *)
Definition addAgent (agent : agent) (s : app) : app :=
  match find_by a_id (a_id agent) (agents s) with
  | Some _ => s
  | None => set_agents (agents s ++ [agent]) s
  end.

(** [removeAgent(agentId)]. *)
Definition removeAgent (agentId : ident) (s : app) : app :=
  set_agents (filter (λ a, a_id a ≠ agentId) (agents s)) s.

(** [addRequest(request)]. *)
Definition addRequest (request : request) (s : app) : app :=
  match find_by r_id (r_id request) (humanRequests s) with
  | Some _ => s
  | None => set_humanRequests (humanRequests s ++ [request]) s
  end.

(** The assignment [contentItem.id = ...]. *)
Definition with_id (id : string) (c : content_item) : content_item :=
  {| c_id := Some id; c_type := c_type c; c_content := c_content c;
     c_language := c_language c; c_caption := c_caption c;
     c_title := c_title c; c_agent_id := c_agent_id c;
     c_agent_name := c_agent_name c; c_timestamp := c_timestamp c |}.

(** [addContentItem(contentItem)]. *)
Definition addContentItem (t : clock) (contentItem : content_item)
    (s : app) : app :=
  let contentItem :=
    if truthy (c_id contentItem) then contentItem
    else with_id (Date_now t +:+ "-" +:+ Math_random t) contentItem in
  match find_by c_id (c_id contentItem) (contentItems s) with
  | Some _ => s
  | None =>
      let items := contentItems s ++ [contentItem] in
      set_content items (Some contentItem) (Z.of_nat (length items) - 1) s
  end.

(** [a || b] on two possibly missing strings. *)
Definition or_else (a b : option string) : option string :=
  if truthy a then a else b.

(** [handleWebSocketMessage(data)]. *)
Definition handleWebSocketMessage (t : clock) (data : event) (s : app) : app :=
  match data with
  | AgentConnected a => addAgent a s
  | AgentDisconnected agentId => removeAgent agentId s
  | HumanInputRequestEvent r => addRequest r s
  | AgentUpdateEvent _ => s
  | ContentEmission c => addContentItem t c s
  | MarkdownContent d =>
      addContentItem t
        {| c_id := None; c_type := Some "markdown";
           c_content := d_content d; c_language := None; c_caption := None;
           c_title := Some (js_or (d_title d) "Markdown Content");
           c_agent_id := d_agent_id d; c_agent_name := d_agent_name d;
           c_timestamp := Some (js_or (d_timestamp d) (toISOString t)) |} s
  | CodeContent d =>
      addContentItem t
        {| c_id := None; c_type := Some "code";
           c_content := d_content d;
           c_language := Some (js_or (d_language d) "text");
           c_caption := None;
           c_title := Some (js_or (d_title d) "Code Snippet");
           c_agent_id := d_agent_id d; c_agent_name := d_agent_name d;
           c_timestamp := Some (js_or (d_timestamp d) (toISOString t)) |} s
  | ImageContent d =>
      addContentItem t
        {| c_id := None; c_type := Some "image";
           c_content := or_else (d_url d) (d_content d);
           c_language := None; c_caption := d_caption d;
           c_title := Some (js_or (d_title d) "Image");
           c_agent_id := d_agent_id d; c_agent_name := d_agent_name d;
           c_timestamp := Some (js_or (d_timestamp d) (toISOString t)) |} s
  | HumanInputResponseEvent _ _ | OtherEvent _ => s
  end.

(** *** What the user does *)

(** [openResponseModal(requestId)]. *)
Definition openResponseModal (requestId : ident) (s : app) : app :=
  match find_by r_id requestId (humanRequests s) with
  | None => s
  | Some _ => set_currentRequestId (Some requestId) s
  end.

(** [closeResponseModal()]. *)
Definition closeResponseModal (s : app) : app :=
  set_currentRequestId None s.

(** The assignment [request.status = 'Completed'] on the first request
    with the given id. *)
Fixpoint mark_completed (id : ident) (l : list request) : list request :=
  match l with
  | [] => []
  | r :: l =>
      if decide (r_id r = id) then
        {| r_id := r_id r; r_agent_id := r_agent_id r;
           r_agent_name := r_agent_name r;
           r_request_type := r_request_type r; r_message := r_message r;
           r_priority := r_priority r; r_status := "Completed";
           r_timestamp := r_timestamp r; r_options := r_options r;
           r_response := r_response r; r_agentWs := r_agentWs r |} :: l
      else r :: mark_completed id l
  end.

Definition is_open (s : app) : option nat :=
  w ← ws s; sock ← sockets s !! w;
  if decide (readyState sock = OPEN) then Some w else None.

(** [submitResponse()], with the trimmed text of the input box.  Sending
    on an open socket does not throw, so the [catch] is not entered. *)
Definition submitResponse (response : string) (s : app) : app :=
  match currentRequestId s with
  | None => s
  | Some requestId =>
      if negb (truthy_ident (Some requestId)) then s else
      if negb (truthy (Some response))
      then showError "Please enter a response" s else
      match is_open s with
      | Some w =>
          let s := set_link (ws s) (reconnectInterval s) (sockets s)
                     (timers s) (timeouts s) (connectionStatus s)
                     (outbox s
                      ++ [(w, HumanInputResponse (Some requestId)
                                (Some response))])
                     (errors s) s in
          let s := set_humanRequests
                     (mark_completed requestId (humanRequests s)) s in
          closeResponseModal s
      | None => showError "WebSocket connection not available" s
      end
  end.

(** [navigateContentPrevious()]. *)
Definition navigateContentPrevious (s : app) : app :=
  if decide (length (contentItems s) = 0) then s else
  let i := if decide (0 < currentContentIndex s)%Z
           then (currentContentIndex s - 1)%Z
           else (Z.of_nat (length (contentItems s)) - 1)%Z in
  set_content (contentItems s) (js_index (contentItems s) i) i s.

(** [navigateContentNext()]. *)
Definition navigateContentNext (s : app) : app :=
  if decide (length (contentItems s) = 0) then s else
  let i := if decide (currentContentIndex s
                      < Z.of_nat (length (contentItems s)) - 1)%Z
           then (currentContentIndex s + 1)%Z
           else 0%Z in
  set_content (contentItems s) (js_index (contentItems s) i) i s.

(** [viewContentItem(contentId)]. *)
Definition viewContentItem (contentId : string) (s : app) : app :=
  match findIndex_by c_id (Some contentId) (contentItems s) with
  | Some i =>
      set_activeMainTab "latest"
        (set_content (contentItems s) (contentItems s !! i) (Z.of_nat i) s)
  | None => s
  end.

(** [clearContentHistory()], with the answer to [confirm]. *)
Definition clearContentHistory (confirm : bool) (s : app) : app :=
  if confirm then set_content [] None (-1) s else s.

(** [clearHumanRequests()], with the answer to [confirm]. *)
Definition clearHumanRequests (confirm : bool) (s : app) : app :=
  if confirm then set_currentRequestId None (set_humanRequests [] s) else s.

(** *** What the page shows *)




(** What [formatTimestamp] returns: ['Just now'], [`${n}m ago`],
    [`${n}h ago`], or [date.toLocaleDateString()]. *)
Inductive age :=
  | JustNow
  | MinutesAgo (diffMins : Z)
  | HoursAgo (diffHours : Z)
  | LocaleDate.

(** [formatTimestamp(timestamp)], on [diffMs = now - date], a whole number
    of milliseconds, or [NaN] when the timestamp is no date; every
    comparison with [NaN] is false. *)
Definition formatTimestamp (diffMs : option Z) : age :=
  match diffMs with
  | None => LocaleDate
  | Some diffMs =>
      let diffMins := (diffMs `div` 60000)%Z in
      let diffHours := (diffMins `div` 60)%Z in
      if decide (diffMins < 1)%Z then JustNow
      else if decide (diffMins < 60)%Z then MinutesAgo diffMins
      else if decide (diffHours < 24)%Z then HoursAgo diffHours
      else LocaleDate
  end.

(** *** Discovery of the hub *)

(** What the browser reports for the socket of one attempt: [open]; or
    [error] followed by [close], when the connection is refused.  Either
    is taken to come at once, as on the loopback address the page dials.
    An attempt that stays pending until the one-second timer of
    [tryConnectToPort] is outside the model, and with it a rescan that
    comes due while a scan is still awaiting a port: a scan is one turn
    here.  On an attempt that has settled, that timer finds the promise
    settled and the socket open, or closed already, and changes nothing. *)
Inductive outcome := Opens | Fails.

Definition set_readyState (sock : nat) (r : ready_state)
    (socks : list socket) : list socket :=
  alter (λ w, {| port := port w; readyState := r |}) sock socks.

(** [new WebSocket(`ws://127.0.0.1:${port}`)], the first statement of the
    promise in [tryConnectToPort]: the new socket and the state holding
    it. *)
Definition new_WebSocket (p : Z) (s : app) : nat * app :=
  (length (sockets s),
   set_link (ws s) (reconnectInterval s)
     (sockets s ++ [{| port := p; readyState := CONNECTING |}])
     (timers s) (timeouts s) (connectionStatus s) (outbox s) (errors s) s).

(** [ws.onopen], on a socket the browser has just opened. *)
Definition onopen (sock : nat) (s : app) : app :=
  set_link (Some sock) None
    (set_readyState sock OPEN (sockets s))
    (match reconnectInterval s with
     | Some t => filter (λ x, timer_id x ≠ t) (timers s)
     | None => timers s
     end)
    (timeouts s) "Connected"
    (outbox s ++ [(sock, RegisterGui)]) (errors s) s.

(** [ws.onclose], on a socket the browser has just closed. *)
Definition onclose (sock : nat) (s : app) : app :=
  let t := S (timeouts s) in
  set_link (ws s) (Some t)
    (set_readyState sock CLOSED (sockets s))
    (timers s ++ [{| timer_id := t; delay := 3000 |}])
    t "Disconnected" (outbox s) (errors s) s.

(** [ws.onerror] on the socket of a port: a line on the console, and the
    promise rejected. *)
Definition onerror (p : Z) (s : app) : app :=
  set_link (ws s) (reconnectInterval s) (sockets s) (timers s) (timeouts s)
    (connectionStatus s) (outbox s) (errors s ++ [WebSocketError p]) s.

(** The [close] event of the socket of a rejected attempt, when one is
    due. *)
Definition close_due (prev : option nat) (s : app) : app :=
  match prev with
  | Some sock => onclose sock s
  | None => s
  end.

(** The two statements after the loop of [connectToWebSocket]. *)
Definition server_not_found (s : app) : app :=
  set_link (ws s) (reconnectInterval s) (sockets s) (timers s) (timeouts s)
    "Server Not Found" (outbox s)
    (errors s ++ [ServerNotFound]) s.

(** The loop of [connectToWebSocket] over the ports left to try.  Each
    turn is one [await this.tryConnectToPort(port)].  When an attempt is
    rejected the loop resumes as soon as the rejecting handler returns, so
    the next socket is created, or the failure reported, before the [close]
    event of the rejected socket is handled: [prev] is that socket. *)
Fixpoint scan (attempt : Z → outcome) (ports : list Z)
    (prev : option nat) (s : app) : app :=
  match ports with
  | [] => close_due prev (server_not_found s)
  | p :: ports =>
      let '(sock, s) := new_WebSocket p s in
      let s := close_due prev s in
      match attempt p with
      | Opens => onopen sock s
      | Fails => scan attempt ports (Some sock) (onerror p s)
      end
  end.

(** [connectToWebSocket()]: ports 8080 to 8199. *)
Definition connectToWebSocket (attempt : Z → outcome) (s : app) : app :=
  scan attempt (seqZ 8080 120) None s.

(** The ports one call of [connectToWebSocket] tries, in order. *)
Fixpoint probed (attempt : Z → outcome) (ports : list Z) : list Z :=
  match ports with
  | [] => []
  | p :: ports =>
      match attempt p with
      | Opens => [p]
      | Fails => p :: probed attempt ports
      end
  end.

(** *** The event loop of the page *)

Inductive app_event :=
  | TimerFires (t : nat) (attempt : Z → outcome)
  | SocketCloses (sock : nat)
  | ServerMessage (sock : nat) (t : clock) (data : event)
  | OpenResponseModal (requestId : ident)
  | CloseResponseModal
  | SubmitResponse (response : string)
  | NavigateContentPrevious
  | NavigateContentNext
  | ViewContentItem (contentId : string)
  | ClearContentHistory (confirm : bool)
  | ClearHumanRequests (confirm : bool)
  | SwitchTab (tabName : string)
  | SwitchMainTab (tabName : string)
  | SocketErrors (sock : nat).

Definition socket_open (sock : nat) (s : app) : bool :=
  match sockets s !! sock with
  | Some w => bool_decide (readyState w = OPEN)
  | None => false
  end.

(** One turn of the event loop.  [None] when the event cannot occur in the
    state: a timer fires once, after it was armed and unless it was
    cleared; a socket that is open closes once; a message arrives on a
    socket that is open; a socket that is open reports an error when its
    connection breaks, and its [close] follows as an event of its own.
    Frames come from the hub: they parse, and carry the payload their
    handler reads. *)
Definition step (s : app) (e : app_event) : option app :=
  match e with
  | TimerFires t attempt =>
      if decide (t ∈ timer_id <$> timers s) then
        Some (connectToWebSocket attempt
                (set_link (ws s) (reconnectInterval s) (sockets s)
                   (filter (λ x, timer_id x ≠ t) (timers s)) (timeouts s)
                   (connectionStatus s) (outbox s) (errors s) s))
      else None
  | SocketCloses sock =>
      if socket_open sock s then Some (onclose sock s) else None
  | ServerMessage sock t data =>
      if socket_open sock s then Some (handleWebSocketMessage t data s)
      else None
  | OpenResponseModal requestId => Some (openResponseModal requestId s)
  | CloseResponseModal => Some (closeResponseModal s)
  | SubmitResponse response => Some (submitResponse response s)
  | NavigateContentPrevious => Some (navigateContentPrevious s)
  | NavigateContentNext => Some (navigateContentNext s)
  | ViewContentItem contentId => Some (viewContentItem contentId s)
  | ClearContentHistory confirm => Some (clearContentHistory confirm s)
  | ClearHumanRequests confirm => Some (clearHumanRequests confirm s)
  | SwitchTab tabName => Some (set_activeTab tabName s)
  | SwitchMainTab tabName => Some (set_activeMainTab tabName s)
  | SocketErrors sock =>
      match sockets s !! sock with
      | Some w =>
          if decide (readyState w = OPEN) then Some (onerror (port w) s)
          else None
      | None => None
      end
  end.

(** A run of the page's event loop. *)
Fixpoint run (s : app) (es : list app_event) : option app :=
  match es with
  | [] => Some s
  | e :: es =>
      match step s e with
      | Some s => run s es
      | None => None
      end
  end.

(** The states the page can be in: [init] calls [connectToWebSocket] on the
    fresh object, and events follow. *)
Inductive reachable : app → Prop :=
  | reachable_init attempt status :
      reachable (connectToWebSocket attempt (new status))
  | reachable_step s e s' :
      reachable s → step s e = Some s' → reachable s'.

End App.

(** ** The hub and a dashboard attached to it *)

Module System.

(** The frames the hub wrote to connection [ws], handled in order by the
    page at the other end ([ws.onmessage]). *)
Definition deliver (t : App.clock) (ws : conn) (out : list Hub.effect)
    (page : App.app) : App.app :=
  foldl (λ page e, App.handleWebSocketMessage t e page) page
    (Hub.sent_to ws out).

(** The frames a page wrote to its socket, handled in order by the hub on
    connection [ws]; a frame that finds the connection closed is lost. *)
Fixpoint receive (now : string) (ws : conn) (frames : list (nat * message))
    (h : Hub.hub) : Hub.hub * list Hub.effect :=
  match frames with
  | [] => (h, [])
  | (_, m) :: frames =>
      match Hub.step h (Hub.Message ws now m) with
      | Some (h1, out1) =>
          let '(h2, out2) := receive now ws frames h1 in (h2, out1 ++ out2)
      | None => receive now ws frames h
      end
  end.

(** A hub, and a page attached to it on connection [link]. *)
Record system := {
  hub : Hub.hub;
  page : App.app;
  link : conn
}.

(** The user does something on the page; what the page sends as a result
    reaches the hub. *)
Definition user (now : string) (act : App.app → App.app) (sys : system)
    : system :=
  let page' := act (page sys) in
  let frames := drop (length (App.outbox (page sys))) (App.outbox page') in
  {| hub := (receive now (link sys) frames (hub sys)).1;
     page := page';
     link := link sys |}.

End System.

(** ** Notions the properties are stated with *)

Module Spec.
Import Hub.

(** The registered observers a broadcast reaches: those whose socket is
    open. *)
Definition observers (s : hub) : list conn :=
  filter (λ gui, is_open s gui) (guiClients s).

(** The connections that have not closed and carry the given agent id. *)
Definition is_live (s : hub) (id : ident) (ws : conn) : bool :=
  match sockets s !! ws with
  | Some w => bool_decide (readyState w ≠ CLOSED ∧ agentId w = Some id)
  | None => false
  end.

Definition live_connections (s : hub) (id : ident) : list conn :=
  filter (λ ws, is_live s id ws) (seq 0 (length (sockets s))).

(** The [human-input-request] frames among the frames written to a
    socket. *)
Definition request_events (l : list event) : list request :=
  omap (λ e, match e with HumanInputRequestEvent r => Some r | _ => None end) l.

(** The messages section 4.1 of the specification has the hub drop: any
    message but a registration on a connection not yet classified, and on a
    classified connection the types of the other role; a type the hub does
    not know is valid for no role. *)
Definition not_valid_for (role : option string) (m : message) : bool :=
  match m with
  | OtherMessage _ => true
  | RegisterGui | RegisterAgent _ => false
  | HumanInputRequest _ | AgentUpdate _ =>
      bool_decide (role ≠ Some "agent")
  | HumanInputResponse _ _ => bool_decide (role ≠ Some "gui")
  end.

(** A request is either pending with no response, or completed. *)
Definition request_ok (r : request) : Prop :=
  (r_status r = "Pending" ∧ r_response r = None)
  ∨ r_status r = "Completed".

(** A request is either pending with no response, or completed with
    one. *)
Definition request_answered (r : request) : Prop :=
  (r_status r = "Pending" ∧ r_response r = None)
  ∨ (r_status r = "Completed" ∧ is_Some (r_response r)).

(** The event is not a [human-input-response] message without a
    [response]. *)
Definition carries_response (e : hub_event) : Prop :=
  match e with
  | Message _ _ (HumanInputResponse _ None) => False
  | _ => True
  end.

(** The fields of the hub object and of its sockets are the same in both
    states.  (The number of identifiers drawn is no field of the
    program.) *)
Definition same_hub (s s' : hub) : Prop :=
  agents s' = agents s ∧ humanRequests s' = humanRequests s
  ∧ guiClients s' = guiClients s ∧ sockets s' = sockets s
  ∧ demo s' = demo s.

(** The ways one turn of the hub's event loop changes the ledger: not at
    all; a pending request stored under the identifier just drawn; a
    stored request completed where it stands; the demo request stored by
    its timer. *)
Inductive ledger_step (s s' : hub) : Prop :=
  | ledger_same :
      humanRequests s' = humanRequests s →
      (uuids s ≤ uuids s')%nat →
      (demo s = DemoDone → demo s' = DemoDone) →
      ledger_step s s'
  | ledger_created r :
      humanRequests s' = Map_set (Uuid (uuids s)) r (humanRequests s) →
      r_status r = "Pending" → r_response r = None →
      uuids s' = S (uuids s) →
      demo s' = demo s →
      ledger_step s s'
  | ledger_completed id r response :
      Map_get id (humanRequests s) = Some r →
      humanRequests s' = Map_set id (complete response r) (humanRequests s) →
      uuids s' = uuids s →
      demo s' = demo s →
      ledger_step s s'
  | ledger_demo a now :
      demo s = RequestTimerArmed a →
      demo s' = DemoDone →
      humanRequests s'
      = Map_set (Named "demo-request-001") (demoRequest a now)
          (humanRequests s) →
      uuids s' = uuids s →
      ledger_step s s'.

(** What holds of the ledger in every state of the hub. *)
Record ledger_inv (s : hub) : Prop := {
  inv_requests id r :
    Map_get id (humanRequests s) = Some r → request_ok r;
  inv_fresh n r :
    Map_get (Uuid n) (humanRequests s) = Some r → (n < uuids s)%nat;
  inv_named x r :
    Map_get (Named x) (humanRequests s) = Some r → demo s = DemoDone
}.

(** A socket carries an agent id whenever it is tagged as agent, and the
    id is one the hub drew. *)
Definition socket_ok (w : socket) : Prop :=
  match agentId w with
  | Some id => ∃ n, id = Uuid n
  | None => clientType w ≠ Some "agent"
  end.

(** What holds of the sockets and of the demo agent in every state of the
    hub. *)
Record registry_inv (s : hub) : Prop := {
  inv_sockets : Forall socket_ok (sockets s);
  inv_demo :
    demo s ≠ AgentTimerArmed →
    is_Some (Map_get (Named "demo-agent-001") (agents s))
}.

(** Every item of the page's history has an id that is not falsy. *)
Definition ids_truthy (s : App.app) : Prop :=
  Forall (λ c, truthy (c_id c) = true) (App.contentItems s).

(** The kinds of frame the hub writes. *)
Definition hub_kind (m : event) : bool :=
  match m with
  | AgentConnected _ | AgentDisconnected _ | HumanInputRequestEvent _
  | AgentUpdateEvent _ | HumanInputResponseEvent _ _ => true
  | _ => false
  end.

(** Every frame among the effects goes to a socket that is open in the
    given state and is of a kind the hub writes. *)
Definition frames_ok (s : hub) (out : list effect) : Prop :=
  Forall (λ f, is_open s f.1 = true ∧ hub_kind f.2 = true) (sent out).

(** Two request objects that differ at most in status and response. *)
Definition same_request (r r' : request) : Prop :=
  r_id r' = r_id r
  ∧ r_agent_id r' = r_agent_id r
  ∧ r_agent_name r' = r_agent_name r
  ∧ r_request_type r' = r_request_type r
  ∧ r_message r' = r_message r
  ∧ r_priority r' = r_priority r
  ∧ r_timestamp r' = r_timestamp r
  ∧ r_options r' = r_options r
  ∧ r_agentWs r' = r_agentWs r.

(** Some socket carries the agent id. *)
Definition carried (s : hub) (id : ident) : Prop :=
  ∃ ws w, sockets s !! ws = Some w ∧ agentId w = Some id.

(** The agent ids on the sockets are ones the hub has drawn, and no two
    sockets carry the same. *)
Record carriers_inv (s : hub) : Prop := {
  inv_drawn ws w n :
    sockets s !! ws = Some w → agentId w = Some (Uuid n) → (n < uuids s)%nat;
  inv_unique ws1 ws2 w1 w2 id :
    sockets s !! ws1 = Some w1 → sockets s !! ws2 = Some w2 →
    agentId w1 = Some id → agentId w2 = Some id → ws1 = ws2
}.

(** The page lists no id twice. *)
Record lists_distinct (s : App.app) : Prop := {
  agents_distinct : NoDup (a_id <$> App.agents s);
  requests_distinct : NoDup (r_id <$> App.humanRequests s);
  content_distinct : NoDup (c_id <$> App.contentItems s)
}.

(** The item on show is the one at the cursor: either the history is
    empty, nothing is on show and the cursor is -1, or the cursor is a
    position of the history and the item on show is the one there. *)
Definition cursor_ok (s : App.app) : Prop :=
  (App.contentItems s = [] ∧ App.latestContent s = None
   ∧ App.currentContentIndex s = (-1)%Z)
  ∨ ((0 ≤ App.currentContentIndex s < Z.of_nat (length (App.contentItems s)))%Z
     ∧ App.latestContent s
       = App.contentItems s !! Z.to_nat (App.currentContentIndex s)).

(** The frames a page writes: a registration, or a response that is not
    empty. *)
Definition page_frame (m : message) : Prop :=
  m = RegisterGui
  ∨ ∃ requestId response,
      m = HumanInputResponse (Some requestId) (Some response)
      ∧ response ≠ "".

(** What the message handlers read of a socket: its state and the agent
    id on it, and not the role. *)
Definition untagged (w : socket) : ready_state * option ident :=
  (readyState w, agentId w).

(** Two hubs that agree on everything but the roles on their sockets. *)
Definition same_but_roles (s1 s2 : hub) : Prop :=
  agents s1 = agents s2 ∧ humanRequests s1 = humanRequests s2
  ∧ guiClients s1 = guiClients s2 ∧ uuids s1 = uuids s2
  ∧ demo s1 = demo s2
  ∧ untagged <$> sockets s1 = untagged <$> sockets s2.

(** The records an agent goes through under a sequence of updates. *)
Fixpoint merges (a : agent) (patches : list (option agent_patch))
    : list agent :=
  match patches with
  | [] => []
  | p :: patches => Object_assign a p :: merges (Object_assign a p) patches
  end.

(** The socket has emitted [close]. *)
Definition gone (s : hub) (ws : conn) : Prop :=
  readyState <$> sockets s !! ws = Some CLOSED.

End Spec.

(** ** The specification's sentences, as it words them *)

Module Stated.
Import Hub Spec.

(** Section 4.2: a submit on a connection with no associated Agent fails
    silently, creating no record and broadcasting nothing. *)
Definition submit_fails_silently : Prop :=
  ∀ s ws now data s' out,
    reachable s →
    agent_of s ws = None →
    step s (Message ws now (HumanInputRequest data)) = Some (s', out) →
    humanRequests s' = humanRequests s ∧ sent out = [].

(** Section 4.1: a message that is not valid for the connection's role, or
    arrives before classification, is dropped. *)
Definition wrong_role_dropped : Prop :=
  ∀ s ws w now m s' out,
    reachable s →
    sockets s !! ws = Some w →
    not_valid_for (clientType w) m = true →
    step s (Message ws now m) = Some (s', out) →
    s' = s ∧ sent out = [].

(** Section 4.2: the response of a request is set if and only if its
    status is Completed. *)
Definition response_iff_completed : Prop :=
  ∀ s id r,
    reachable s →
    Map_get id (humanRequests s) = Some r →
    is_Some (r_response r) ↔ r_status r = "Completed".

(** Section 3: one Agent maps to exactly one live Connection. *)
Definition one_live_connection_per_agent : Prop :=
  ∀ s id a,
    reachable s →
    Map_get id (agents s) = Some a →
    length (live_connections s id) = 1.

(** Section 4.2: [clear()] empties the ledger entirely. *)
Definition clear_empties_ledger : Prop :=
  ∀ sys now confirm,
    reachable (System.hub sys) →
    humanRequests
      (System.hub (System.user now (App.clearHumanRequests confirm) sys))
    = [].

End Stated.

(** ** Runs used as examples *)

Module Examples.
Import Hub.

(** The state after a run from the start, when the run is possible. *)
Definition after (es : list hub_event) : hub :=
  match run init es with
  | Some (s, _) => s
  | None => init
  end.

Definition approval : request_data :=
  {| rd_request_type := Some "approval";
     rd_message := Some "proceed?";
     rd_priority := Some "High";
     rd_options := Some ["Yes"; "No"] |}.

(** Two connections; the second registers as observer. *)
Definition one_observer : list hub_event :=
  [Connection; Connection; Message 1 "t0" RegisterGui].

(** An agent registers and submits a request, an observer resolves it. *)
Definition resolved : list hub_event :=
  [Connection; Connection; Message 1 "t0" RegisterGui;
   Message 0 "t1" (RegisterAgent (Some {| ad_name := Some "Analyst" |}));
   Message 0 "t2" (HumanInputRequest (Some approval));
   Message 1 "t3" (HumanInputResponse (Some (Uuid 1)) (Some "Yes"))].

(** An agent registers and submits a request, the demo timers fire, and
    a second connection is made. *)
Definition two_requests : list hub_event :=
  [Connection;
   Message 0 "t1" (RegisterAgent (Some {| ad_name := Some "Analyst" |}));
   Message 0 "t2" (HumanInputRequest (Some approval));
   DemoAgentTimer "t3"; DemoRequestTimer "t4"; Connection].

(** An agent and two observers; the agent registers and submits a
    request, which both observers receive. *)
Definition two_observers_pending : list hub_event :=
  [Connection; Connection; Connection;
   Message 1 "t0" RegisterGui; Message 2 "t0" RegisterGui;
   Message 0 "t1" (RegisterAgent (Some {| ad_name := Some "Analyst" |}));
   Message 0 "t2" (HumanInputRequest (Some approval))].

Definition noon : App.clock :=
  {| App.toISOString := "2025-01-01T12:00:00.000Z";
     App.Date_now := "1735732800000";
     App.Math_random := "k3j9x0q1z" |}.

(** A page that found the hub on the first port it tried. *)
Definition connected_page : App.app :=
  App.connectToWebSocket (λ _, App.Opens) (App.new "Connecting...").

Definition report : content_item :=
  {| c_id := Some "report-1"; c_type := Some "markdown";
     c_content := Some "# Findings"; c_language := None; c_caption := None;
     c_title := Some "Findings"; c_agent_id := Some "a1";
     c_agent_name := Some "Analyst"; c_timestamp := Some "t1" |}.

Definition snippet : content_data :=
  {| d_content := Some "print(1)"; d_url := None;
     d_language := Some "python"; d_caption := None; d_title := None;
     d_agent_id := Some "a1"; d_agent_name := Some "Analyst";
     d_timestamp := None |}.

(** A page that has received two content items and looks at the first. *)
Definition browsing : list App.app_event :=
  [App.ServerMessage 0 noon (ContentEmission report);
   App.ServerMessage 0 noon (CodeContent snippet);
   App.NavigateContentPrevious].

Definition page_after (es : list App.app_event) : App.app :=
  default connected_page (App.run connected_page es).

(** The frames of a run of the hub from the start. *)
Definition effects_of (es : list hub_event) : list effect :=
  match run init es with
  | Some (_, out) => out
  | None => []
  end.

(** The page behind the second observer of [two_observers_pending]. *)
Definition listing_page : App.app :=
  System.deliver noon 2 (effects_of two_observers_pending) connected_page.

Definition answered : request :=
  {| r_id := Uuid 1; r_agent_id := Some (Uuid 0); r_agent_name := "Analyst";
     r_request_type := "approval"; r_message := "proceed?";
     r_priority := "High"; r_status := "Completed"; r_timestamp := "t2";
     r_options := ["Yes"; "No"]; r_response := Some "Yes";
     r_agentWs := Some 0 |}.

Definition renamed : agent :=
  {| a_id := Uuid 0; a_name := "Analyst II"; a_status := "Active";
     a_timestamp := "t9"; a_more := ∅ |}.

(** The hub of [two_observers_pending] with the page of its second
    observer. *)
Definition attached : System.system :=
  {| System.hub := after two_observers_pending;
     System.page := listing_page;
     System.link := 2 |}.

(** No hub listens on any port: every attempt is refused. *)
Definition nobody_listens : Z → App.outcome := λ _, App.Fails.

(** A hub listens on port 8083 only. *)
Definition hub_on_8083 : Z → App.outcome :=
  λ p, if decide (p = 8083)%Z then App.Opens else App.Fails.

(** The agent of [two_observers_pending] drops its connection while its
    request is pending. *)
Definition agent_gone : list hub_event :=
  two_observers_pending ++ [Close 0].

(** An observer registers twice; an agent registers and its connection
    starts closing. *)
Definition registered_twice : list hub_event :=
  [Connection; Connection; Connection;
   Message 1 "t0" RegisterGui; Message 1 "t1" RegisterGui;
   Message 2 "t2" RegisterGui; Closing 2].

Definition pending : request :=
  {| r_id := Uuid 1; r_agent_id := Some (Uuid 0); r_agent_name := "Analyst";
     r_request_type := "approval"; r_message := "proceed?";
     r_priority := "High"; r_status := "Pending"; r_timestamp := "t2";
     r_options := ["Yes"; "No"]; r_response := None;
     r_agentWs := Some 0 |}.

Definition analyst : agent :=
  {| a_id := Uuid 0; a_name := "Analyst"; a_status := "Connected";
     a_timestamp := "t1"; a_more := ∅ |}.

Definition busy : agent_patch :=
  {| p_id := None; p_name := None; p_status := Some "Active";
     p_timestamp := None; p_more := {[ "task" := "indexing" ]} |}.

(** An agent registers on a connection, with two observers attached. *)
Definition agent_registered : list hub_event :=
  [Connection; Connection; Connection;
   Message 1 "t0" RegisterGui; Message 2 "t0" RegisterGui;
   Message 0 "t1" (RegisterAgent (Some {| ad_name := Some "Analyst" |}))].

(** The agent of [agent_registered] registers a second time on its
    connection. *)
Definition registered_again : list hub_event :=
  agent_registered
  ++ [Message 0 "t2" (RegisterAgent (Some {| ad_name := Some "Analyst" |}))].


(** A content item that comes without an id. *)
Definition unlabelled : content_item :=
  {| c_id := None; c_type := Some "image";
     c_content := Some "https://example.org/plot.png"; c_language := None;
     c_caption := Some "Plot"; c_title := Some "Image";
     c_agent_id := Some "a1"; c_agent_name := Some "Analyst";
     c_timestamp := Some "t3" |}.

(** The page of [attached] with the response box open on the pending
    request. *)
Definition answering : System.system :=
  {| System.hub := after two_observers_pending;
     System.page := App.openResponseModal (Uuid 1) listing_page;
     System.link := 2 |}.

(** The hub with the role taken off every socket. *)
Definition without_roles (s : hub) : hub :=
  set_sockets ((λ w, {| readyState := readyState w; clientType := None;
                        agentId := agentId w |}) <$> sockets s) s.

Definition idle : agent_patch :=
  {| p_id := None; p_name := Some "Analyst (idle)"; p_status := Some "Idle";
     p_timestamp := Some "t5"; p_more := {[ "task" := "none" ]} |}.

(** A request is submitted on a connection that never registered; an
    observer answers it with a message that carries no [response]. *)
Definition unanswered : list hub_event :=
  [Connection; Connection; Message 1 "t0" RegisterGui;
   Message 0 "t1" (HumanInputRequest (Some approval));
   Message 1 "t2" (HumanInputResponse (Some (Uuid 0)) None)].

(** A patch that carries an [id] of its own, an integer-like key and the
    key [__proto__]. *)
Definition crafted : agent_patch :=
  {| p_id := Some (Named "a-7"); p_name := None; p_status := Some "Active";
     p_timestamp := None;
     p_more := {[ "__proto__" := "x"; "7" := "seven";
                  "task" := "indexing" ]} |}.

(** The page of [answering] after its socket has closed. *)
Definition offline : System.system :=
  {| System.hub := after two_observers_pending;
     System.page := App.onclose 0 (System.page answering);
     System.link := 2 |}.

End Examples.

(** * Properties *)

(** ** Maps and sets *)

Section JsMapFacts.
Context {K V : Type} `{EqDecision K}.
Implicit Types (k : K) (v : V) (m : list (K * V)).

Lemma Map_get_set_eq k v m : Map_get k (Map_set k v m) = Some v.
Proof.
  induction m as [|[k' v'] m IH]; simpl.
  - by rewrite decide_True.
  - destruct (decide (k = k')) as [->|Hne]; simpl.
    + by rewrite decide_True.
    + by rewrite decide_False.
Qed.

Lemma Map_get_set_ne k k' v m :
  k ≠ k' → Map_get k' (Map_set k v m) = Map_get k' m.
Proof.
  intros Hne. induction m as [|[k0 v0] m IH]; simpl.
  - by rewrite decide_False.
  - destruct (decide (k = k0)) as [->|Hne0]; simpl.
    + by rewrite !decide_False.
    + destruct (decide (k' = k0)); done.
Qed.

Lemma Map_get_delete_eq k m : Map_get k (Map_delete k m) = None.
Proof.
  unfold Map_delete. induction m as [|[k' v'] m IH]; [done|].
  rewrite filter_cons. simpl. destruct (decide (k' ≠ k)) as [Hne|Heq]; simpl.
  - by rewrite decide_False.
  - done.
Qed.

Lemma Map_get_delete_ne k k' m :
  k ≠ k' → Map_get k' (Map_delete k m) = Map_get k' m.
Proof.
  intros Hne. unfold Map_delete. induction m as [|[k0 v0] m IH]; [done|].
  rewrite filter_cons. simpl. destruct (decide (k0 ≠ k)) as [Hne0|Heq]; simpl.
  - by rewrite IH.
  - apply dec_stable in Heq as ->. by rewrite decide_False.
Qed.

Lemma Map_get_Some_elem k v m : Map_get k m = Some v → (k, v) ∈ m.
Proof.
  induction m as [|[k' v'] m IH]; simpl; [done|].
  destruct (decide (k = k')) as [->|Hne].
  - intros [= ->]. apply list_elem_of_here.
  - intros Hm. apply list_elem_of_further. auto.
Qed.

Lemma Map_get_None_keys k m : Map_get k m = None ↔ k ∉ m.*1.
Proof.
  induction m as [|[k' v'] m IH]; simpl.
  - split; [intros _; apply not_elem_of_nil|done].
  - rewrite not_elem_of_cons. destruct (decide (k = k')) as [->|Hne].
    + split; [done|]. intros [? _]. done.
    + rewrite IH. tauto.
Qed.

Lemma Map_set_keys_absent k v m :
  Map_get k m = None → Map_set k v m = m ++ [(k, v)].
Proof.
  induction m as [|[k' v'] m IH]; simpl; [done|].
  destruct (decide (k = k')); [done|]. intros Hm. by rewrite IH.
Qed.

Lemma Map_set_keys_present k v m :
  is_Some (Map_get k m) → (Map_set k v m).*1 = m.*1.
Proof.
  induction m as [|[k' v'] m IH]; simpl.
  - by intros [? ?].
  - destruct (decide (k = k')) as [->|Hne]; simpl; [done|].
    intros Hm. f_equal. by apply IH.
Qed.

Lemma Map_set_keys_NoDup k v m : NoDup m.*1 → NoDup (Map_set k v m).*1.
Proof.
  intros Hm. destruct (Map_get k m) as [v0|] eqn:Hk.
  - by rewrite Map_set_keys_present.
  - rewrite Map_set_keys_absent by done. rewrite fmap_app. simpl.
    apply NoDup_app. split_and!; [done| |apply NoDup_singleton].
    intros x Hx ->%list_elem_of_singleton. by apply Map_get_None_keys in Hk.
Qed.

Lemma Map_delete_keys_NoDup k m : NoDup m.*1 → NoDup (Map_delete k m).*1.
Proof.
  unfold Map_delete. induction m as [|[k' v'] m IH]; [done|].
  rewrite filter_cons. simpl. intros [Hk' Hm]%NoDup_cons.
  destruct (decide (k' ≠ k)); simpl; [|by auto].
  apply NoDup_cons. split; [|by auto].
  intros Hin. apply Hk'. apply list_elem_of_fmap in Hin as [kv [-> Hkv]].
  apply list_elem_of_fmap. exists kv. split; [done|].
  by apply list_elem_of_filter in Hkv as [_ ?].
Qed.

End JsMapFacts.

Section JsArrayFacts.
Context {A I : Type} `{EqDecision I}.
Implicit Types (key : A → I) (l : list A).

Lemma find_by_elem key i l : i ∈ key <$> l → is_Some (find_by key i l).
Proof.
  intros [x [-> Hx]]%list_elem_of_fmap. unfold find_by.
  destruct (list_find_elem_of (λ y, key y = key x) l x) as [[j y] Hj];
    [done..|].
  rewrite Hj. by eexists.
Qed.

Lemma find_by_not_elem key i l : i ∉ key <$> l → find_by key i l = None.
Proof.
  intros Hi. unfold find_by.
  destruct (list_find _ l) as [[j y]|] eqn:Hj; [|done].
  apply list_find_Some in Hj as (Hy & Hk & _). destruct Hi.
  apply list_elem_of_fmap. exists y. split; [done|].
  by eapply list_elem_of_lookup_2.
Qed.

End JsArrayFacts.

(** ** The hub *)

Section HubFacts.
Import Hub Spec.
Implicit Types (s : hub) (ws : conn) (m : event) (out : list effect).

Lemma sent_app out1 out2 : sent (out1 ++ out2) = sent out1 ++ sent out2.
Proof. apply omap_app. Qed.

Lemma sent_to_app ws out1 out2 :
  sent_to ws (out1 ++ out2) = sent_to ws out1 ++ sent_to ws out2.
Proof. apply omap_app. Qed.

Lemma sent_sendToClient s ws m :
  sent (sendToClient s ws m) = if is_open s ws then [(ws, m)] else [].
Proof. unfold sendToClient. by destruct (is_open s ws). Qed.

Lemma sent_broadcastToGUIs s m :
  sent (broadcastToGUIs s m) = (., m) <$> observers s.
Proof.
  unfold broadcastToGUIs, observers.
  induction (guiClients s) as [|gui guis IH]; [done|].
  rewrite bind_cons, sent_app, IH, sent_sendToClient, filter_cons.
  destruct (is_open s gui); simpl; repeat case_decide; naive_solver.
Qed.

(** A replay loop of [registerGUI]: one frame per entry when the socket is
    open. *)
Lemma sent_replay {A} s ws (f : A → event) (l : list A) :
  is_open s ws = true →
  sent (x ← l; sendToClient s ws (f x)) = (λ x, (ws, f x)) <$> l.
Proof.
  intros Hopen. induction l as [|x l IH]; [done|].
  rewrite bind_cons, sent_app, IH, sent_sendToClient, Hopen. done.
Qed.

Lemma run_reachable s es s' out :
  reachable s → run s es = Some (s', out) → reachable s'.
Proof.
  revert s out. induction es as [|e es IH]; simpl; intros s out Hs Hrun.
  - by injection Hrun as <- _.
  - destruct (step s e) as [[s1 out1]|] eqn:Hstep; [|done].
    destruct (run s1 es) as [[s2 out2]|] eqn:Hrest; [|done].
    injection Hrun as <- _. eapply IH; [|done].
    by eapply reachable_step.
Qed.

End HubFacts.

(** ** Requests from connections without an agent *)

Section Submit.
Import Hub Spec Stated Examples.

Lemma after_reachable es s out : run init es = Some (s, out) → reachable s.
Proof. intros Hrun. eapply run_reachable; [apply reachable_init|done]. Qed.

Lemma reachable_after es : reachable (after es).
Proof.
  unfold after. destruct (run init es) as [[s out]|] eqn:Hrun.
  - by eapply after_reachable.
  - apply reachable_init.
Qed.

(** C1, as stated, fails: with one observer attached, a request arriving on
    a connection that never registered is stored and broadcast. *)
Lemma submit_without_agent_is_stored : ¬ submit_fails_silently.
Proof.
  intros Hclaim.
  destruct (run init one_observer) as [[s out0]|] eqn:Hrun; [|done].
  destruct (step s (Message 0 "t1" (HumanInputRequest (Some approval))))
    as [[s' out]|] eqn:Hstep; [|by vm_compute in Hrun; simplify_eq].
  destruct (Hclaim s 0 "t1" (Some approval) s' out) as [Hledger _].
  - by eapply after_reachable.
  - vm_compute in Hrun. by simplify_eq.
  - done.
  - vm_compute in Hrun. simplify_eq. vm_compute in Hstep. by simplify_eq.
Qed.

(** C1 (amended): a [human-input-request] that carries a [data] payload
    and arrives on a connection that has no Agent record is not dropped:
    a request is stored under the id [uuidv4] returns, with status Pending,
    no response, the agent name ["Unknown Agent"] and the agent id found on
    the connection (none if it never registered), and it is sent to every
    registered observer whose socket is open.  A [human-input-request]
    without a [data] payload is dropped: the handler throws before it
    touches the ledger, the listener logs the error, the hub is as it was
    and nothing is sent. *)
Theorem request_without_agent s ws now data s' out :
  agent_of s ws = None →
  step s (Message ws now (HumanInputRequest data)) = Some (s', out) →
  match data with
  | Some _ =>
      ∃ r,
        humanRequests s' = Map_set (Uuid (uuids s)) r (humanRequests s)
        ∧ Map_get (Uuid (uuids s)) (humanRequests s') = Some r
        ∧ r_id r = Uuid (uuids s)
        ∧ r_status r = "Pending"
        ∧ r_response r = None
        ∧ r_agent_name r = "Unknown Agent"
        ∧ r_agent_id r = sockets s !! ws ≫= agentId
        ∧ r_agentWs r = Some ws
        ∧ sent out = (., HumanInputRequestEvent r) <$> observers s
  | None =>
      same_hub s s'
      ∧ sent out = []
      ∧ out = [Log (ReceivedMessage (HumanInputRequest None));
               Log FailedToParseMessage]
  end.
Proof.
  intros Hnone. simpl. destruct (is_open s ws); [|done].
  unfold onmessage, handleMessage, handleHumanInputRequest. simpl.
  unfold agent_of in *. simpl. rewrite Hnone.
  destruct data as [data|]; intros [= <- <-].
  - eexists. split_and!; try done.
    + simpl. apply Map_get_set_eq.
    + simpl. rewrite app_nil_r, sent_broadcastToGUIs. done.
  - by repeat split.
Qed.

Lemma request_without_agent_witness :
  agent_of (after one_observer) 0 = None
  ∧ (∃ s' out r,
       step (after one_observer)
         (Message 0 "t1" (HumanInputRequest (Some approval)))
       = Some (s', out)
       ∧ Map_get (Uuid 0) (humanRequests s') = Some r
       ∧ r_agent_name r = "Unknown Agent"
       ∧ sent out = [(1, HumanInputRequestEvent r)])
  ∧ (∃ s' out,
       step (after one_observer) (Message 0 "t1" (HumanInputRequest None))
       = Some (s', out)
       ∧ humanRequests s' = []
       ∧ sent out = []).
Proof.
  split; [reflexivity|]. split.
  - destruct (step (after one_observer)
                (Message 0 "t1" (HumanInputRequest (Some approval))))
      as [[s' out]|] eqn:Hstep; [|by vm_compute in Hstep].
    destruct (request_without_agent (after one_observer) 0 "t1"
                (Some approval) s' out eq_refl Hstep)
      as (r & _ & Hget & _ & _ & _ & Hname & _ & _ & Hsent).
    exists s', out, r. split_and!; [reflexivity|exact Hget|exact Hname|].
    rewrite Hsent. reflexivity.
  - destruct (step (after one_observer)
                (Message 0 "t1" (HumanInputRequest None)))
      as [[s' out]|] eqn:Hstep; [|by vm_compute in Hstep].
    destruct (request_without_agent (after one_observer) 0 "t1"
                None s' out eq_refl Hstep)
      as ((_ & Hledger & _) & Hsent & _).
    exists s', out. split_and!; [reflexivity| |exact Hsent].
    rewrite Hledger. reflexivity.
Defined.

End Submit.

(** ** Messages and roles *)

Section Dispatch.
Import Hub Spec Stated Examples.

(** C2, as stated, fails: a [human-input-request] sent by an observer
    connection is not dropped: the hub stores a request and sends it to
    the observers. *)
Lemma observer_request_is_handled : ¬ wrong_role_dropped.
Proof.
  intros Hclaim.
  destruct (run init one_observer) as [[s out0]|] eqn:Hrun; [|done].
  assert (reachable s) as Hs by by eapply after_reachable.
  vm_compute in Hrun. injection Hrun as <- _.
  destruct (step (after one_observer)
              (Message 1 "t1" (HumanInputRequest (Some approval))))
    as [[s' out]|] eqn:Hstep; [|done].
  destruct (Hclaim (after one_observer) 1
              {| readyState := OPEN; clientType := Some "gui";
                 agentId := None |}
              "t1" (HumanInputRequest (Some approval)) s' out) as [Heq _];
    [done..|].
  vm_compute in Hstep. injection Hstep as <- _. discriminate Heq.
Qed.

Lemma untagged_lookup (l1 l2 : list socket) ws :
  untagged <$> l1 = untagged <$> l2 →
  untagged <$> l1 !! ws = untagged <$> l2 !! ws.
Proof. intros Hl. by rewrite <-!list_lookup_fmap, Hl. Qed.

Lemma untagged_is_open s1 s2 ws :
  untagged <$> sockets s1 = untagged <$> sockets s2 →
  is_open s1 ws = is_open s2 ws.
Proof.
  intros Hl%(untagged_lookup _ _ ws). unfold is_open.
  unfold untagged in Hl.
  destruct (sockets s1 !! ws) as [w1|], (sockets s2 !! ws) as [w2|];
    simpl in Hl; try done.
  assert (readyState w1 = readyState w2) as -> by congruence. done.
Qed.

Lemma untagged_agentId (l1 l2 : list socket) ws :
  untagged <$> l1 = untagged <$> l2 →
  l1 !! ws ≫= agentId = l2 !! ws ≫= agentId.
Proof.
  intros Hl%(untagged_lookup _ _ ws).
  unfold untagged in Hl.
  destruct (l1 !! ws) as [w1|], (l2 !! ws) as [w2|]; simpl in *; try done.
  congruence.
Qed.

Lemma untagged_alter (f : socket → socket)
    (h : ready_state * option ident → ready_state * option ident)
    (l1 l2 : list socket) ws :
  (∀ w, untagged (f w) = h (untagged w)) →
  untagged <$> l1 = untagged <$> l2 →
  untagged <$> alter f ws l1 = untagged <$> alter f ws l2.
Proof.
  intros Hf Hl.
  rewrite !(list_fmap_alter untagged f h) by (apply Forall_forall; auto).
  by rewrite Hl.
Qed.

Lemma sendToClient_view s1 s2 ws m :
  is_open s1 ws = is_open s2 ws → sendToClient s1 ws m = sendToClient s2 ws m.
Proof. unfold sendToClient. by intros ->. Qed.

Lemma replay_view {A} s1 s2 ws (f : A → event) (l : list A) :
  is_open s1 ws = is_open s2 ws →
  (x ← l; sendToClient s1 ws (f x)) = (x ← l; sendToClient s2 ws (f x)).
Proof.
  intros Hopen. induction l as [|x l IH]; [done|].
  rewrite !bind_cons, IH. f_equal. by apply sendToClient_view.
Qed.

Lemma broadcast_view s1 s2 m :
  guiClients s1 = guiClients s2 →
  untagged <$> sockets s1 = untagged <$> sockets s2 →
  broadcastToGUIs s1 m = broadcastToGUIs s2 m.
Proof.
  unfold broadcastToGUIs. intros -> Hl.
  induction (guiClients s2) as [|gui guis IH]; [done|].
  rewrite !bind_cons, IH. f_equal.
  by apply sendToClient_view, untagged_is_open.
Qed.

(** The switch of [handleMessage] reads no role. *)
Lemma handleMessage_roles s1 s2 ws now m :
  same_but_roles s1 s2 →
  (handleMessage ws now m s1).1.2 = (handleMessage ws now m s2).1.2
  ∧ (handleMessage ws now m s1).2 = (handleMessage ws now m s2).2
  ∧ same_but_roles (handleMessage ws now m s1).1.1
      (handleMessage ws now m s2).1.1.
Proof.
  intros (Ha & Hr & Hg & Hu & Hd & Hl).
  destruct s1 as [a1 r1 g1 l1 u1 d1], s2 as [a2 r2 g2 l2 u2 d2].
  simpl in *. subst a2 r2 g2 u2 d2.
  unfold handleMessage.
  destruct m as [|data|data|requestId response|data|type].
  - set (tag := λ w, {| readyState := readyState w; clientType := Some "gui";
                        agentId := agentId w |}).
    assert (untagged <$> alter tag ws l1 = untagged <$> alter tag ws l2)
      as Hl'.
    { by apply (untagged_alter tag id). }
    unfold registerGUI, returns. cbn [fst snd]. split_and!.
    + f_equal. f_equal. f_equal; apply replay_view;
        by apply untagged_is_open.
    + done.
    + by repeat split.
  - destruct data as [data|]; [|by repeat split].
    set (agent := {| a_id := Uuid u1;
                     a_name := js_or (ad_name data) "Unknown Agent";
                     a_status := "Connected"; a_timestamp := now;
                     a_more := ∅ |}).
    set (tag := λ w, {| readyState := readyState w;
                        clientType := Some "agent";
                        agentId := Some (Uuid u1) |}).
    assert (untagged <$> alter tag ws l1 = untagged <$> alter tag ws l2)
      as Hl'.
    { by apply (untagged_alter tag (λ p, (p.1, Some (Uuid u1)))). }
    unfold registerAgent. cbn [fst snd uuidv4 uuids agents sockets
      guiClients humanRequests demo]. split_and!.
    + f_equal. f_equal. by apply broadcast_view.
    + done.
    + by repeat split.
  - destruct data as [data|]; [|by repeat split].
    unfold handleHumanInputRequest, agent_of.
    cbn [fst snd uuidv4 uuids agents sockets guiClients humanRequests demo].
    rewrite (untagged_agentId l1 l2 ws Hl). split_and!.
    + f_equal. f_equal. by apply broadcast_view.
    + done.
    + by repeat split.
  - unfold handleHumanInputResponse, returns.
    cbn [fst snd uuids agents sockets guiClients humanRequests demo].
    destruct (requestId ≫= λ id, (id,.) <$> Map_get id r1) as [[id r]|];
      cbn [fst snd]; [|by repeat split].
    split_and!; [|done|by repeat split].
    f_equal. f_equal. f_equal.
    + destruct (r_agentWs (complete response r)) as [agentWs|]; [|done].
      rewrite (untagged_is_open _
                 {| agents := a1;
                    humanRequests := Map_set id (complete response r) r1;
                    guiClients := g1; sockets := l2; uuids := u1;
                    demo := d1 |} agentWs) by done.
      destruct (is_open _ agentWs); [|done].
      by apply sendToClient_view, untagged_is_open.
    + by apply broadcast_view.
  - unfold handleAgentUpdate, returns.
    cbn [fst snd uuids agents sockets guiClients humanRequests demo].
    rewrite (untagged_agentId l1 l2 ws Hl).
    destruct (l2 !! ws ≫= agentId) as [id|]; [|by repeat split].
    destruct (Map_get id a1) as [a|]; [|by repeat split].
    cbn [fst snd]. split_and!; [|done|by repeat split].
    f_equal. by apply broadcast_view.
  - by repeat split.
Qed.

(** C2 (amended): the hub dispatches on the type of a message alone,
    whatever the role of the connection: two hubs that differ at most in
    the roles on their sockets handle a message alike.  It logs and drops,
    leaving the hub as it was and sending nothing to any connection, a
    message whose type is none of the five it knows; an [agent-update] from
    a connection without an Agent record, of which it logs the receipt
    only; a [human-input-response] whose request id is missing or not in
    the ledger; and a [register-agent] or a [human-input-request] without
    a [data] payload, on which the handler throws and the listener logs
    the error. *)
Theorem dropped_messages s ws now :
  (∀ m s2,
     same_but_roles s s2 →
     (handleMessage ws now m s).1.2 = (handleMessage ws now m s2).1.2
     ∧ (handleMessage ws now m s).2 = (handleMessage ws now m s2).2
     ∧ same_but_roles (handleMessage ws now m s).1.1
         (handleMessage ws now m s2).1.1)
  ∧ (∀ type,
       onmessage ws now (OtherMessage type) s
       = (s, [Log (ReceivedMessage (OtherMessage type));
              Log (UnknownMessageType type)]))
  ∧ (∀ patch,
       agent_of s ws = None →
       onmessage ws now (AgentUpdate patch) s
       = (s, [Log (ReceivedMessage (AgentUpdate patch))]))
  ∧ (∀ requestId response,
       requestId ≫= (λ id, Map_get id (humanRequests s)) = None →
       onmessage ws now (HumanInputResponse requestId response) s
       = (s, [Log (ReceivedMessage (HumanInputResponse requestId response));
              Log (RequestNotFound requestId)]))
  ∧ (∀ s' out,
       onmessage ws now (RegisterAgent None) s = (s', out) →
       same_hub s s'
       ∧ out = [Log (ReceivedMessage (RegisterAgent None));
                Log FailedToParseMessage])
  ∧ (∀ s' out,
       onmessage ws now (HumanInputRequest None) s = (s', out) →
       same_hub s s'
       ∧ out = [Log (ReceivedMessage (HumanInputRequest None));
                Log FailedToParseMessage]).
Proof.
  split_and!.
  - intros m s2. apply handleMessage_roles.
  - done.
  - intros patch Hnone. unfold onmessage, handleMessage, handleAgentUpdate.
    unfold agent_of in Hnone.
    destruct (sockets s !! ws ≫= agentId) as [id|]; [|done].
    by rewrite Hnone.
  - intros requestId response Hnone.
    unfold onmessage, handleMessage, handleHumanInputResponse.
    destruct requestId as [id|]; simpl in *; [|done].
    by rewrite Hnone.
  - intros s' out [= <- <-]. by repeat split.
  - intros s' out [= <- <-]. by repeat split.
Qed.

Lemma dropped_messages_witness :
  agent_of (after one_observer) 1 = None
  ∧ Map_get (Named "no-such-request") (humanRequests (after one_observer))
    = None
  ∧ onmessage 1 "t1"
      (AgentUpdate (Some {| p_id := None; p_name := Some "x";
                            p_status := None; p_timestamp := None;
                            p_more := ∅ |}))
      (after one_observer)
    = (after one_observer,
       [Log (ReceivedMessage
               (AgentUpdate (Some {| p_id := None; p_name := Some "x";
                                     p_status := None; p_timestamp := None;
                                     p_more := ∅ |})))])
  ∧ onmessage 1 "t1"
      (HumanInputResponse (Some (Named "no-such-request")) (Some "ok"))
      (after one_observer)
    = (after one_observer,
       [Log (ReceivedMessage
               (HumanInputResponse (Some (Named "no-such-request"))
                  (Some "ok")));
        Log (RequestNotFound (Some (Named "no-such-request")))])
  ∧ (onmessage 1 "t1" (RegisterAgent None) (after one_observer)).2
    = [Log (ReceivedMessage (RegisterAgent None)); Log FailedToParseMessage]
  ∧ sockets (onmessage 1 "t1" (RegisterAgent None) (after one_observer)).1
    = sockets (after one_observer).
Proof.
  destruct (dropped_messages (after one_observer) 1 "t1")
    as (_ & _ & Hupdate & Hresponse & Hregister & _).
  destruct (Hregister _ _ eq_refl) as [(_ & _ & _ & Hsock & _) Hout].
  split_and!.
  - reflexivity.
  - reflexivity.
  - apply Hupdate. reflexivity.
  - apply Hresponse. reflexivity.
  - exact Hout.
  - exact Hsock.
Defined.

End Dispatch.

(** ** The life of a request *)

Section Lifecycle.
Import Hub Spec Stated Examples.

Lemma handleDisconnection_ledger ws s s' out :
  handleDisconnection ws s = (s', out) →
  humanRequests s' = humanRequests s ∧ uuids s' = uuids s ∧ demo s' = demo s.
Proof.
  unfold handleDisconnection. intros Hd.
  repeat case_match; simplify_eq; done.
Qed.

Lemma onmessage_ledger ws now m s s' out :
  onmessage ws now m s = (s', out) → ledger_step s s'.
Proof.
  unfold onmessage, handleMessage.
  destruct m as [|data|data|requestId response|data|type].
  - intros [= <- _]. by apply ledger_same.
  - destruct data as [data|]; intros [= <- _];
      apply ledger_same; simpl; [done|lia|done|done|lia|done].
  - destruct data as [data|]; intros [= <- _].
    + by eapply ledger_created.
    + apply ledger_same; simpl; [done|lia|done].
  - unfold handleHumanInputResponse.
    destruct requestId as [id|]; simpl;
      [|intros [= <- _]; by apply ledger_same].
    destruct (Map_get id (humanRequests s)) as [r|] eqn:Hr; simpl.
    + intros [= <- _]. by eapply ledger_completed.
    + intros [= <- _]. by apply ledger_same.
  - unfold handleAgentUpdate, returns. intros Hm.
    repeat case_match; simplify_eq; by apply ledger_same.
  - intros [= <- _]. by apply ledger_same.
Qed.

Lemma step_ledger s e s' out : step s e = Some (s', out) → ledger_step s s'.
Proof.
  destruct e as [|ws now m|ws|ws|now|now]; simpl.
  - intros [= <- _]. by apply ledger_same.
  - destruct (is_open s ws); [|done]. intros [= Hm].
    by eapply onmessage_ledger.
  - destruct (is_open s ws); [|done]. intros [= <- _]. by apply ledger_same.
  - destruct (sockets s !! ws) as [w|]; [|done].
    destruct (decide (readyState w = CLOSED)); [done|].
    destruct (handleDisconnection ws _) as [s1 out1] eqn:Hd.
    intros [= <- _]. apply handleDisconnection_ledger in Hd as (? & ? & ?).
    simpl in *. apply ledger_same; [done|lia|congruence].
  - destruct (demo s) eqn:Hdemo; [|done..]. intros [= <- _].
    apply ledger_same; [done..|]. by rewrite Hdemo.
  - destruct (demo s) as [|a|] eqn:Hdemo; [done| |done]. intros [= <- _].
    by eapply ledger_demo.
Qed.

Lemma complete_ok response r : request_ok (complete response r).
Proof. by right. Qed.

Lemma ledger_inv_step s s' : ledger_inv s → ledger_step s s' → ledger_inv s'.
Proof.
  intros [Hok Hfresh Hnamed] [Hl Hu Hd|r Hl Hp Hr Hu Hd
                             |id r response Hid Hl Hu Hd|a now Ha Hd Hl Hu].
  - split; rewrite Hl.
    + done.
    + intros n r Hn. apply Hfresh in Hn. lia.
    + intros x r Hx. eauto.
  - split; rewrite Hl.
    + intros id r0. destruct (decide (Uuid (uuids s) = id)) as [<-|Hne].
      * rewrite Map_get_set_eq. intros [= <-]. by left.
      * rewrite Map_get_set_ne by done. apply Hok.
    + intros n r0. rewrite Hu.
      destruct (decide (Uuid (uuids s) = Uuid n)) as [[= <-]|Hne]; [lia|].
      rewrite Map_get_set_ne by done. intros Hn%Hfresh. lia.
    + intros x r0. rewrite Map_get_set_ne by done. rewrite Hd. apply Hnamed.
  - split; rewrite Hl.
    + intros id0 r0. destruct (decide (id = id0)) as [<-|Hne].
      * rewrite Map_get_set_eq. intros [= <-]. apply complete_ok.
      * rewrite Map_get_set_ne by done. apply Hok.
    + intros n r0. rewrite Hu. destruct (decide (id = Uuid n)) as [->|Hne].
      * intros _. by eapply Hfresh.
      * rewrite Map_get_set_ne by done. apply Hfresh.
    + intros x r0. rewrite Hd. destruct (decide (id = Named x)) as [->|Hne].
      * intros _. by eapply Hnamed.
      * rewrite Map_get_set_ne by done. apply Hnamed.
  - split; rewrite Hl.
    + intros id r0.
      destruct (decide (Named "demo-request-001" = id)) as [<-|Hne].
      * rewrite Map_get_set_eq. intros [= <-]. by left.
      * rewrite Map_get_set_ne by done. apply Hok.
    + intros n r0. rewrite Hu, Map_get_set_ne by done. apply Hfresh.
    + done.
Qed.

Lemma ledger_inv_reachable s : reachable s → ledger_inv s.
Proof.
  induction 1 as [|s e s' out _ IH Hstep].
  - split; done.
  - eapply ledger_inv_step; [done|]. by eapply step_ledger.
Qed.

(** A turn that is not a response without text keeps every request
    pending with no response, or completed with one. *)
Lemma step_answered s e s' out :
  carries_response e →
  step s e = Some (s', out) →
  (∀ id r, Map_get id (humanRequests s) = Some r → request_answered r) →
  ∀ id r, Map_get id (humanRequests s') = Some r → request_answered r.
Proof.
  intros He Hstep Hs.
  assert (∀ (l : list (ident * request)) k v,
            (∀ id r, Map_get id l = Some r → request_answered r) →
            request_answered v →
            ∀ id r, Map_get id (Map_set k v l) = Some r → request_answered r)
    as Hset.
  { intros l k v Hl Hv id r. destruct (decide (k = id)) as [<-|Hne].
    - rewrite Map_get_set_eq. by intros [= <-].
    - rewrite Map_get_set_ne by done. apply Hl. }
  destruct e as [|ws now m|ws|ws|now|now]; simpl in Hstep.
  - by simplify_eq.
  - destruct (is_open s ws); [|done]. injection Hstep as Hm.
    unfold onmessage, handleMessage in Hm.
    destruct m as [|data|data|requestId response|data|type].
    + by injection Hm as <- _.
    + destruct data; by injection Hm as <- _.
    + destruct data as [data|]; injection Hm as <- _; [|done].
      simpl. apply Hset; [done|]. by left.
    + destruct response as [response|]; [|done].
      unfold handleHumanInputResponse in Hm.
      destruct requestId as [id0|]; simpl in Hm;
        [|by injection Hm as <- _].
      destruct (Map_get id0 (humanRequests s)) as [r0|]; simpl in Hm;
        injection Hm as <- _; [|done].
      simpl. apply Hset; [done|]. right. simpl. eauto.
    + unfold handleAgentUpdate, returns in Hm.
      repeat case_match; by simplify_eq.
    + by injection Hm as <- _.
  - destruct (is_open s ws); by simplify_eq.
  - destruct (sockets s !! ws) as [w|]; [|done].
    destruct (decide (readyState w = CLOSED)); [done|].
    destruct (handleDisconnection ws _) as [s1 out1] eqn:Hd. simplify_eq.
    apply handleDisconnection_ledger in Hd as (-> & _ & _). done.
  - destruct (demo s); by simplify_eq.
  - destruct (demo s) as [|a|]; simplify_eq.
    simpl. apply Hset; [done|]. by left.
Qed.

Lemma run_answered s es s' out :
  Forall carries_response es →
  run s es = Some (s', out) →
  (∀ id r, Map_get id (humanRequests s) = Some r → request_answered r) →
  ∀ id r, Map_get id (humanRequests s') = Some r → request_answered r.
Proof.
  intros Hes. revert s out.
  induction Hes as [|e es He _ IH]; simpl; intros s out Hrun Hs.
  - by simplify_eq.
  - destruct (step s e) as [[s1 out1]|] eqn:Hstep; [|done].
    destruct (run s1 es) as [[s2 out2]|] eqn:Hrest; [|done]. simplify_eq.
    eapply IH; [done|]. by eapply step_answered.
Qed.

(** C4, as stated, fails: a [human-input-response] that carries no
    [response] completes the request and stores no response. *)
Lemma completed_without_response : ¬ response_iff_completed.
Proof.
  intros Hclaim.
  destruct (Map_get (Uuid 0) (humanRequests (after unanswered)))
    as [r|] eqn:Hr; [|by vm_compute in Hr].
  destruct (Hclaim (after unanswered) (Uuid 0) r (reachable_after _) Hr)
    as [_ Hset].
  vm_compute in Hr. injection Hr as <-.
  by destruct (Hset eq_refl).
Qed.

(** C4 (amended): in every state the hub reaches, a request of the ledger
    is Pending or Completed, and a Pending request has no response.  A
    Completed request holds the [response] field of the message that
    completed it last, which is missing when that message carried none: if
    every [human-input-response] message of the run carries a response,
    every Completed request has one.  Over any turn of the event loop a
    request of the ledger stays in it, with its status either unchanged or
    moved from Pending to Completed, so that a Completed request stays
    Completed. *)
Theorem request_lifecycle es s out :
  run init es = Some (s, out) →
  (∀ id r,
     Map_get id (humanRequests s) = Some r →
     (r_status r = "Pending" ∨ r_status r = "Completed")
     ∧ (r_status r = "Pending" → r_response r = None)
     ∧ (Forall carries_response es →
        is_Some (r_response r) ↔ r_status r = "Completed"))
  ∧ (∀ ws now requestId response s' out' r,
       step s (Message ws now (HumanInputResponse (Some requestId) response))
       = Some (s', out') →
       Map_get requestId (humanRequests s) = Some r →
       Map_get requestId (humanRequests s') = Some (complete response r))
  ∧ (∀ e s' out' id r,
       step s e = Some (s', out') →
       Map_get id (humanRequests s) = Some r →
       ∃ r',
         Map_get id (humanRequests s') = Some r'
         ∧ (r_status r' = r_status r
            ∨ (r_status r = "Pending" ∧ r_status r' = "Completed"))
         ∧ (r_status r = "Completed" → r_status r' = "Completed")).
Proof.
  intros Hrun.
  assert (reachable s) as Hs by by eapply after_reachable.
  destruct (ledger_inv_reachable s Hs) as [Hok Hfresh Hnamed]. split_and!.
  - intros id r Hr. split_and!.
    + destruct (Hok _ _ Hr) as [[Hp _]|Hc]; auto.
    + intros Hp. destruct (Hok _ _ Hr) as [[_ Hn]|Hc]; [done|congruence].
    + intros Hes.
      destruct (run_answered init es s out Hes Hrun) with (id := id) (r := r)
        as [[Hp Hn]|[Hc Hsome]]; [done|done|..].
      * rewrite Hp, Hn. split; [by intros [? ?]|done].
      * done.
  - intros ws now requestId response s' out' r Hstep Hr. simpl in Hstep.
    destruct (is_open s ws); [|done]. injection Hstep as Hm.
    unfold onmessage, handleMessage, handleHumanInputResponse in Hm.
    simpl in Hm. rewrite Hr in Hm. simpl in Hm. injection Hm as <- _.
    simpl. apply Map_get_set_eq.
  - intros e s' out' id r Hstep Hid.
    destruct (step_ledger _ _ _ _ Hstep)
      as [Hl Hu Hd|r0 Hl Hp Hr Hu Hd|id0 r0 response Hid0 Hl Hu Hd
         |a now Ha Hd Hl Hu]; rewrite Hl.
    + exists r. auto.
    + exists r. rewrite Map_get_set_ne; [auto|].
      intros <-. apply Hfresh in Hid. lia.
    + destruct (decide (id0 = id)) as [->|Hne].
      * exists (complete response r0). rewrite Map_get_set_eq.
        simplify_eq. split_and!; [done| |done].
        destruct (Hok _ _ Hid) as [[Hp _]|Hc]; [by right|by left].
      * exists r. rewrite Map_get_set_ne by done. auto.
    + exists r. rewrite Map_get_set_ne; [auto|].
      intros <-. apply Hnamed in Hid. congruence.
Qed.

Lemma request_lifecycle_witness :
  (∃ s out,
     run init resolved = Some (s, out)
     ∧ Forall carries_response resolved
     ∧ (r_status <$> Map_get (Uuid 1) (humanRequests s)) = Some "Completed"
     ∧ ∀ r, Map_get (Uuid 1) (humanRequests s) = Some r →
            is_Some (r_response r) ↔ r_status r = "Completed")
  ∧ (∃ s out,
       run init unanswered = Some (s, out)
       ∧ ¬ Forall carries_response unanswered
       ∧ ∀ r, Map_get (Uuid 0) (humanRequests s) = Some r →
              r_status r = "Pending" ∨ r_status r = "Completed").
Proof.
  split.
  - destruct (run init resolved) as [[s out]|] eqn:Hrun;
      [|by vm_compute in Hrun].
    assert (Forall carries_response resolved) as Hes.
    { repeat (apply Forall_cons; split; [exact I|]). apply Forall_nil_2. }
    exists s, out. split_and!; [reflexivity|exact Hes| |].
    + vm_compute in Hrun. by injection Hrun as <- _.
    + intros r Hr.
      exact (proj2 (proj2 (proj1 (request_lifecycle resolved s out Hrun)
                             (Uuid 1) r Hr)) Hes).
  - destruct (run init unanswered) as [[s out]|] eqn:Hrun;
      [|by vm_compute in Hrun].
    exists s, out. split_and!; [reflexivity| |].
    + intros Hes. unfold unanswered in Hes.
      do 4 apply Forall_cons in Hes as [_ Hes].
      by apply Forall_cons in Hes as [Hes _].
    + intros r Hr.
      exact (proj1 (proj1 (request_lifecycle unanswered s out Hrun)
                      (Uuid 0) r Hr)).
Defined.

End Lifecycle.

(** ** Registration of an observer *)

Section Replay.
Import Hub Spec Examples.

Lemma sent_to_replay {A} s ws (f : A → event) (l : list A) :
  is_open s ws = true →
  sent_to ws (x ← l; sendToClient s ws (f x)) = f <$> l.
Proof.
  intros Hopen. induction l as [|x l IH]; [done|].
  rewrite bind_cons, sent_to_app, IH. unfold sendToClient. rewrite Hopen.
  simpl. by rewrite decide_True.
Qed.

Lemma request_events_app l1 l2 :
  request_events (l1 ++ l2) = request_events l1 ++ request_events l2.
Proof. apply omap_app. Qed.

Lemma request_events_agents (l : list agent) :
  request_events (AgentConnected <$> l) = [].
Proof. by induction l. Qed.

Lemma request_events_requests (l : list request) :
  request_events (HumanInputRequestEvent <$> l) = l.
Proof. induction l as [|r l IH]; [done|]. simpl. f_equal. apply IH. Qed.

(** Tagging a socket leaves it as open as it was. *)
Lemma is_open_tag s ws ws' (f : socket → socket) guis :
  (∀ w, readyState (f w) = readyState w) →
  is_open (set_guiClients guis (set_sockets (alter f ws (sockets s)) s)) ws'
  = is_open s ws'.
Proof.
  intros Hf. unfold is_open. simpl.
  destruct (decide (ws = ws')) as [->|Hne].
  - rewrite list_lookup_alter_eq.
    destruct (sockets s !! ws') as [w|]; simpl; [|done].
    by rewrite Hf.
  - by rewrite list_lookup_alter_ne.
Qed.

Lemma elem_of_Set_add {A} `{EqDecision A} (x : A) (l : list A) :
  x ∈ Set_add x l.
Proof.
  unfold Set_add. case_decide; [done|].
  apply elem_of_app. right. apply list_elem_of_here.
Qed.

(** C7: when an observer registers, the hub writes to its socket one
    [agent-connected] frame for each agent it holds and then one
    [human-input-request] frame for each of the K requests of the ledger,
    and nothing else to anybody; the connection joins the observers, and
    whatever the hub sends it in later turns comes after these frames. *)
Theorem replay_on_register s ws now s' out :
  step s (Message ws now RegisterGui) = Some (s', out) →
  sent out
  = ((λ a, (ws, AgentConnected a)) <$> Map_values (agents s))
    ++ ((λ r, (ws, HumanInputRequestEvent r))
          <$> Map_values (humanRequests s))
  ∧ sent_to ws out
    = (AgentConnected <$> Map_values (agents s))
      ++ (HumanInputRequestEvent <$> Map_values (humanRequests s))
  ∧ request_events (sent_to ws out) = Map_values (humanRequests s)
  ∧ length (request_events (sent_to ws out)) = length (humanRequests s)
  ∧ ws ∈ guiClients s'
  ∧ agents s' = agents s
  ∧ humanRequests s' = humanRequests s
  ∧ ∀ es s'' live,
      run s' es = Some (s'', live) →
      run s (Message ws now RegisterGui :: es) = Some (s'', out ++ live)
      ∧ sent_to ws (out ++ live) = sent_to ws out ++ sent_to ws live.
Proof.
  intros Hstep.
  assert (is_open s ws = true ∧ onmessage ws now RegisterGui s = (s', out))
    as [Hopen Hm].
  { simpl in Hstep. destruct (is_open s ws); [|done]. by simplify_eq. }
  unfold onmessage, handleMessage, registerGUI, returns in Hm.
  cbn [fst snd] in Hm. rewrite app_nil_r in Hm.
  assert (sent_to ws out
          = (AgentConnected <$> Map_values (agents s))
            ++ (HumanInputRequestEvent <$> Map_values (humanRequests s)))
    as Hto.
  { injection Hm as <- <-.
    simpl. rewrite sent_to_app, !sent_to_replay; [done|by rewrite is_open_tag..]. }
  split_and!.
  - injection Hm as <- <-.
    simpl. rewrite sent_app, !sent_replay; [done|by rewrite is_open_tag..].
  - done.
  - by rewrite Hto, request_events_app, request_events_agents,
      request_events_requests.
  - rewrite Hto, request_events_app, request_events_agents,
      request_events_requests. unfold Map_values. simpl.
    by rewrite length_fmap.
  - injection Hm as <- _.
    simpl. apply elem_of_Set_add.
  - by injection Hm as <- _.
  - by injection Hm as <- _.
  - intros es s'' live Hrun. split.
    + cbn [run]. by rewrite Hstep, Hrun.
    + apply sent_to_app.
Qed.

Lemma replay_on_register_witness :
  length (humanRequests (after two_requests)) = 2
  ∧ ∃ s' out,
      step (after two_requests) (Message 1 "t5" RegisterGui) = Some (s', out)
      ∧ length (request_events (sent_to 1 out)) = 2.
Proof.
  split; [reflexivity|].
  destruct (step (after two_requests) (Message 1 "t5" RegisterGui))
    as [[s' out]|] eqn:Hstep; [|by vm_compute in Hstep].
  exists s', out. split; [reflexivity|].
  destruct (replay_on_register _ _ _ _ _ Hstep) as (_ & _ & _ & Hlen & _).
  rewrite Hlen. reflexivity.
Defined.

End Replay.

(** ** Resolution of a request *)

Section Resolve.
Import Hub Spec Examples.

Lemma ledger_keys_distinct s : reachable s → NoDup (humanRequests s).*1.
Proof.
  induction 1 as [|s e s' out _ IH Hstep]; [apply NoDup_nil_2|].
  destruct (step_ledger _ _ _ _ Hstep) as [Hl|r Hl|id r response _ Hl|a now _ _ Hl];
    rewrite Hl; auto using Map_set_keys_NoDup.
Qed.

(** X6: what [handleHumanInputResponse] does on the hub when the request is in
    the ledger: the request is completed where it stands and holds the
    response; a [human-input-response] frame goes to the socket the request
    came from exactly when that socket is open; and the completed request
    goes to every registered observer whose socket is open. *)
Lemma resolve_on_hub s requestId response r s' out :
  Map_get requestId (humanRequests s) = Some r →
  handleHumanInputResponse (Some requestId) response s = (s', out) →
  humanRequests s' = Map_set requestId (complete response r) (humanRequests s)
  ∧ Map_get requestId (humanRequests s') = Some (complete response r)
  ∧ r_status (complete response r) = "Completed"
  ∧ r_response (complete response r) = response
  ∧ agents s' = agents s
  ∧ guiClients s' = guiClients s
  ∧ sockets s' = sockets s
  ∧ sent out
    = match r_agentWs r with
      | Some agentWs =>
          if is_open s agentWs
          then [(agentWs, HumanInputResponseEvent requestId response)]
          else []
      | None => []
      end
      ++ ((., HumanInputRequestEvent (complete response r)) <$> observers s).
Proof.
  intros Hr. unfold handleHumanInputResponse. simpl. rewrite Hr.
  intros [= <- <-].
  split_and!; try done.
  - simpl. apply Map_get_set_eq.
  - simpl. rewrite sent_app, sent_broadcastToGUIs. f_equal.
    destruct (r_agentWs r) as [agentWs|]; [|done].
    change (is_open (set_humanRequests _ s) agentWs) with (is_open s agentWs).
    destruct (is_open s agentWs) eqn:Hopen; [|done].
    rewrite sent_sendToClient.
    change (is_open (set_humanRequests _ s) agentWs) with (is_open s agentWs).
    by rewrite Hopen.
Qed.

(** C3, at the failing input: an agent's request is pending and listed by
    two dashboards; the first resolves it with "Yes".  The hub completes
    the request, answers the agent and sends the completed request to both
    dashboards; the second dashboard, which already lists the id, handles
    the frame and is left as it was, showing the request as Pending and
    without the response. *)
Theorem resolution_not_shown :
  ∃ h out h' out' r,
    run init two_observers_pending = Some (h, out)
    ∧ step h (Message 1 "t3" (HumanInputResponse (Some (Uuid 1)) (Some "Yes")))
      = Some (h', out')
    ∧ Map_get (Uuid 1) (humanRequests h') = Some r
    ∧ r_status r = "Completed"
    ∧ r_response r = Some "Yes"
    ∧ sent out'
      = [(0, HumanInputResponseEvent (Uuid 1) (Some "Yes"));
         (1, HumanInputRequestEvent r); (2, HumanInputRequestEvent r)]
    ∧ let page := System.deliver noon 2 out connected_page in
      (λ r, (r_id r, r_status r, r_response r)) <$> App.humanRequests page
      = [(Uuid 1, "Pending", None)]
      ∧ System.deliver noon 2 out' page = page.
Proof.
  eexists _, _, _, _, _. split_and!.
  - vm_compute. reflexivity.
  - vm_compute. reflexivity.
  - vm_compute. reflexivity.
  - reflexivity.
  - reflexivity.
  - vm_compute. reflexivity.
  - vm_compute. split; reflexivity.
Qed.

End Resolve.

(** ** The dashboard's local lists *)

Section Page.
Import App Examples.
Implicit Types (s : app) (t : clock).

Lemma page_run_reachable s es s' :
  reachable s → run s es = Some s' → reachable s'.
Proof.
  revert s. induction es as [|e es IH]; simpl; intros s Hs Hrun.
  - by simplify_eq.
  - destruct (step s e) as [s1|] eqn:Hstep; [|done].
    eapply IH; [|done]. by eapply reachable_step.
Qed.

Lemma connected_page_reachable : reachable connected_page.
Proof. apply reachable_init. Qed.

Lemma reachable_page_after es : reachable (page_after es).
Proof.
  unfold page_after. destruct (run connected_page es) as [s|] eqn:Hrun; simpl.
  - eapply page_run_reachable; [apply connected_page_reachable|done].
  - apply connected_page_reachable.
Qed.

(** C10: a [human-input-request] frame whose id the page already lists
    leaves the page as it was, so that none of the fields of the frame (a
    new status, a response) reaches the listed request; and so does an
    [agent-connected] frame whose id the page already lists. *)
Theorem known_id_ignored t s :
  (∀ r, r_id r ∈ r_id <$> humanRequests s →
        handleWebSocketMessage t (HumanInputRequestEvent r) s = s)
  ∧ (∀ a, a_id a ∈ a_id <$> agents s →
          handleWebSocketMessage t (AgentConnected a) s = s).
Proof.
  split.
  - intros r [r0 Hr0]%find_by_elem. simpl. unfold addRequest. by rewrite Hr0.
  - intros a [a0 Ha0]%find_by_elem. simpl. unfold addAgent. by rewrite Ha0.
Qed.

Lemma known_id_ignored_witness :
  r_id answered ∈ r_id <$> humanRequests listing_page
  ∧ a_id renamed ∈ a_id <$> agents listing_page
  ∧ handleWebSocketMessage noon (HumanInputRequestEvent answered) listing_page
    = listing_page
  ∧ handleWebSocketMessage noon (AgentConnected renamed) listing_page
    = listing_page
  ∧ r_status <$> humanRequests listing_page = ["Pending"].
Proof.
  assert (r_id answered ∈ r_id <$> humanRequests listing_page) as Hr.
  { vm_compute. constructor. }
  assert (a_id renamed ∈ a_id <$> agents listing_page) as Ha.
  { vm_compute. constructor. }
  split_and!; [exact Hr|exact Ha| | |reflexivity].
  - exact (proj1 (known_id_ignored noon listing_page) answered Hr).
  - exact (proj2 (known_id_ignored noon listing_page) renamed Ha).
Defined.

(** *** Content *)

Lemma generated_id_truthy (a b : string) :
  truthy (Some (a +:+ "-" +:+ b)) = true.
Proof. by destruct a. Qed.

Lemma scan_contentItems attempt ports prev s :
  contentItems (scan attempt ports prev s) = contentItems s.
Proof.
  revert prev s. induction ports as [|p ports IH]; intros prev s; simpl.
  - by destruct prev.
  - destruct (attempt p); [by destruct prev|rewrite IH; by destruct prev..].
Qed.

Lemma addContentItem_ids t item s :
  Spec.ids_truthy s → Spec.ids_truthy (addContentItem t item s).
Proof.
  unfold Spec.ids_truthy, addContentItem. intros Hs.
  destruct (find_by _ _ _); [done|]. simpl.
  apply Forall_app. split; [done|]. apply Forall_singleton.
  destruct (truthy (c_id item)) eqn:Hid; [done|]. apply generated_id_truthy.
Qed.

Lemma step_ids s e s' :
  step s e = Some s' → Spec.ids_truthy s → Spec.ids_truthy s'.
Proof.
  intros Hstep Hs. destruct e; simpl in Hstep.
  - case_decide; [|done]. simplify_eq. unfold Spec.ids_truthy, connectToWebSocket.
    by rewrite scan_contentItems.
  - destruct (socket_open _ _); by simplify_eq.
  - destruct (socket_open _ _); [|done]. simplify_eq.
    destruct data; simpl; auto using addContentItem_ids.
    + unfold addAgent. by destruct (find_by _ _ _).
    + unfold addRequest. by destruct (find_by _ _ _).
  - simplify_eq. unfold openResponseModal. by destruct (find_by _ _ _).
  - by simplify_eq.
  - simplify_eq. unfold submitResponse. by repeat case_match.
  - simplify_eq. unfold navigateContentPrevious. by case_decide.
  - simplify_eq. unfold navigateContentNext. by case_decide.
  - simplify_eq. unfold viewContentItem. by destruct (findIndex_by _ _ _).
  - simplify_eq. destruct confirm; [apply Forall_nil_2|done].
  - simplify_eq. by destruct confirm.
  - by simplify_eq.
  - by simplify_eq.
  - destruct (sockets s !! sock) as [w|]; [|done].
    case_decide; by simplify_eq.
Qed.

Lemma reachable_ids s : reachable s → Spec.ids_truthy s.
Proof.
  induction 1 as [attempt status|s e s' _ IH Hstep].
  - unfold Spec.ids_truthy, connectToWebSocket. rewrite scan_contentItems.
    apply Forall_nil_2.
  - by eapply step_ids.
Qed.

(** C8: on a page in any state it can reach, appending a content item
    whose id is already in the history leaves the page as it was: the
    history keeps its length, and the latest item and the position in the
    history are the ones before. *)
Theorem append_known_id t item s :
  reachable s →
  c_id item ∈ c_id <$> contentItems s →
  addContentItem t item s = s
  ∧ length (contentItems (addContentItem t item s)) = length (contentItems s)
  ∧ latestContent (addContentItem t item s) = latestContent s
  ∧ currentContentIndex (addContentItem t item s) = currentContentIndex s.
Proof.
  intros Hs Hin. assert (addContentItem t item s = s) as ->; [|done].
  assert (truthy (c_id item) = true) as Hid.
  { apply reachable_ids in Hs.
    apply list_elem_of_fmap in Hin as (c & -> & Hc).
    by eapply (proj1 (Forall_forall _ _) Hs). }
  unfold addContentItem. rewrite Hid.
  by destruct (find_by_elem c_id (c_id item) (contentItems s) Hin) as [c ->].
Qed.

Lemma append_known_id_witness :
  reachable (page_after browsing)
  ∧ c_id report ∈ c_id <$> contentItems (page_after browsing)
  ∧ length (contentItems (page_after browsing)) = 2
  ∧ currentContentIndex (page_after browsing) = 0%Z
  ∧ addContentItem noon report (page_after browsing) = page_after browsing.
Proof.
  assert (reachable (page_after browsing)) as Hs
    by apply reachable_page_after.
  assert (c_id report ∈ c_id <$> contentItems (page_after browsing)) as Hin.
  { vm_compute. constructor. }
  split_and!; [exact Hs|exact Hin|reflexivity|reflexivity|].
  exact (proj1 (append_known_id noon report (page_after browsing) Hs Hin)).
Defined.

End Page.

(** ** Clearing the requests *)

Section Clear.
Import Hub Spec Stated Examples.

(** C5, as stated, fails: after the user has cleared the requests and
    confirmed, the hub's ledger holds what it held. *)
Lemma clear_leaves_ledger : ¬ clear_empties_ledger.
Proof.
  intros Hclaim. specialize (Hclaim attached "t5" true).
  assert (reachable (System.hub attached)) as Hs
    by apply (reachable_after two_observers_pending).
  specialize (Hclaim Hs). vm_compute in Hclaim. discriminate Hclaim.
Qed.

(** The cleared request comes back: when the page of [attached] has
    cleared its list and later registers on a new connection, the hub
    replays its ledger and the page lists the request again. *)
Lemma cleared_request_returns :
  let cleared := System.user "t5" (App.clearHumanRequests true) attached in
  App.humanRequests (System.page cleared) = []
  ∧ ∃ h out,
      run (System.hub cleared) [Connection; Message 3 "t6" RegisterGui]
      = Some (h, out)
      ∧ r_id <$> App.humanRequests
                   (System.deliver noon 3 out (System.page cleared))
        = [Uuid 1].
Proof.
  split; [reflexivity|]. eexists _, _. split; vm_compute; reflexivity.
Qed.

(** C5 (amended): when the user confirms the prompt, clearing empties the
    page's own list of requests and forgets the request being answered; the
    page sends nothing, and the hub, ledger included, is as it was.  When
    the user declines the prompt nothing changes. *)
Theorem clear_is_local sys now :
  let cleared := System.user now (App.clearHumanRequests true) sys in
  App.humanRequests (System.page cleared) = []
  ∧ App.currentRequestId (System.page cleared) = None
  ∧ App.outbox (System.page cleared) = App.outbox (System.page sys)
  ∧ System.hub cleared = System.hub sys
  ∧ System.user now (App.clearHumanRequests false) sys = sys.
Proof.
  unfold System.user. simpl. rewrite drop_all. simpl. split_and!; try done.
  by destruct sys.
Qed.

End Clear.

(** ** Agents and their connections *)

Section Registry.
Import Hub Spec Stated Examples.

(** C6, as stated, fails: once the first demo timer has fired the hub holds
    an Agent record, and no connection exists at all. *)
Lemma demo_agent_has_no_connection : ¬ one_live_connection_per_agent.
Proof.
  intros Hclaim.
  specialize (Hclaim (after [DemoAgentTimer "t0"]) (Named "demo-agent-001")
                (demoAgent "t0")).
  assert (reachable (after [DemoAgentTimer "t0"])) as Hs
    by apply reachable_after.
  specialize (Hclaim Hs eq_refl). vm_compute in Hclaim. discriminate Hclaim.
Qed.

Lemma handleDisconnection_sockets ws s s' out :
  handleDisconnection ws s = (s', out) →
  sockets s' = sockets s ∧ demo s' = demo s.
Proof.
  unfold handleDisconnection. intros Hd.
  repeat case_match; simplify_eq; done.
Qed.

Lemma onmessage_sockets ws now m s s' out :
  Forall socket_ok (sockets s) →
  onmessage ws now m s = (s', out) →
  Forall socket_ok (sockets s') ∧ demo s' = demo s.
Proof.
  intros Hs. unfold onmessage, handleMessage.
  destruct m as [|data|data|requestId response|data|type].
  - intros [= <- _]. split; [|done]. simpl. apply Forall_alter; [done|].
    intros w _ Hw. unfold socket_ok in *. simpl.
    by destruct (agentId w).
  - destruct data as [data|]; intros [= <- _]; [|done].
    split; [|done]. simpl. apply Forall_alter; [done|].
    intros w _ _. unfold socket_ok. simpl. eauto.
  - destruct data; by intros [= <- _].
  - unfold handleHumanInputResponse, returns. intros Hm.
    repeat case_match; by simplify_eq.
  - unfold handleAgentUpdate, returns. intros Hm.
    repeat case_match; by simplify_eq.
  - by intros [= <- _].
Qed.

Lemma Map_get_delete_other {V} (k k' : ident) (m : list (ident * V)) :
  k ≠ k' → is_Some (Map_get k' m) → is_Some (Map_get k' (Map_delete k m)).
Proof. intros Hne. by rewrite Map_get_delete_ne. Qed.

Lemma Map_get_set_other {V} (k k' : ident) (v : V) (m : list (ident * V)) :
  is_Some (Map_get k' m) → is_Some (Map_get k' (Map_set k v m)).
Proof.
  destruct (decide (k = k')) as [->|Hne].
  - rewrite Map_get_set_eq. eauto.
  - by rewrite Map_get_set_ne.
Qed.

Lemma handleDisconnection_demo ws s s' out :
  Forall socket_ok (sockets s) →
  is_Some (Map_get (Named "demo-agent-001") (agents s)) →
  handleDisconnection ws s = (s', out) →
  is_Some (Map_get (Named "demo-agent-001") (agents s')).
Proof.
  intros Hs Hdemo. unfold handleDisconnection.
  destruct (sockets s !! ws) as [w|] eqn:Hw; [|by intros [= <- _]].
  destruct (decide _); [by intros [= <- _]|].
  destruct (_ && _); [|by intros [= <- _]].
  destruct (agentId w) as [id|] eqn:Hid; simpl; [|by intros [= <- _]].
  destruct (Map_get id (agents s)) as [a|]; simpl; [|by intros [= <- _]].
  intros [= <- _]. simpl. apply Map_get_delete_other; [|done].
  pose proof (Forall_lookup_1 _ _ _ _ Hs Hw) as Hok.
  unfold socket_ok in Hok. rewrite Hid in Hok. by destruct Hok as [k ->].
Qed.

Lemma onmessage_demo ws now m s s' out :
  is_Some (Map_get (Named "demo-agent-001") (agents s)) →
  onmessage ws now m s = (s', out) →
  is_Some (Map_get (Named "demo-agent-001") (agents s')).
Proof.
  intros Hdemo. unfold onmessage, handleMessage.
  destruct m as [|data|data|requestId response|data|type].
  - by intros [= <- _].
  - destruct data as [data|]; intros [= <- _]; [|done].
    simpl. by apply Map_get_set_other.
  - destruct data; by intros [= <- _].
  - unfold handleHumanInputResponse, returns. intros Hm.
    repeat case_match; by simplify_eq.
  - unfold handleAgentUpdate, returns. intros Hm.
    repeat case_match; simplify_eq; try done.
    simpl. by apply Map_get_set_other.
  - by intros [= <- _].
Qed.

Lemma registry_inv_step s e s' out :
  registry_inv s → step s e = Some (s', out) → registry_inv s'.
Proof.
  intros [Hs Hdemo]. destruct e as [|ws now m|ws|ws|now|now]; simpl.
  - intros [= <- _]. split; [|done]. simpl. apply Forall_app. split; [done|].
    apply Forall_singleton. by unfold socket_ok.
  - destruct (is_open s ws); [|done]. intros [= Hm].
    destruct (onmessage_sockets _ _ _ _ _ _ Hs Hm) as [Hs' Hd].
    split; [done|]. rewrite Hd. intros Hne.
    eapply onmessage_demo; [|done]. auto.
  - destruct (is_open s ws); [|done]. intros [= <- _]. split; [|done].
    simpl. apply Forall_alter; [done|]. by intros w _ Hw.
  - destruct (sockets s !! ws) as [w|]; [|done].
    destruct (decide (readyState w = CLOSED)); [done|].
    destruct (handleDisconnection ws _) as [s1 out1] eqn:Hd.
    intros [= <- _].
    assert (Forall socket_ok
              (alter (λ w, {| readyState := CLOSED;
                              clientType := clientType w;
                              agentId := agentId w |}) ws (sockets s)))
      as Hs1 by (apply Forall_alter; [done|]; by intros w0 _ Hw0).
    destruct (handleDisconnection_sockets _ _ _ _ Hd) as [Hs' Hd'].
    split; [by rewrite Hs'|]. rewrite Hd'. simpl. intros Hne.
    eapply handleDisconnection_demo; [| |done]; [done|]. simpl. auto.
  - destruct (demo s) eqn:Hd; [|done..]. intros [= <- _]. split; [done|].
    intros _. simpl. rewrite Map_get_set_eq. eauto.
  - destruct (demo s) as [|a|] eqn:Hd; [done| |done]. intros [= <- _].
    split; [done|]. intros _. simpl. by apply Hdemo.
Qed.

Lemma registry_inv_reachable s : reachable s → registry_inv s.
Proof.
  induction 1 as [|s e s' out _ IH Hstep].
  - split; [apply Forall_nil_2|done].
  - by eapply registry_inv_step.
Qed.

Lemma no_connection_of_named s x :
  Forall socket_ok (sockets s) → live_connections s (Named x) = [].
Proof.
  intros Hs. unfold live_connections.
  induction (seq 0 (length (sockets s))) as [|ws l IH]; [done|].
  rewrite filter_cons, IH, decide_False; [done|]. intros Hlive.
  unfold is_live in Hlive. destruct (sockets s !! ws) as [w|] eqn:Hw; [|done].
  apply bool_decide_unpack in Hlive as [_ Hid].
  pose proof (Forall_lookup_1 _ _ _ _ Hs Hw) as Hok.
  unfold socket_ok in Hok. rewrite Hid in Hok. by destruct Hok.
Qed.

(** C6 (amended): in every state the hub can reach, when a connection
    tagged as agent closes while the agent id it carries has an Agent
    record, that record is deleted and an [agent-disconnected] frame with
    the agent id goes to every registered observer whose socket is open.
    Not every Agent record has a connection: once its timer has fired, the
    demo agent is in the registry and no connection carries its id. *)
Theorem agent_released s :
  reachable s →
  (∀ ws w id a s' out,
     sockets s !! ws = Some w →
     clientType w = Some "agent" →
     agentId w = Some id →
     Map_get id (agents s) = Some a →
     step s (Close ws) = Some (s', out) →
     agents s' = Map_delete id (agents s)
     ∧ Map_get id (agents s') = None
     ∧ sent out = (., AgentDisconnected id) <$> observers s')
  ∧ (demo s ≠ AgentTimerArmed →
     is_Some (Map_get (Named "demo-agent-001") (agents s))
     ∧ live_connections s (Named "demo-agent-001") = []).
Proof.
  intros [Hs Hdemo]%registry_inv_reachable. split.
  - intros ws w id a s' out Hw Htype Hid Ha. simpl. rewrite Hw.
    destruct (decide (readyState w = CLOSED)); [done|].
    unfold handleDisconnection. simpl.
    rewrite list_lookup_alter_eq, Hw. simpl. rewrite Htype, Hid.
    rewrite decide_False by done. rewrite bool_decide_true by done.
    pose proof (Forall_lookup_1 _ _ _ _ Hs Hw) as Hok.
    unfold socket_ok in Hok. rewrite Hid in Hok. destruct Hok as [k ->].
    simpl. rewrite Ha. simpl. intros [= <- <-]. split_and!; [done| |].
    + simpl. apply Map_get_delete_eq.
    + simpl. by rewrite sent_broadcastToGUIs.
  - intros Hne. split; [auto|]. by apply no_connection_of_named.
Qed.

Lemma agent_released_witness :
  reachable (after two_observers_pending)
  ∧ Map_get (Uuid 0) (agents (after two_observers_pending)) ≠ None
  ∧ ∃ s' out,
      step (after two_observers_pending) (Close 0) = Some (s', out)
      ∧ Map_get (Uuid 0) (agents s') = None
      ∧ sent out = [(1, AgentDisconnected (Uuid 0));
                    (2, AgentDisconnected (Uuid 0))].
Proof.
  assert (reachable (after two_observers_pending)) as Hs
    by apply reachable_after.
  split_and!; [exact Hs|discriminate|].
  destruct (step (after two_observers_pending) (Close 0))
    as [[s' out]|] eqn:Hstep; [|by vm_compute in Hstep].
  exists s', out. split; [reflexivity|].
  destruct (proj1 (agent_released (after two_observers_pending) Hs)
              0 {| readyState := OPEN; clientType := Some "agent";
                   agentId := Some (Uuid 0) |}
              (Uuid 0)
              {| a_id := Uuid 0; a_name := "Analyst"; a_status := "Connected";
                 a_timestamp := "t1"; a_more := ∅ |}
              s' out eq_refl eq_refl eq_refl eq_refl Hstep)
    as (_ & Hgone & Hsent).
  split; [exact Hgone|].
  rewrite Hsent. vm_compute in Hstep. injection Hstep as <- _. reflexivity.
Defined.

End Registry.

(** ** Discovery *)

Section Discovery.
Import App Examples.
Implicit Types (s : app) (attempt : Z → outcome) (ports : list Z).

Lemma set_readyState_ports sock r socks :
  port <$> set_readyState sock r socks = port <$> socks.
Proof.
  unfold set_readyState. revert sock.
  induction socks as [|w socks IH]; intros [|sock]; simpl; f_equal;
    try done. apply IH.
Qed.

Lemma close_due_link prev s :
  ws (close_due prev s) = ws s
  ∧ outbox (close_due prev s) = outbox s
  ∧ errors (close_due prev s) = errors s
  ∧ port <$> sockets (close_due prev s) = port <$> sockets s.
Proof.
  destruct prev as [sock|]; simpl; [|done].
  split_and!; try done. apply set_readyState_ports.
Qed.

(** One scan creates one socket for each port of [probed], in order. *)
Lemma scan_ports attempt ports prev s :
  port <$> sockets (scan attempt ports prev s)
  = (port <$> sockets s) ++ probed attempt ports.
Proof.
  revert prev s. induction ports as [|p ports IH]; intros prev s; simpl.
  - destruct (close_due_link prev (server_not_found s)) as (_ & _ & _ & ->).
    simpl. by rewrite app_nil_r.
  - match goal with
    | |- context [close_due prev ?s1] =>
        destruct (close_due_link prev s1) as (_ & _ & _ & Hports)
    end.
    simpl in Hports. rewrite fmap_app in Hports.
    destruct (attempt p) eqn:Hp.
    + simpl. by rewrite set_readyState_ports, Hports.
    + rewrite IH. simpl. by rewrite Hports, <-app_assoc.
Qed.

(** The ports tried are the candidates up to and including the first that
    opens. *)
Lemma probed_until_open attempt before p rest :
  Forall (λ q, attempt q = Fails) before →
  attempt p = Opens →
  probed attempt (before ++ p :: rest) = before ++ [p].
Proof.
  intros Hbefore Hp. induction Hbefore as [|q before Hq _ IH]; simpl.
  - by rewrite Hp.
  - by rewrite IH, Hq.
Qed.

(** When none opens, all the candidates are tried. *)
Lemma probed_all attempt ports :
  Forall (λ q, attempt q = Fails) ports → probed attempt ports = ports.
Proof.
  induction 1 as [|q ports Hq _ IH]; simpl; [done|].
  by rewrite IH, Hq.
Qed.

Lemma close_due_length prev s :
  length (sockets (close_due prev s)) = length (sockets s).
Proof.
  destruct prev as [sock|]; simpl; [|done].
  unfold set_readyState. apply length_alter.
Qed.

Lemma scan_cons_fails attempt p ports prev s :
  attempt p = Fails →
  scan attempt (p :: ports) prev s
  = scan attempt ports (Some (length (sockets s)))
      (onerror p (close_due prev (new_WebSocket p s).2)).
Proof. intros Hp. simpl. by rewrite Hp. Qed.

Lemma scan_cons_opens attempt p ports prev s :
  attempt p = Opens →
  scan attempt (p :: ports) prev s
  = onopen (length (sockets s)) (close_due prev (new_WebSocket p s).2).
Proof. intros Hp. simpl. by rewrite Hp. Qed.

(** The first port that opens is adopted: its socket becomes [this.ws],
    the status reads Connected and [register-gui] is sent on it; an error
    has been written for each port refused before it. *)
Lemma scan_adopts attempt before p rest prev s :
  Forall (λ q, attempt q = Fails) before →
  attempt p = Opens →
  (∀ sock0, prev = Some sock0 → (sock0 < length (sockets s))%nat) →
  let s' := scan attempt (before ++ p :: rest) prev s in
  let sock := (length (sockets s) + length before)%nat in
  ws s' = Some sock
  ∧ sockets s' !! sock = Some {| port := p; readyState := OPEN |}
  ∧ connectionStatus s' = "Connected"
  ∧ outbox s' = outbox s ++ [(sock, RegisterGui)]
  ∧ errors s' = errors s ++ (WebSocketError <$> before).
Proof.
  intros Hbefore Hp. cbv zeta. revert prev s.
  induction Hbefore as [|q before Hq _ IH]; intros prev s Hprev.
  - rewrite app_nil_l, scan_cons_opens by done. simpl length.
    rewrite Nat.add_0_r.
    destruct (close_due_link prev (new_WebSocket p s).2)
      as (Hws & Hout & Herr & _).
    split_and!.
    + done.
    + unfold onopen, set_readyState. cbn [sockets set_link].
      rewrite list_lookup_alter_eq.
      destruct prev as [sock0|]; simpl.
      * specialize (Hprev sock0 eq_refl). unfold set_readyState.
        rewrite list_lookup_alter_ne by lia.
        by rewrite lookup_app_r, Nat.sub_diag by done.
      * by rewrite lookup_app_r, Nat.sub_diag by done.
    + done.
    + unfold onopen. cbn [outbox set_link]. by rewrite Hout.
    + unfold onopen. cbn [errors set_link]. rewrite Herr. simpl.
      by rewrite app_nil_r.
  - rewrite <-app_comm_cons, scan_cons_fails by done.
    set (s1 := onerror q (close_due prev (new_WebSocket q s).2)).
    assert (length (sockets s1) = S (length (sockets s))) as Hlen.
    { unfold s1. simpl. rewrite close_due_length. simpl.
      rewrite length_app. simpl. lia. }
    destruct (close_due_link prev (new_WebSocket q s).2)
      as (_ & Hout & Herr & _). simpl in Hout, Herr.
    destruct (IH (Some (length (sockets s))) s1) as (Hws & Hsock & Hst & Ho & He).
    { intros sock0 [= <-]. lia. }
    rewrite Hlen in Hws, Hsock, Ho. simpl length.
    replace (length (sockets s) + S (length before))%nat
      with (S (length (sockets s)) + length before)%nat by lia.
    split_and!; [done|done|done| |].
    + rewrite Ho. unfold s1. simpl. by rewrite Hout.
    + rewrite He. unfold s1. simpl. by rewrite Herr, <-app_assoc.
Qed.

(** When no port opens the scan writes an error for each port and reports
    the failure, adopts nothing and sends nothing; and the [close] of every
    socket it tried has armed a timer that will scan again. *)
Lemma scan_exhausted attempt ports prev s :
  Forall (λ q, attempt q = Fails) ports →
  let s' := scan attempt ports prev s in
  ws s' = ws s
  ∧ outbox s' = outbox s
  ∧ errors s' = errors s ++ (WebSocketError <$> ports) ++ [ServerNotFound]
  ∧ length (timers s')
    = (length (timers s) + length ports
       + match prev with Some _ => 1 | None => 0 end)%nat.
Proof.
  intros Hports. cbv zeta. revert prev s.
  induction Hports as [|q ports Hq _ IH]; intros prev s.
  - destruct prev as [sock0|]; simpl; split_and!; try done.
    + rewrite length_app. simpl. lia.
    + lia.
  - rewrite scan_cons_fails by done.
    destruct (IH (Some (length (sockets s)))
                (onerror q (close_due prev (new_WebSocket q s).2)))
      as (-> & -> & -> & ->).
    destruct prev as [sock0|]; simpl; split_and!; try done.
    + by rewrite <-app_assoc.
    + rewrite length_app. simpl. lia.
    + by rewrite <-app_assoc.
    + lia.
Qed.

(** When a socket that was open closes, a scan is armed three seconds
    ahead. *)
Lemma close_arms_rescan s sock s' :
  step s (SocketCloses sock) = Some s' →
  timers s' = timers s ++ [{| timer_id := S (timeouts s); delay := 3000 |}]
  ∧ reconnectInterval s' = Some (S (timeouts s))
  ∧ connectionStatus s' = "Disconnected".
Proof. simpl. destruct (socket_open sock s); [|done]. by intros [= <-]. Qed.

(** C9, at the failing inputs.  With no hub on any port, one scan tries
    the 120 ports in ascending order, opens none, sends nothing, writes an
    error for each port and reports the failure; no connection was ever
    established, and yet 120 timers are armed, each to scan again three
    seconds after the socket of a failed attempt closed.  With a hub on
    port 8083 only, the scan tries 8080 to 8083 and adopts 8083; two of the
    three timers armed by the failed attempts stay armed, and when the
    first fires the page scans again and opens a second connection to the
    hub while the first is still open. *)
Theorem rescans_armed_by_failed_attempts :
  (let s := connectToWebSocket nobody_listens (new "Connecting...") in
   port <$> sockets s = seqZ 8080 120
   ∧ readyState <$> sockets s = replicate 120 CLOSED
   ∧ ws s = None
   ∧ outbox s = []
   ∧ errors s = (WebSocketError <$> seqZ 8080 120) ++ [ServerNotFound]
   ∧ delay <$> timers s = replicate 120 3000%Z)
  ∧ (let s := connectToWebSocket hub_on_8083 (new "Connecting...") in
     sockets s
     = [{| port := 8080; readyState := CLOSED |};
        {| port := 8081; readyState := CLOSED |};
        {| port := 8082; readyState := CLOSED |};
        {| port := 8083; readyState := OPEN |}]
     ∧ ws s = Some 3
     ∧ outbox s = [(3, RegisterGui)]
     ∧ timers s = [{| timer_id := 1; delay := 3000 |};
                   {| timer_id := 2; delay := 3000 |}]
     ∧ ∃ s', step s (TimerFires 1 hub_on_8083) = Some s'
             ∧ ws s' = Some 7
             ∧ (readyState <$> sockets s' !! 3) = Some OPEN
             ∧ outbox s' = [(3, RegisterGui); (7, RegisterGui)]).
Proof.
  split.
  - vm_compute. split_and!; reflexivity.
  - split_and!; [vm_compute; reflexivity..|].
    eexists. split_and!; vm_compute; reflexivity.
Qed.

End Discovery.

(** ** What the hub writes, and to whom *)

Section Frames.
Import Hub Spec Examples.
Implicit Types (s : hub) (ws : conn) (m : event) (out : list effect).

Lemma frames_ok_nil s : frames_ok s [].
Proof. apply Forall_nil_2. Qed.

Lemma frames_ok_app s out1 out2 :
  frames_ok s out1 → frames_ok s out2 → frames_ok s (out1 ++ out2).
Proof.
  unfold frames_ok. rewrite sent_app. intros. by apply Forall_app.
Qed.

Lemma frames_ok_log s line out : frames_ok s out → frames_ok s (Log line :: out).
Proof. done. Qed.

Lemma frames_ok_send s ws m :
  hub_kind m = true → frames_ok s (sendToClient s ws m).
Proof.
  intros Hm. unfold frames_ok, sendToClient.
  destruct (is_open s ws) eqn:Hopen; simpl; [|apply Forall_nil_2].
  by apply Forall_singleton.
Qed.

Lemma frames_ok_bind {A} s (l : list A) (f : A → list effect) :
  (∀ x, frames_ok s (f x)) → frames_ok s (x ← l; f x).
Proof.
  intros Hf. induction l as [|x l IH]; [apply frames_ok_nil|].
  rewrite bind_cons. by apply frames_ok_app.
Qed.

Lemma frames_ok_broadcast s m :
  hub_kind m = true → frames_ok s (broadcastToGUIs s m).
Proof. intros Hm. apply frames_ok_bind. intros gui. by apply frames_ok_send. Qed.

Lemma handleDisconnection_frames ws s s' out :
  handleDisconnection ws s = (s', out) → frames_ok s' out.
Proof.
  unfold handleDisconnection. intros Hd.
  repeat case_match; simplify_eq; try apply frames_ok_nil.
  apply frames_ok_log. by apply frames_ok_broadcast.
Qed.

Lemma onmessage_frames ws now msg s s' out :
  onmessage ws now msg s = (s', out) → frames_ok s' out.
Proof.
  unfold onmessage, handleMessage, returns.
  destruct msg as [|data|data|requestId response|data|type].
  - intros [= <- <-]. apply frames_ok_log. simpl. apply frames_ok_log.
    rewrite app_nil_r.
    apply frames_ok_app; apply frames_ok_bind; intros x;
      by apply frames_ok_send.
  - destruct data as [data|]; intros [= <- <-].
    + do 2 apply frames_ok_log. simpl. rewrite app_nil_r.
      by apply frames_ok_broadcast.
    + apply frames_ok_log, frames_ok_log, frames_ok_nil.
  - destruct data as [data|]; intros [= <- <-].
    + do 2 apply frames_ok_log. simpl. rewrite app_nil_r.
      by apply frames_ok_broadcast.
    + apply frames_ok_log, frames_ok_log, frames_ok_nil.
  - unfold handleHumanInputResponse.
    destruct (requestId ≫= _) as [[id r]|];
      intros [= <- <-]; [|do 2 apply frames_ok_log; apply frames_ok_nil].
    do 2 apply frames_ok_log. simpl. rewrite app_nil_r.
    apply frames_ok_app.
    + destruct (r_agentWs r) as [agentWs|]; [|apply frames_ok_nil].
      destruct (is_open _ agentWs); [|apply frames_ok_nil].
      by apply frames_ok_send.
    + by apply frames_ok_broadcast.
  - unfold handleAgentUpdate. intros Hm.
    repeat case_match; simplify_eq;
      try (apply frames_ok_log; apply frames_ok_nil).
    rewrite app_nil_r. apply frames_ok_log.
    by apply frames_ok_broadcast.
  - intros [= <- <-]. do 2 apply frames_ok_log. apply frames_ok_nil.
Qed.

Lemma step_frames_ok s e s' out : step s e = Some (s', out) → frames_ok s' out.
Proof.
  intros Hstep. destruct e as [|c now msg|c|c|now|now]; simpl in Hstep.
  - simplify_eq. apply frames_ok_log, frames_ok_nil.
  - destruct (is_open s c); [|done]. simplify_eq.
    by eapply onmessage_frames.
  - destruct (is_open s c); simplify_eq. apply frames_ok_nil.
  - destruct (sockets s !! c) as [w|]; [|done].
    destruct (decide (readyState w = CLOSED)); [done|].
    destruct (handleDisconnection c _) as [s1 out1] eqn:Hd. simplify_eq.
    apply frames_ok_log. by eapply handleDisconnection_frames.
  - destruct (demo s); simplify_eq. apply frames_ok_log, frames_ok_nil.
  - destruct (demo s) as [|a|]; simplify_eq.
    apply frames_ok_log. apply frames_ok_app; by apply frames_ok_broadcast.
Qed.

(** X1: in any turn of the event loop the hub writes only to sockets that are
    open when the turn ends, and writes only the five kinds of frame of its
    protocol: no content frame, and nothing that reports an error. *)
Theorem hub_writes_to_open_sockets s e s' out ws m :
  step s e = Some (s', out) →
  (ws, m) ∈ sent out →
  is_open s' ws = true ∧ hub_kind m = true.
Proof.
  intros Hstep%step_frames_ok Hin.
  by apply (proj1 (Forall_forall _ _) Hstep (ws, m)).
Qed.

Lemma hub_writes_to_open_sockets_witness :
  ∃ s' out,
    step (after two_observers_pending) (Message 0 "t3" (AgentUpdate (Some busy)))
    = Some (s', out)
    ∧ length (sent out) = 2
    ∧ ∀ ws m, (ws, m) ∈ sent out → is_open s' ws = true ∧ hub_kind m = true.
Proof.
  destruct (step (after two_observers_pending)
              (Message 0 "t3" (AgentUpdate (Some busy))))
    as [[s' out]|] eqn:Hstep; [|by vm_compute in Hstep].
  exists s', out. split_and!; [reflexivity| |].
  - vm_compute in Hstep. by injection Hstep as _ <-.
  - intros ws m.
    exact (hub_writes_to_open_sockets _ _ _ _ ws m Hstep).
Defined.

End Frames.

(** ** The observers of a broadcast *)

Section Fanout.
Import Hub Spec Examples.
Implicit Types (s : hub) (ws : conn) (m : event) (out : list effect).

Lemma Set_add_NoDup {A} `{EqDecision A} (x : A) (l : list A) :
  NoDup l → NoDup (Set_add x l).
Proof.
  intros Hl. unfold Set_add. case_decide; [done|].
  apply NoDup_app. split_and!; [done| |apply NoDup_singleton].
  by intros y Hy ->%list_elem_of_singleton.
Qed.

Lemma Set_delete_NoDup {A} `{EqDecision A} (x : A) (l : list A) :
  NoDup l → NoDup (Set_delete x l).
Proof. apply NoDup_filter. Qed.

Lemma handleDisconnection_guiClients ws s s' out :
  NoDup (guiClients s) →
  handleDisconnection ws s = (s', out) → NoDup (guiClients s').
Proof.
  unfold handleDisconnection. intros Hs Hd.
  repeat case_match; simplify_eq; try done.
  simpl. by apply Set_delete_NoDup.
Qed.

Lemma onmessage_guiClients ws now msg s s' out :
  NoDup (guiClients s) →
  onmessage ws now msg s = (s', out) → NoDup (guiClients s').
Proof.
  intros Hs. unfold onmessage, handleMessage, returns.
  destruct msg as [|data|data|requestId response|data|type].
  - intros [= <- _]. simpl. by apply Set_add_NoDup.
  - destruct data; by intros [= <- _].
  - destruct data; by intros [= <- _].
  - unfold handleHumanInputResponse. intros Hm.
    repeat case_match; by simplify_eq.
  - unfold handleAgentUpdate. intros Hm.
    repeat case_match; by simplify_eq.
  - by intros [= <- _].
Qed.

Lemma guiClients_NoDup s : reachable s → NoDup (guiClients s).
Proof.
  induction 1 as [|s e s' out _ IH Hstep]; [apply NoDup_nil_2|].
  destruct e as [|c now msg|c|c|now|now]; simpl in Hstep.
  - by simplify_eq.
  - destruct (is_open s c); [|done]. simplify_eq.
    by eapply onmessage_guiClients.
  - destruct (is_open s c); by simplify_eq.
  - destruct (sockets s !! c) as [w|]; [|done].
    destruct (decide (readyState w = CLOSED)); [done|].
    destruct (handleDisconnection c _) as [s1 out1] eqn:Hd. simplify_eq.
    eapply handleDisconnection_guiClients; [|exact Hd]. done.
  - destruct (demo s); by simplify_eq.
  - destruct (demo s) as [|a|]; by simplify_eq.
Qed.

Lemma sent_to_broadcast_absent s ws m (guis : list conn) :
  ws ∉ guis → sent_to ws (gui ← guis; sendToClient s gui m) = [].
Proof.
  induction guis as [|gui guis IH]; [done|].
  intros [Hne Hnotin]%not_elem_of_cons.
  rewrite bind_cons, sent_to_app, IH by done. unfold sendToClient.
  destruct (is_open s gui); [|done]. simpl. by rewrite decide_False.
Qed.

Lemma sent_to_broadcast s ws m :
  NoDup (guiClients s) →
  sent_to ws (broadcastToGUIs s m)
  = if bool_decide (ws ∈ guiClients s) && is_open s ws then [m] else [].
Proof.
  intros Hs. unfold broadcastToGUIs.
  induction Hs as [|gui guis Hgui Hguis IH]; [done|].
  rewrite bind_cons, sent_to_app. unfold sendToClient at 1.
  destruct (decide (ws = gui)) as [->|Hne].
  - rewrite sent_to_broadcast_absent by done.
    rewrite bool_decide_true by apply list_elem_of_here.
    destruct (is_open s gui); simpl; [|done]. by rewrite decide_True.
  - rewrite IH.
    assert (sent_to ws (if is_open s gui then [Send gui m] else []) = [])
      as ->.
    { destruct (is_open s gui); [|done]. simpl. by rewrite decide_False. }
    simpl. rewrite (bool_decide_ext (ws ∈ gui :: guis) (ws ∈ guis)); [done|].
    rewrite elem_of_cons. intuition congruence.
Qed.

(** X2: in every state the hub can reach, a broadcast writes the frame exactly
    once to each registered observer whose socket is open, and to nobody
    else: registering twice does not double the frames, and an observer
    whose socket is not open is passed over. *)
Theorem broadcast_once s ws m :
  reachable s →
  sent_to ws (broadcastToGUIs s m)
  = if bool_decide (ws ∈ guiClients s) && is_open s ws then [m] else [].
Proof. intros Hs%guiClients_NoDup. by apply sent_to_broadcast. Qed.

Lemma broadcast_once_witness :
  reachable (after registered_twice)
  ∧ guiClients (after registered_twice) = [1; 2]
  ∧ sent_to 1 (broadcastToGUIs (after registered_twice)
                 (AgentDisconnected (Uuid 0)))
    = [AgentDisconnected (Uuid 0)]
  ∧ sent_to 2 (broadcastToGUIs (after registered_twice)
                 (AgentDisconnected (Uuid 0)))
    = [].
Proof.
  assert (reachable (after registered_twice)) as Hs by apply reachable_after.
  split_and!; [exact Hs|reflexivity|..].
  - rewrite (broadcast_once _ 1 _ Hs). reflexivity.
  - rewrite (broadcast_once _ 2 _ Hs). reflexivity.
Defined.

(** X3: releasing a connection twice is releasing it once: after
    [handleDisconnection] has run for a socket, running it again for the
    same socket changes nothing and writes nothing. *)
Theorem release_idempotent ws s s1 out :
  handleDisconnection ws s = (s1, out) →
  handleDisconnection ws s1 = (s1, []).
Proof.
  unfold handleDisconnection.
  destruct (sockets s !! ws) as [w|] eqn:Hw; [|intros [= <- _]; by rewrite Hw].
  destruct (decide (clientType w = Some "gui")) as [Hgui|Hgui].
  { intros [= <- _]. simpl. rewrite Hw, decide_True by done.
    unfold set_guiClients. simpl. f_equal. f_equal.
    unfold Set_delete. by rewrite list_filter_filter_l. }
  destruct (bool_decide (clientType w = Some "agent")
            && truthy_ident (agentId w)) eqn:Hagent.
  2: { intros [= <- _]. by rewrite Hw, decide_False, Hagent. }
  destruct (agentId w ≫= λ id, (id,.) <$> Map_get id (agents s))
    as [[id a]|] eqn:Ha.
  - intros [= <- _]. simpl. rewrite Hw, decide_False, Hagent by done.
    destruct (agentId w) as [id'|]; simpl in *; [|done].
    destruct (Map_get id' (agents s)); simpl in Ha; simplify_eq.
    by rewrite Map_get_delete_eq.
  - intros [= <- _]. by rewrite Hw, decide_False, Hagent, Ha.
Qed.

Lemma release_idempotent_witness :
  ∃ s1 out,
    handleDisconnection 0 (after two_observers_pending) = (s1, out)
    ∧ agents s1 = []
    ∧ handleDisconnection 0 s1 = (s1, []).
Proof.
  destruct (handleDisconnection 0 (after two_observers_pending))
    as [s1 out] eqn:Hd.
  exists s1, out. split_and!; [reflexivity| |].
  - vm_compute in Hd. by injection Hd as <- _.
  - exact (release_idempotent 0 _ s1 out Hd).
Defined.

End Fanout.

(** ** Requests over the life of the hub *)

Section Ledger.
Import Hub Spec Examples.
Implicit Types (s : hub) (ws : conn) (out : list effect).

Lemma same_request_refl r : same_request r r.
Proof. by repeat split. Qed.

Lemma same_request_trans r1 r2 r3 :
  same_request r1 r2 → same_request r2 r3 → same_request r1 r3.
Proof.
  unfold same_request. intros (?&?&?&?&?&?&?&?&?) (?&?&?&?&?&?&?&?&?).
  split_and!; congruence.
Qed.

Lemma Map_set_keys_prefix {V} (k : ident) (v : V) (m : list (ident * V)) :
  m.*1 `prefix_of` (Map_set k v m).*1.
Proof.
  destruct (Map_get k m) as [v0|] eqn:Hk.
  - by rewrite Map_set_keys_present.
  - rewrite Map_set_keys_absent, fmap_app by done. by apply prefix_app_r.
Qed.

Lemma ledger_step_persist s s' id r :
  ledger_inv s → ledger_step s s' →
  Map_get id (humanRequests s) = Some r →
  (∃ r', Map_get id (humanRequests s') = Some r' ∧ same_request r r')
  ∧ (humanRequests s).*1 `prefix_of` (humanRequests s').*1.
Proof.
  intros [Hok Hfresh Hnamed] Hstep Hid.
  destruct Hstep as [Hl Hu Hd|r0 Hl Hp Hr Hu Hd|id0 r0 response Hid0 Hl Hu Hd
                    |a now Ha Hd Hl Hu]; rewrite Hl.
  - split; [|done]. exists r. split; [done|apply same_request_refl].
  - split; [|apply Map_set_keys_prefix]. exists r.
    rewrite Map_get_set_ne; [by split; [|apply same_request_refl]|].
    intros <-. apply Hfresh in Hid. lia.
  - split; [|apply Map_set_keys_prefix].
    destruct (decide (id0 = id)) as [->|Hne].
    + exists (complete response r0). rewrite Map_get_set_eq. simplify_eq.
      split; [done|]. by repeat split.
    + exists r. rewrite Map_get_set_ne by done.
      split; [done|apply same_request_refl].
  - split; [|apply Map_set_keys_prefix]. exists r.
    rewrite Map_get_set_ne; [by split; [|apply same_request_refl]|].
    intros <-. apply Hnamed in Hid. congruence.
Qed.

(** X4: the hub never deletes, reorders or rewrites a request: over any run
    from a state it can reach, a request of the ledger stays under its id
    with every field but status and response as it was created (the agent
    name too, whatever becomes of the agent), and the ids of the ledger
    keep their order, new ones being added at the end. *)
Theorem requests_persist s es s' out id r :
  reachable s →
  run s es = Some (s', out) →
  Map_get id (humanRequests s) = Some r →
  (∃ r', Map_get id (humanRequests s') = Some r' ∧ same_request r r')
  ∧ (humanRequests s).*1 `prefix_of` (humanRequests s').*1.
Proof.
  intros Hs Hrun. revert s out r Hs Hrun.
  induction es as [|e es IH]; simpl; intros s out r Hs Hrun Hid.
  - simplify_eq. split; [|done]. exists r. split; [done|apply same_request_refl].
  - destruct (step s e) as [[s1 out1]|] eqn:Hstep; [|done].
    destruct (run s1 es) as [[s2 out2]|] eqn:Hrest; [|done]. simplify_eq.
    destruct (ledger_step_persist s s1 id r) as [(r1 & Hr1 & Hsame1) Hpre1];
      [by apply ledger_inv_reachable|by eapply step_ledger|done|].
    destruct (IH s1 out2 r1) as [(r2 & Hr2 & Hsame2) Hpre2];
      [by eapply reachable_step|done|done|].
    split.
    + exists r2. split; [done|]. by eapply same_request_trans.
    + by etrans.
Qed.

Lemma requests_persist_witness :
  reachable (after two_observers_pending)
  ∧ Map_get (Uuid 1) (humanRequests (after two_observers_pending))
    = Some pending
  ∧ ∃ s' out,
      run (after two_observers_pending)
        [Message 0 "t3" (AgentUpdate (Some {| p_id := None;
                                              p_name := Some "Renamed";
                                              p_status := None;
                                              p_timestamp := None;
                                              p_more := ∅ |}));
         Close 0;
         Message 1 "t4" (HumanInputResponse (Some (Uuid 1)) (Some "No"))]
      = Some (s', out)
      ∧ ∃ r', Map_get (Uuid 1) (humanRequests s') = Some r'
              ∧ r_agent_name r' = "Analyst".
Proof.
  assert (reachable (after two_observers_pending)) as Hs
    by apply reachable_after.
  split_and!; [exact Hs|reflexivity|].
  destruct (run (after two_observers_pending) _) as [[s' out]|] eqn:Hrun;
    [|by vm_compute in Hrun].
  exists s', out. split; [reflexivity|].
  destruct (requests_persist _ _ _ _ (Uuid 1) pending Hs Hrun eq_refl)
    as [(r' & Hr' & Hsame) _].
  exists r'. split; [exact Hr'|]. exact (proj1 (proj2 (proj2 Hsame))).
Defined.

Lemma Map_set_set {K V} `{EqDecision K} (k : K) (v1 v2 : V)
    (m : list (K * V)) :
  Map_set k v2 (Map_set k v1 m) = Map_set k v2 m.
Proof.
  induction m as [|[k' v'] m IH]; simpl.
  - by rewrite decide_True.
  - destruct (decide (k = k')) as [->|Hne]; simpl.
    + by rewrite decide_True.
    + rewrite decide_False by done. by rewrite IH.
Qed.

(** X5: a second answer to a request overwrites the first: the hub does not
    look at the status, so answering with [a] and then with [b] leaves the
    hub as answering with [b] alone does, and writes the same frames the
    second time. *)
Theorem last_response_wins s requestId r a b :
  Map_get requestId (humanRequests s) = Some r →
  handleHumanInputResponse (Some requestId) b
    (handleHumanInputResponse (Some requestId) a s).1
  = handleHumanInputResponse (Some requestId) b s.
Proof.
  intros Hr. unfold handleHumanInputResponse at 2. simpl. rewrite Hr. simpl.
  unfold handleHumanInputResponse. simpl. rewrite Map_get_set_eq, Hr. simpl.
  by rewrite Map_set_set.
Qed.

Lemma last_response_wins_witness :
  Map_get (Uuid 1) (humanRequests (after two_observers_pending))
  = Some pending
  ∧ (r_response <$>
       Map_get (Uuid 1)
         (humanRequests
            (handleHumanInputResponse (Some (Uuid 1)) (Some "No")
               (handleHumanInputResponse (Some (Uuid 1)) (Some "Yes")
                  (after two_observers_pending)).1).1))
    = Some (Some "No").
Proof.
  split; [reflexivity|].
  rewrite (last_response_wins (after two_observers_pending) (Uuid 1) pending
             (Some "Yes") (Some "No") eq_refl).
  reflexivity.
Defined.

(** The agent has gone when its request is resolved: the request is
    completed and sent to the observers, and nothing is written to the
    agent's closed socket. *)
Lemma resolve_on_hub_witness :
  Map_get (Uuid 1) (humanRequests (after agent_gone)) = Some pending
  ∧ is_open (after agent_gone) 0 = false
  ∧ ∃ s' out,
      handleHumanInputResponse (Some (Uuid 1)) (Some "ok") (after agent_gone)
      = (s', out)
      ∧ Map_get (Uuid 1) (humanRequests s')
        = Some (complete (Some "ok") pending)
      ∧ sent out
        = [(1, HumanInputRequestEvent (complete (Some "ok") pending));
           (2, HumanInputRequestEvent (complete (Some "ok") pending))].
Proof.
  split_and!; [reflexivity..|].
  destruct (handleHumanInputResponse (Some (Uuid 1)) (Some "ok")
              (after agent_gone))
    as [s' out] eqn:Hh.
  exists s', out. split; [reflexivity|].
  destruct (resolve_on_hub (after agent_gone) (Uuid 1) (Some "ok") pending
              s' out eq_refl Hh) as (_ & Hget & _ & _ & _ & _ & _ & Hsent).
  split; [exact Hget|]. rewrite Hsent. reflexivity.
Defined.

End Ledger.

(** ** Agents *)

Section Agents.
Import Hub Spec Examples.
Implicit Types (s : hub) (ws : conn) (out : list effect).

Lemma sent_log line out : sent (Log line :: out) = sent out.
Proof. done. Qed.

(** X7: a request names the agent of its connection: when the connection has
    an Agent record, the request stored carries that agent's current name
    and the agent id of the connection; it is Pending, keeps the socket it
    came from, and goes to every registered observer whose socket is
    open. *)
Theorem request_names_its_agent s ws now data a s' out c :
  agent_of s ws = Some a →
  handleHumanInputRequest ws now (Some data) s = (s', out, c) →
  c = Returns
  ∧ ∃ r,
      Map_get (Uuid (uuids s)) (humanRequests s') = Some r
      ∧ r_agent_name r = a_name a
      ∧ r_agent_id r = sockets s !! ws ≫= agentId
      ∧ r_status r = "Pending"
      ∧ r_response r = None
      ∧ r_agentWs r = Some ws
      ∧ r_request_type r = js_or (rd_request_type data) "input"
      ∧ r_message r = js_or (rd_message data) "Human input required"
      ∧ r_priority r = js_or (rd_priority data) "Medium"
      ∧ r_options r = default [] (rd_options data)
      ∧ agents s' = agents s
      ∧ sent out = (., HumanInputRequestEvent r) <$> observers s.
Proof.
  intros Ha. unfold handleHumanInputRequest. simpl.
  unfold agent_of in *. simpl. rewrite Ha. intros [= <- <- <-].
  split; [done|].
  eexists. split; [simpl; apply Map_get_set_eq|].
  split_and!; try done.
  by rewrite sent_log, sent_broadcastToGUIs.
Qed.

Lemma request_names_its_agent_witness :
  agent_of (after agent_registered) 0 = Some analyst
  ∧ ∃ s' out r,
      handleHumanInputRequest 0 "t2"
        (Some {| rd_request_type := None; rd_message := Some "";
                 rd_priority := None; rd_options := None |})
        (after agent_registered) = (s', out, Returns)
      ∧ Map_get (Uuid 1) (humanRequests s') = Some r
      ∧ r_agent_name r = "Analyst"
      ∧ r_message r = "Human input required"
      ∧ r_options r = [].
Proof.
  split; [reflexivity|].
  destruct (handleHumanInputRequest 0 "t2"
              (Some {| rd_request_type := None; rd_message := Some "";
                       rd_priority := None; rd_options := None |})
              (after agent_registered))
    as [[s' out] c] eqn:Hh.
  destruct (request_names_its_agent (after agent_registered) 0 "t2" _
              analyst s' out c eq_refl Hh)
    as (-> & r & Hget & Hname & _ & _ & _ & _ & _ & Hmsg & _ & Hopts & _).
  exists s', out, r. split_and!; [reflexivity|exact Hget|exact Hname|..].
  - exact Hmsg.
  - exact Hopts.
Defined.

(** X8: an [agent-update] assigns its patch onto the Agent record of the
    connection it arrives on and sends the record to the observers.  The
    record stays under the id the hub gave it, even when the patch carries
    an [id] of its own; no other Agent record and no request is
    touched. *)
Theorem agent_update_merges s ws id a patch s' out :
  sockets s !! ws ≫= agentId = Some id →
  Map_get id (agents s) = Some a →
  handleAgentUpdate ws patch s = (s', out) →
  Map_get id (agents s') = Some (Object_assign a patch)
  ∧ (∀ id', id' ≠ id → Map_get id' (agents s') = Map_get id' (agents s))
  ∧ (agents s').*1 = (agents s).*1
  ∧ humanRequests s' = humanRequests s
  ∧ sockets s' = sockets s
  ∧ sent out = (., AgentUpdateEvent (Object_assign a patch)) <$> observers s.
Proof.
  intros Hid Ha. unfold handleAgentUpdate. rewrite Hid, Ha.
  intros [= <- <-]. split_and!; try done.
  - simpl. apply Map_get_set_eq.
  - intros id' Hne. simpl. by rewrite Map_get_set_ne.
  - simpl. apply Map_set_keys_present. by rewrite Ha.
  - by rewrite sent_broadcastToGUIs.
Qed.

Lemma agent_update_merges_witness :
  sockets (after agent_registered) !! 0 ≫= agentId = Some (Uuid 0)
  ∧ Map_get (Uuid 0) (agents (after agent_registered)) = Some analyst
  ∧ (∃ s' out,
       handleAgentUpdate 0 (Some crafted) (after agent_registered)
       = (s', out)
       ∧ Map_get (Uuid 0) (agents s')
         = Some {| a_id := Named "a-7"; a_name := "Analyst";
                   a_status := "Active"; a_timestamp := "t1";
                   a_more := {[ "7" := "seven"; "task" := "indexing" ]} |})
  ∧ (∃ s' out,
       handleAgentUpdate 0 None (after agent_registered) = (s', out)
       ∧ Map_get (Uuid 0) (agents s') = Some analyst
       ∧ sent out = [(1, AgentUpdateEvent analyst);
                     (2, AgentUpdateEvent analyst)]).
Proof.
  split_and!; [reflexivity..| |].
  - destruct (handleAgentUpdate 0 (Some crafted) (after agent_registered))
      as [s' out] eqn:Hh.
    exists s', out. split; [reflexivity|].
    destruct (agent_update_merges (after agent_registered) 0 (Uuid 0) analyst
                (Some crafted) s' out eq_refl eq_refl Hh) as (Hget & _).
    rewrite Hget. vm_compute. reflexivity.
  - destruct (handleAgentUpdate 0 None (after agent_registered))
      as [s' out] eqn:Hh.
    exists s', out. split; [reflexivity|].
    destruct (agent_update_merges (after agent_registered) 0 (Uuid 0) analyst
                None s' out eq_refl eq_refl Hh)
      as (Hget & _ & _ & _ & _ & Hsent).
    split; [exact Hget|]. rewrite Hsent. reflexivity.
Defined.

Lemma handleDisconnection_agents_fresh ws s s' out k :
  (∀ n a, Map_get (Uuid n) (agents s) = Some a → (n < k)%nat) →
  handleDisconnection ws s = (s', out) →
  ∀ n a, Map_get (Uuid n) (agents s') = Some a → (n < k)%nat.
Proof.
  intros Hs. unfold handleDisconnection. intros Hd n a0.
  repeat case_match; simplify_eq; try apply Hs.
  simpl. match goal with
         | |- Map_get _ (Map_delete ?i _) = _ → _ =>
             destruct (decide (i = Uuid n)) as [->|Hne]
         end.
  - by rewrite Map_get_delete_eq.
  - rewrite Map_get_delete_ne by done. apply Hs.
Qed.

Lemma onmessage_agents_fresh ws now msg s s' out :
  (∀ n a, Map_get (Uuid n) (agents s) = Some a → (n < uuids s)%nat) →
  onmessage ws now msg s = (s', out) →
  ∀ n a, Map_get (Uuid n) (agents s') = Some a → (n < uuids s')%nat.
Proof.
  intros Hs. unfold onmessage, handleMessage, returns.
  destruct msg as [|data|data|requestId response|data|type].
  - intros [= <- _]. apply Hs.
  - destruct data as [data|]; intros [= <- _] n a; simpl.
    + destruct (decide (Uuid (uuids s) = Uuid n)) as [[= <-]|Hne]; [lia|].
      rewrite Map_get_set_ne by done. intros Hn%Hs. lia.
    + intros Hn%Hs. lia.
  - destruct data as [data|]; intros [= <- _] n a; simpl;
      intros Hn%Hs; lia.
  - unfold handleHumanInputResponse. intros Hm.
    repeat case_match; simplify_eq; apply Hs.
  - unfold handleAgentUpdate. intros Hm.
    repeat case_match; simplify_eq; try apply Hs.
    intros n a0. simpl.
    match goal with
    | |- Map_get _ (Map_set ?i _ _) = _ → _ =>
        destruct (decide (i = Uuid n)) as [->|Hne]
    end.
    + intros _. by eapply Hs.
    + rewrite Map_get_set_ne by done. apply Hs.
  - intros [= <- _]. apply Hs.
Qed.

Lemma agents_fresh s :
  reachable s → ∀ n a, Map_get (Uuid n) (agents s) = Some a → (n < uuids s)%nat.
Proof.
  induction 1 as [|s e s' out _ IH Hstep]; [done|].
  destruct e as [|c now msg|c|c|now|now]; simpl in Hstep.
  - by simplify_eq.
  - destruct (is_open s c); [|done]. simplify_eq.
    by eapply onmessage_agents_fresh.
  - destruct (is_open s c); by simplify_eq.
  - destruct (sockets s !! c) as [w|]; [|done].
    destruct (decide (readyState w = CLOSED)); [done|].
    destruct (handleDisconnection c _) as [s1 out1] eqn:Hd. simplify_eq.
    destruct (handleDisconnection_ledger _ _ _ _ Hd) as (_ & -> & _).
    eapply handleDisconnection_agents_fresh; [|exact Hd]. done.
  - destruct (demo s); simplify_eq. intros n a. simpl.
    rewrite Map_get_set_ne by done. apply IH.
  - destruct (demo s) as [|a|]; by simplify_eq.
Qed.

End Agents.

(** ** Agent records without a connection *)

Section Orphans.
Import Hub Spec Examples.
Implicit Types (s : hub) (ws : conn) (out : list effect).

Lemma carriers_alter_same s (f : socket → socket) ws :
  (∀ w, agentId (f w) = agentId w) →
  carriers_inv s →
  ∀ guis, carriers_inv (set_guiClients guis
                          (set_sockets (alter f ws (sockets s)) s)).
Proof.
  intros Hf [Hdrawn Huniq] guis.
  assert (∀ c w, alter f ws (sockets s) !! c = Some w →
                 ∃ w0, sockets s !! c = Some w0 ∧ agentId w = agentId w0)
    as Hback.
  { intros c w. rewrite list_lookup_alter. case_decide as Hc.
    - subst c. destruct (sockets s !! ws) as [w0|]; [|done].
      intros [= <-]. eauto.
    - eauto. }
  split; simpl.
  - intros c w n (w0 & Hw0 & Heq)%Hback Hid. rewrite Heq in Hid. eauto.
  - intros c1 c2 w1 w2 id (w1' & Hw1 & Heq1)%Hback (w2' & Hw2 & Heq2)%Hback.
    rewrite Heq1, Heq2. eauto.
Qed.

Lemma carriers_same_sockets s s' :
  sockets s' = sockets s → (uuids s ≤ uuids s')%nat →
  carriers_inv s → carriers_inv s'.
Proof.
  intros Hsock Hu [Hdrawn Huniq]. split; rewrite Hsock.
  - intros ws w n Hw Hid. specialize (Hdrawn ws w n Hw Hid). lia.
  - done.
Qed.

Lemma registerAgent_carriers ws now data s s' out how :
  carriers_inv s →
  registerAgent ws now data s = (s', out, how) → carriers_inv s'.
Proof.
  intros Hs. destruct data as [data|].
  2: { intros [= <- _ _].
       eapply carriers_same_sockets; [| |done]; simpl; [done|lia]. }
  destruct Hs as [Hdrawn Huniq]. intros [= <- _ _]. split; simpl.
  - intros c w n. rewrite list_lookup_alter. case_decide as Hc.
    + subst c. destruct (sockets s !! ws) as [w0|]; [|done].
      intros [= <-]. simpl. intros [= <-]. lia.
    + intros Hw Hid. specialize (Hdrawn c w n Hw Hid). lia.
  - intros c1 c2 w1 w2 id. rewrite !list_lookup_alter.
    destruct (decide (ws = c1)) as [<-|Hc1];
      destruct (decide (ws = c2)) as [<-|Hc2]; try done.
    + destruct (sockets s !! ws) as [w0|]; [|done].
      intros [= <-] Hw2. simpl. intros [= <-] Hid.
      specialize (Hdrawn c2 w2 _ Hw2 Hid). lia.
    + destruct (sockets s !! ws) as [w0|]; [|done].
      intros Hw1 [= <-] Hid. simpl. intros [= <-].
      specialize (Hdrawn c1 w1 _ Hw1 Hid). lia.
    + eauto.
Qed.

Lemma onmessage_carriers ws now msg s s' out :
  carriers_inv s → onmessage ws now msg s = (s', out) → carriers_inv s'.
Proof.
  intros Hs. unfold onmessage, handleMessage, returns.
  destruct msg as [|data|data|requestId response|data|type].
  - intros [= <- _]. by apply carriers_alter_same.
  - destruct (registerAgent ws now data s) as [[s1 out1] c1] eqn:Hreg.
    intros [= <- _]. by eapply registerAgent_carriers.
  - destruct data; intros [= <- _];
      (eapply carriers_same_sockets; [| |done]; simpl; [done|lia]).
  - unfold handleHumanInputResponse.
    destruct (requestId ≫= _) as [[id r]|]; intros [= <- _]; [|done].
    eapply carriers_same_sockets; [| |done]; simpl; [done|lia].
  - unfold handleAgentUpdate.
    destruct (sockets s !! ws ≫= agentId) as [id|]; [|by intros [= <- _]].
    destruct (Map_get id (agents s)); intros [= <- _]; [|done].
    eapply carriers_same_sockets; [| |done]; simpl; [done|lia].
  - by intros [= <- _].
Qed.

Lemma carriers_reachable s : reachable s → carriers_inv s.
Proof.
  induction 1 as [|s e s' out _ IH Hstep]; [by split|].
  destruct e as [|c now msg|c|c|now|now]; simpl in Hstep.
  - simplify_eq. destruct IH as [Hdrawn Huniq].
    assert (∀ ws w, (sockets s ++ [{| readyState := OPEN; clientType := None;
                                      agentId := None |}]) !! ws = Some w →
                    is_Some (agentId w) → sockets s !! ws = Some w) as Hback.
    { intros ws w Hw Hid. apply lookup_app_Some in Hw as [Hw|[_ Hw]]; [done|].
      apply list_lookup_singleton_Some in Hw as [_ <-]. by destruct Hid. }
    split; simpl.
    + intros ws w n Hw Hid. eapply Hdrawn; [|done]. apply Hback; [done|].
      by rewrite Hid.
    + intros ws1 ws2 w1 w2 id Hw1 Hw2 Hid1 Hid2.
      apply (Huniq ws1 ws2 w1 w2 id); [apply Hback|apply Hback|..]; try done.
      all: by rewrite ?Hid1, ?Hid2.
  - destruct (is_open s c); [|done]. simplify_eq.
    by eapply onmessage_carriers.
  - destruct (is_open s c); simplify_eq.
    by apply (carriers_alter_same s _ c) with (guis := guiClients s).
  - destruct (sockets s !! c) as [w|]; [|done].
    destruct (decide (readyState w = CLOSED)); [done|].
    destruct (handleDisconnection c _) as [s1 out1] eqn:Hd. simplify_eq.
    destruct (handleDisconnection_sockets _ _ _ _ Hd) as [Hsock _].
    destruct (handleDisconnection_ledger _ _ _ _ Hd) as (_ & Hu & _).
    eapply carriers_same_sockets; [done|rewrite Hu; simpl; lia|].
    by apply (carriers_alter_same s _ c) with (guis := guiClients s).
  - destruct (demo s); simplify_eq. eapply carriers_same_sockets; [| |done]; simpl; [done|lia].
  - destruct (demo s) as [|a|]; simplify_eq.
    eapply carriers_same_sockets; [| |done]; simpl; [done|lia].
Qed.

Lemma carried_alter s (f : socket → socket) ws id guis :
  (∀ w, agentId (f w) = agentId w) →
  carried (set_guiClients guis (set_sockets (alter f ws (sockets s)) s)) id →
  carried s id.
Proof.
  intros Hf (c & w & Hw & Hid). simpl in Hw.
  rewrite list_lookup_alter in Hw. case_decide as Hc.
  - subst c. destruct (sockets s !! ws) as [w0|] eqn:Hw0; [|done].
    simpl in Hw. simplify_eq. exists ws, w0. by rewrite <-Hf.
  - by exists c, w.
Qed.

Lemma handleDisconnection_orphan ws s s' out id a :
  Map_get id (agents s) = Some a → ¬ carried s id →
  handleDisconnection ws s = (s', out) →
  Map_get id (agents s') = Some a.
Proof.
  intros Ha Hno. unfold handleDisconnection.
  destruct (sockets s !! ws) as [w|] eqn:Hw; [|by intros [= <- _]].
  destruct (decide _); [by intros [= <- _]|].
  destruct (_ && _); [|by intros [= <- _]].
  destruct (agentId w) as [id0|] eqn:Hid; simpl; [|by intros [= <- _]].
  destruct (Map_get id0 (agents s)) as [a0|]; simpl; [|by intros [= <- _]].
  intros [= <- _]. simpl. rewrite Map_get_delete_ne; [done|].
  intros ->. apply Hno. by exists ws, w.
Qed.

Lemma orphan_step s e s' out n a :
  reachable s →
  Map_get (Uuid n) (agents s) = Some a → ¬ carried s (Uuid n) →
  step s e = Some (s', out) →
  Map_get (Uuid n) (agents s') = Some a ∧ ¬ carried s' (Uuid n).
Proof.
  intros Hs Ha Hno Hstep.
  pose proof (agents_fresh s Hs n a Ha) as Hn.
  destruct e as [|c now msg|c|c|now|now]; simpl in Hstep.
  - simplify_eq. split; [done|]. intros (ws & w & Hw & Hid). simpl in Hw.
    apply lookup_app_Some in Hw as [Hw|[_ Hw]].
    + apply Hno. by exists ws, w.
    + apply list_lookup_singleton_Some in Hw as [_ <-]. done.
  - destruct (is_open s c); [|done]. injection Hstep as Hm.
    unfold onmessage, handleMessage, returns in Hm.
    destruct msg as [|data|data|requestId response|data|type].
    + injection Hm as <- _. split; [done|]. by intros Hc%carried_alter.
    + destruct data as [data|]; injection Hm as <- _.
      2: { split; [done|]. intros (ws & w & Hw & Hid).
           apply Hno. by exists ws, w. }
      split.
      * simpl. rewrite Map_get_set_ne; [done|]. intros [= ?]. lia.
      * intros (ws & w & Hw & Hid). simpl in Hw.
        rewrite list_lookup_alter in Hw. case_decide as Hc.
        -- subst ws. destruct (sockets s !! c) as [w0|]; [|done].
           simpl in Hw. simplify_eq. simpl in Hid. simplify_eq. lia.
        -- apply Hno. by exists ws, w.
    + destruct data; injection Hm as <- _; (split; [done|]);
        intros (ws & w & Hw & Hid); apply Hno; by exists ws, w.
    + unfold handleHumanInputResponse in Hm.
      destruct (requestId ≫= _) as [[id0 r0]|]; injection Hm as <- _;
        (split; [done|]); intros (ws & w & Hw & Hid); apply Hno;
        by exists ws, w.
    + unfold handleAgentUpdate in Hm.
      destruct (sockets s !! c ≫= agentId) as [id0|] eqn:Hid0;
        [|by injection Hm as <- _].
      destruct (Map_get id0 (agents s)) as [a0|]; injection Hm as <- _;
        [|done].
      split; [|intros (ws & w & Hw & Hid); apply Hno; by exists ws, w].
      simpl. rewrite Map_get_set_ne; [done|]. intros ->. apply Hno.
      destruct (sockets s !! c) as [w|] eqn:Hw; [|done]. by exists c, w.
    + by injection Hm as <- _.
  - destruct (is_open s c); simplify_eq. split; [done|].
    by intros Hc%(carried_alter s _ c _ (guiClients s)).
  - destruct (sockets s !! c) as [w|]; [|done].
    destruct (decide (readyState w = CLOSED)); [done|].
    destruct (handleDisconnection c _) as [s1 out1] eqn:Hd. simplify_eq.
    assert (¬ carried
              (set_sockets
                 (alter (λ w, {| readyState := CLOSED;
                                 clientType := clientType w;
                                 agentId := agentId w |}) c (sockets s)) s)
              (Uuid n)) as Hno1.
    { by intros Hc%(carried_alter s _ c _ (guiClients s)). }
    split.
    + eapply handleDisconnection_orphan; [|exact Hno1|exact Hd]. done.
    + destruct (handleDisconnection_sockets _ _ _ _ Hd) as [Hsock _].
      intros (ws & w0 & Hw0 & Hid0). apply Hno1. exists ws, w0.
      by rewrite <-Hsock.
  - destruct (demo s); simplify_eq. split.
    + simpl. by rewrite Map_get_set_ne.
    + intros (ws & w & Hw & Hid). apply Hno. by exists ws, w.
  - destruct (demo s) as [|a0|]; simplify_eq. split; [done|].
    intros (ws & w & Hw & Hid). apply Hno. by exists ws, w.
Qed.

Lemma orphan_run s es s' out n a :
  reachable s →
  Map_get (Uuid n) (agents s) = Some a →
  ¬ carried s (Uuid n) →
  run s es = Some (s', out) →
  Map_get (Uuid n) (agents s') = Some a ∧ ¬ carried s' (Uuid n).
Proof.
  revert s out. induction es as [|e es IH]; simpl; intros s out Hs Ha Hno Hrun.
  - by simplify_eq.
  - destruct (step s e) as [[s1 out1]|] eqn:Hstep; [|done].
    destruct (run s1 es) as [[s2 out2]|] eqn:Hrest; [|done]. simplify_eq.
    destruct (orphan_step _ _ _ _ _ _ Hs Ha Hno Hstep) as [Ha1 Hno1].
    eapply IH; [|done..]. by eapply reachable_step.
Qed.

(** X10: an Agent record whose id no socket carries is out of reach: over any
    run of the hub it is neither changed nor deleted, and no socket comes
    to carry its id. *)
Theorem unreferenced_agent_stays s es s' out n a :
  reachable s →
  Map_get (Uuid n) (agents s) = Some a →
  ¬ carried s (Uuid n) →
  run s es = Some (s', out) →
  Map_get (Uuid n) (agents s') = Some a ∧ ¬ carried s' (Uuid n).
Proof. apply orphan_run. Qed.

Lemma unreferenced_agent_stays_witness :
  reachable (after registered_again)
  ∧ Map_get (Uuid 0) (agents (after registered_again)) = Some analyst
  ∧ ¬ carried (after registered_again) (Uuid 0)
  ∧ ∃ s' out,
      run (after registered_again)
        [Message 0 "t3" (AgentUpdate (Some busy)); Closing 0; Close 0]
      = Some (s', out)
      ∧ Map_get (Uuid 0) (agents s') = Some analyst.
Proof.
  assert (reachable (after registered_again)) as Hs by apply reachable_after.
  assert (¬ carried (after registered_again) (Uuid 0)) as Hno.
  { intros (ws & w & Hw & Hid). vm_compute in Hw.
    destruct ws as [|[|[|ws]]]; simplify_eq; by vm_compute in Hid. }
  split_and!; [exact Hs|reflexivity|exact Hno|].
  destruct (run (after registered_again) _) as [[s' out]|] eqn:Hrun;
    [|by vm_compute in Hrun].
  exists s', out. split; [reflexivity|].
  exact (proj1 (unreferenced_agent_stays (after registered_again) _ s' out
                  0 analyst Hs eq_refl Hno Hrun)).
Defined.

(** X11: a connection that registers as agent a second time leaves its first
    Agent record behind: the record stays in the registry, no socket
    carries its id any more, and so nothing the hub does later changes or
    deletes it, the closing of the connection included. *)
Theorem reregistration_orphans s ws w id a now data s1 out1 :
  reachable s →
  sockets s !! ws = Some w →
  agentId w = Some id →
  Map_get id (agents s) = Some a →
  step s (Message ws now (RegisterAgent (Some data))) = Some (s1, out1) →
  Map_get id (agents s1) = Some a
  ∧ ¬ carried s1 id
  ∧ ∀ es s' out,
      run s1 es = Some (s', out) → Map_get id (agents s') = Some a.
Proof.
  intros Hs Hw Hid Ha Hstep.
  pose proof (Forall_lookup_1 _ _ _ _
                (inv_sockets s (registry_inv_reachable s Hs)) Hw) as Hok.
  unfold socket_ok in Hok. rewrite Hid in Hok. destruct Hok as [n ->].
  pose proof (agents_fresh s Hs n a Ha) as Hn.
  destruct (carriers_reachable s Hs) as [Hdrawn Huniq].
  assert (Map_get (Uuid n) (agents s1) = Some a ∧ ¬ carried s1 (Uuid n))
    as [Ha1 Hno1].
  { simpl in Hstep. destruct (is_open s ws); [|done].
    injection Hstep as <- _. split.
    - simpl. rewrite Map_get_set_ne; [done|]. intros [= ?]. lia.
    - intros (c & w1 & Hw1 & Hid1). simpl in Hw1.
      rewrite list_lookup_alter in Hw1. case_decide as Hc.
      + subst c. rewrite Hw in Hw1. simpl in Hw1. simplify_eq.
        simpl in Hid1. simplify_eq. lia.
      + apply Hc. by eapply (Huniq ws c w w1 (Uuid n)). }
  split_and!; [done..|]. intros es s' out Hrun.
  eapply (orphan_run s1 es s' out n a); [|done..].
  by eapply reachable_step.
Qed.

Lemma reregistration_orphans_witness :
  reachable (after agent_registered)
  ∧ Map_get (Uuid 0) (agents (after agent_registered)) = Some analyst
  ∧ ∃ s1 out1 s' out,
      step (after agent_registered)
        (Message 0 "t2" (RegisterAgent (Some {| ad_name := Some "Analyst" |})))
      = Some (s1, out1)
      ∧ run s1 [Close 0] = Some (s', out)
      ∧ (agents s').*1 = [Uuid 0]
      ∧ Map_get (Uuid 0) (agents s') = Some analyst.
Proof.
  assert (reachable (after agent_registered)) as Hs by apply reachable_after.
  split_and!; [exact Hs|reflexivity|].
  destruct (step (after agent_registered) _) as [[s1 out1]|] eqn:Hstep;
    [|by vm_compute in Hstep].
  destruct (run s1 [Close 0]) as [[s' out]|] eqn:Hrun.
  2: { vm_compute in Hstep. injection Hstep as <- _. by vm_compute in Hrun. }
  exists s1, out1, s', out. split_and!; [reflexivity|exact Hrun| |].
  - vm_compute in Hstep. injection Hstep as <- _.
    vm_compute in Hrun. by injection Hrun as <- _.
  - destruct (reregistration_orphans (after agent_registered) 0
                {| readyState := OPEN; clientType := Some "agent";
                   agentId := Some (Uuid 0) |}
                (Uuid 0) analyst "t2" {| ad_name := Some "Analyst" |}
                s1 out1 Hs eq_refl eq_refl eq_refl Hstep)
      as (_ & _ & Hstay).
    exact (Hstay [Close 0] s' out Hrun).
Defined.

End Orphans.

(** ** The lists of the page *)

Section PageLists.
Import App Spec Examples.
Implicit Types (s : app) (t : clock).

Lemma scan_view attempt ports prev s :
  agents (scan attempt ports prev s) = agents s
  ∧ humanRequests (scan attempt ports prev s) = humanRequests s
  ∧ contentItems (scan attempt ports prev s) = contentItems s
  ∧ latestContent (scan attempt ports prev s) = latestContent s
  ∧ currentContentIndex (scan attempt ports prev s) = currentContentIndex s
  ∧ currentRequestId (scan attempt ports prev s) = currentRequestId s.
Proof.
  revert prev s. induction ports as [|p ports IH]; intros prev s.
  - by destruct prev.
  - destruct (attempt p) eqn:Hp.
    + rewrite scan_cons_opens by done. by destruct prev.
    + rewrite scan_cons_fails by done.
      destruct (IH (Some (length (sockets s)))
                  (onerror p (close_due prev (new_WebSocket p s).2)))
        as (-> & -> & -> & -> & -> & ->). by destruct prev.
Qed.

Lemma find_by_None_not_elem {A I} `{EqDecision I} (key : A → I) i (l : list A) :
  find_by key i l = None → i ∉ key <$> l.
Proof.
  intros Hnone Hin. apply (find_by_elem key) in Hin as [x Hx]. congruence.
Qed.

Lemma NoDup_fmap_snoc {A I} (key : A → I) (l : list A) (x : A) :
  NoDup (key <$> l) → key x ∉ key <$> l → NoDup (key <$> (l ++ [x])).
Proof.
  intros Hl Hx. rewrite fmap_app. apply NoDup_app. split_and!; [done| |].
  - intros i Hi ->%list_elem_of_singleton. done.
  - apply NoDup_singleton.
Qed.

Lemma NoDup_fmap_filter {A I} (key : A → I) (P : A → Prop)
    `{∀ x, Decision (P x)} (l : list A) :
  NoDup (key <$> l) → NoDup (key <$> filter P l).
Proof.
  induction l as [|x l IH]; [done|]. rewrite fmap_cons, filter_cons.
  intros [Hx Hl]%NoDup_cons. destruct (decide (P x)); [|by auto].
  rewrite fmap_cons. apply NoDup_cons. split; [|by auto].
  intros (y & Hy & Hin)%list_elem_of_fmap. apply Hx.
  apply list_elem_of_fmap. exists y. split; [done|].
  by apply list_elem_of_filter in Hin as [_ ?].
Qed.

Lemma mark_completed_ids id (l : list request) :
  r_id <$> mark_completed id l = r_id <$> l.
Proof.
  induction l as [|r l IH]; [done|]. simpl.
  destruct (decide (r_id r = id)); simpl; [done|]. f_equal. apply IH.
Qed.

Lemma addAgent_distinct a s : lists_distinct s → lists_distinct (addAgent a s).
Proof.
  intros [Ha Hr Hc]. unfold addAgent.
  destruct (find_by a_id (a_id a) (agents s)) eqn:Hfind; [done|].
  split; [|done..]. simpl.
  apply NoDup_fmap_snoc; [done|]. by apply find_by_None_not_elem.
Qed.

Lemma addRequest_distinct r s :
  lists_distinct s → lists_distinct (addRequest r s).
Proof.
  intros [Ha Hr Hc]. unfold addRequest.
  destruct (find_by r_id (r_id r) (humanRequests s)) eqn:Hfind; [done|].
  split; [done| |done]. simpl.
  apply NoDup_fmap_snoc; [done|]. by apply find_by_None_not_elem.
Qed.

Lemma addContentItem_distinct t c s :
  lists_distinct s → lists_distinct (addContentItem t c s).
Proof.
  intros [Ha Hr Hc]. unfold addContentItem.
  destruct (find_by c_id _ (contentItems s)) eqn:Hfind; [done|].
  split; [done..|]. simpl.
  apply NoDup_fmap_snoc; [done|]. by apply find_by_None_not_elem.
Qed.

Lemma step_distinct s e s' :
  step s e = Some s' → lists_distinct s → lists_distinct s'.
Proof.
  intros Hstep Hs. destruct e; simpl in Hstep.
  - case_decide; [|done]. simplify_eq. destruct Hs as [Ha Hr Hc].
    unfold connectToWebSocket.
    match goal with
    | |- lists_distinct (scan ?a ?p ?v ?x) =>
        destruct (scan_view a p v x) as (Ea & Er & Ec & _)
    end.
    split; [by rewrite Ea|by rewrite Er|by rewrite Ec].
  - destruct (socket_open _ _); simplify_eq. by destruct Hs.
  - destruct (socket_open _ _); [|done]. simplify_eq.
    destruct data; simpl;
      auto using addAgent_distinct, addRequest_distinct,
        addContentItem_distinct.
    destruct Hs as [Ha Hr Hc]. split; [|done..]. simpl.
    by apply NoDup_fmap_filter.
  - simplify_eq. unfold openResponseModal.
    destruct (find_by _ _ _); [|done]. by destruct Hs.
  - simplify_eq. by destruct Hs.
  - simplify_eq. unfold submitResponse.
    repeat case_match; try done; try (by destruct Hs).
    destruct Hs as [Ha Hr Hc].
    split; [done| |done]. simpl. by rewrite mark_completed_ids.
  - simplify_eq. unfold navigateContentPrevious.
    case_decide; [done|]. by destruct Hs.
  - simplify_eq. unfold navigateContentNext.
    case_decide; [done|]. by destruct Hs.
  - simplify_eq. unfold viewContentItem.
    destruct (findIndex_by _ _ _); [|done]. by destruct Hs.
  - simplify_eq. destruct confirm; [|done]. destruct Hs as [Ha Hr Hc].
    split; [done..|apply NoDup_nil_2].
  - simplify_eq. destruct confirm; [|done]. destruct Hs as [Ha Hr Hc].
    split; [done|apply NoDup_nil_2|done].
  - simplify_eq. by destruct Hs.
  - simplify_eq. by destruct Hs.
  - destruct (sockets s !! sock) as [w|]; [|done].
    case_decide; [|done]. simplify_eq. by destruct Hs.
Qed.

Lemma reachable_distinct s : reachable s → lists_distinct s.
Proof.
  induction 1 as [attempt status|s e s' _ IH Hstep].
  - unfold connectToWebSocket.
    destruct (scan_view attempt (seqZ 8080 120) None (new status))
      as (Ea & Er & Ec & _).
    split; [rewrite Ea|rewrite Er|rewrite Ec]; apply NoDup_nil_2.
  - by eapply step_distinct.
Qed.

(** X12: the page never lists an id twice: in every state it can reach, the
    ids of the agents it lists are distinct, and so are the ids of its
    requests and those of its content items. *)
Theorem page_lists_distinct s : reachable s → lists_distinct s.
Proof. apply reachable_distinct. Qed.

Lemma page_lists_distinct_witness :
  reachable (page_after browsing)
  ∧ length (contentItems (page_after browsing)) = 2
  ∧ NoDup (c_id <$> contentItems (page_after browsing)).
Proof.
  assert (reachable (page_after browsing)) as Hs
    by apply reachable_page_after.
  split_and!; [exact Hs|reflexivity|].
  exact (content_distinct _ (page_lists_distinct _ Hs)).
Defined.

(** X13: removing an agent removes it: no agent with that id is listed
    afterwards, the others stay in their order, and nothing else on the
    page changes; and an agent that was not listed, once added and removed,
    leaves the page as it was. *)
Theorem removeAgent_removes agentId s :
  (agentId ∉ a_id <$> agents (removeAgent agentId s))
  ∧ agents (removeAgent agentId s) `sublist_of` agents s
  ∧ (∀ a, a ∈ agents s → a_id a ≠ agentId → a ∈ agents (removeAgent agentId s))
  ∧ humanRequests (removeAgent agentId s) = humanRequests s
  ∧ ∀ a, a_id a = agentId → agentId ∉ (a_id <$> agents s) →
         removeAgent agentId (addAgent a s) = s.
Proof.
  split_and!.
  - simpl. intros (a & Ha & Hin)%list_elem_of_fmap.
    apply list_elem_of_filter in Hin as [Hne _]. done.
  - simpl. apply sublist_filter.
  - intros a Hin Hne. simpl. by apply list_elem_of_filter.
  - done.
  - intros a <- Hnew. unfold addAgent.
    rewrite (find_by_not_elem a_id (a_id a) (agents s) Hnew).
    unfold removeAgent. simpl. rewrite filter_app, filter_cons, filter_nil.
    rewrite decide_False by (intros Hne; by apply Hne).
    rewrite app_nil_r.
    assert (filter (λ a0, a_id a0 ≠ a_id a) (agents s) = agents s) as ->.
    { clear -Hnew. induction (agents s) as [|b l IH]; [done|].
      rewrite fmap_cons in Hnew. apply not_elem_of_cons in Hnew as [Hb Hl].
      rewrite filter_cons, decide_True by done. by rewrite IH. }
    by destruct s.
Qed.

Lemma removeAgent_removes_witness :
  a_id analyst = Uuid 0
  ∧ (Uuid 0 ∉ a_id <$> agents connected_page)
  ∧ removeAgent (Uuid 0) (addAgent analyst connected_page) = connected_page.
Proof.
  assert (Uuid 0 ∉ (a_id <$> agents connected_page)) as Hnew.
  { vm_compute. apply not_elem_of_nil. }
  split_and!; [reflexivity|exact Hnew|].
  exact (proj2 (proj2 (proj2 (proj2 (removeAgent_removes (Uuid 0)
                                        connected_page))))
           analyst eq_refl Hnew).
Defined.

End PageLists.

(** ** The content history and its cursor *)

Section Cursor.
Import App Spec Examples.
Implicit Types (s : app) (t : clock).

Lemma set_content_same s :
  set_content (contentItems s) (latestContent s) (currentContentIndex s) s = s.
Proof. by destruct s. Qed.

Lemma addContentItem_cursor t c s :
  cursor_ok s → cursor_ok (addContentItem t c s).
Proof.
  intros Hs. unfold addContentItem.
  destruct (find_by c_id _ (contentItems s)); [done|].
  right. simpl. rewrite length_app. simpl. split; [lia|].
  replace (Z.to_nat (Z.of_nat (length (contentItems s) + 1) - 1))
    with (length (contentItems s)) by lia.
  by rewrite list_lookup_middle.
Qed.

Lemma step_cursor s e s' : step s e = Some s' → cursor_ok s → cursor_ok s'.
Proof.
  intros Hstep Hs. destruct e; simpl in Hstep.
  - case_decide; [|done]. simplify_eq. unfold connectToWebSocket, cursor_ok.
    match goal with
    | |- context [scan ?a ?p ?v ?x] =>
        destruct (scan_view a p v x) as (_ & _ & -> & -> & -> & _)
    end. done.
  - destruct (socket_open _ _); by simplify_eq.
  - destruct (socket_open _ _); [|done]. simplify_eq.
    destruct data; simpl; auto using addContentItem_cursor.
    + unfold addAgent. by destruct (find_by _ _ _).
    + unfold addRequest. by destruct (find_by _ _ _).
  - simplify_eq. unfold openResponseModal. by destruct (find_by _ _ _).
  - by simplify_eq.
  - simplify_eq. unfold submitResponse. by repeat case_match.
  - simplify_eq. unfold navigateContentPrevious.
    case_decide as Hlen; [done|]. right. simpl.
    destruct Hs as [(Hnil & _)|[Hrange Hlatest]];
      [by rewrite Hnil in Hlen|].
    unfold js_index. case_decide; simpl.
    + rewrite decide_True by lia. split; [lia|done].
    + assert (0 < length (contentItems s))%nat by lia.
      rewrite decide_True by lia. split; [lia|done].
  - simplify_eq. unfold navigateContentNext.
    case_decide as Hlen; [done|]. right. simpl.
    destruct Hs as [(Hnil & _)|[Hrange Hlatest]];
      [by rewrite Hnil in Hlen|].
    unfold js_index. case_decide; simpl.
    + rewrite decide_True by lia. split; [lia|done].
    + split; [lia|done].
  - simplify_eq. unfold viewContentItem, findIndex_by.
    destruct (list_find _ (contentItems s)) as [[i c]|] eqn:Hfind; [|done].
    apply list_find_Some in Hfind as (Hi & _ & _). right. simpl.
    rewrite Nat2Z.id. split; [|done]. apply lookup_lt_Some in Hi. lia.
  - simplify_eq. destruct confirm; [|done]. by left.
  - simplify_eq. by destruct confirm.
  - by simplify_eq.
  - by simplify_eq.
  - destruct (sockets s !! sock) as [w|]; [|done].
    case_decide; by simplify_eq.
Qed.

Lemma reachable_cursor s : reachable s → cursor_ok s.
Proof.
  induction 1 as [attempt status|s e s' _ IH Hstep].
  - left. unfold connectToWebSocket.
    destruct (scan_view attempt (seqZ 8080 120) None (new status))
      as (_ & _ & -> & -> & -> & _). done.
  - by eapply step_cursor.
Qed.

(** X14: the item on show is always the one at the cursor: in every state the
    page can reach, either the history is empty, nothing is on show and the
    cursor is -1, or the cursor is a position of the history and the item
    on show is the item at that position. *)
Theorem cursor_in_range s : reachable s → cursor_ok s.
Proof. apply reachable_cursor. Qed.

Lemma cursor_in_range_witness :
  reachable (page_after browsing)
  ∧ currentContentIndex (page_after browsing) = 0%Z
  ∧ latestContent (page_after browsing) = Some report
  ∧ cursor_ok (page_after browsing).
Proof.
  assert (reachable (page_after browsing)) as Hs
    by apply reachable_page_after.
  split_and!; [exact Hs|reflexivity|reflexivity|].
  exact (cursor_in_range _ Hs).
Defined.

(** X15: stepping forward and then back, or back and then forward, through the
    history brings the page back to where it was, in every state the page
    can reach; at either end the cursor wraps around, and the history is
    never changed by it. *)
Theorem navigate_round_trip s :
  reachable s →
  navigateContentPrevious (navigateContentNext s) = s
  ∧ navigateContentNext (navigateContentPrevious s) = s
  ∧ contentItems (navigateContentNext s) = contentItems s
  ∧ contentItems (navigateContentPrevious s) = contentItems s.
Proof.
  intros Hs%reachable_cursor.
  assert (contentItems (navigateContentNext s) = contentItems s) as Hnext.
  { unfold navigateContentNext. by case_decide. }
  assert (contentItems (navigateContentPrevious s) = contentItems s) as Hprev.
  { unfold navigateContentPrevious. by case_decide. }
  split_and!; [| |done..].
  - clear Hnext Hprev.
    destruct s as [ag hr items latest idx rid tab mtab w ri socks ts n st ob er].
    unfold navigateContentPrevious, navigateContentNext, cursor_ok in *.
    simpl in *.
    destruct Hs as [(-> & -> & ->)|[Hrange ->]]; [done|].
    destruct (decide (length items = 0)) as [Hlen|Hlen]; simpl;
      [by rewrite decide_True|].
    rewrite decide_False by done. unfold set_content, js_index. simpl.
    repeat case_decide; try lia; f_equal; f_equal; lia.
  - clear Hnext Hprev.
    destruct s as [ag hr items latest idx rid tab mtab w ri socks ts n st ob er].
    unfold navigateContentPrevious, navigateContentNext, cursor_ok in *.
    simpl in *.
    destruct Hs as [(-> & -> & ->)|[Hrange ->]]; [done|].
    destruct (decide (length items = 0)) as [Hlen|Hlen]; simpl;
      [by rewrite decide_True|].
    rewrite decide_False by done. unfold set_content, js_index. simpl.
    repeat case_decide; try lia; f_equal; f_equal; lia.
Qed.

Lemma navigate_round_trip_witness :
  reachable (page_after browsing)
  ∧ currentContentIndex (navigateContentPrevious (page_after browsing)) = 1%Z
  ∧ navigateContentNext (navigateContentPrevious (page_after browsing))
    = page_after browsing.
Proof.
  assert (reachable (page_after browsing)) as Hs
    by apply reachable_page_after.
  split_and!; [exact Hs|reflexivity|].
  exact (proj1 (proj2 (navigate_round_trip _ Hs))).
Defined.

End Cursor.

(** ** New content, counters and ages *)

Section Display.
Import App Spec Examples.
Implicit Types (s : app) (t : clock).

(** X16: appending a content item whose id is not in the history (the id it
    came with, or, when that is missing or empty, the id made from the
    clock and a random suffix) adds it at the end of the history, puts it
    on show and moves the cursor to it; the lists of agents and requests
    are not touched. *)
Theorem content_append_new t item s :
  let item' :=
    if truthy (c_id item) then item
    else with_id (Date_now t +:+ "-" +:+ Math_random t) item in
  (c_id item' ∉ c_id <$> contentItems s) →
  contentItems (addContentItem t item s) = contentItems s ++ [item']
  ∧ latestContent (addContentItem t item s) = Some item'
  ∧ currentContentIndex (addContentItem t item s)
    = Z.of_nat (length (contentItems s))
  ∧ truthy (c_id item') = true
  ∧ agents (addContentItem t item s) = agents s
  ∧ humanRequests (addContentItem t item s) = humanRequests s.
Proof.
  intros item' Hnew. unfold addContentItem. fold item'.
  rewrite (find_by_not_elem c_id (c_id item') (contentItems s) Hnew). simpl.
  split_and!; try done.
  - rewrite length_app. simpl. lia.
  - unfold item'. destruct (truthy (c_id item)) eqn:Hid; [done|].
    apply generated_id_truthy.
Qed.

Lemma content_append_new_witness :
  (Some "1735732800000-k3j9x0q1z" ∉ c_id <$> contentItems connected_page)
  ∧ (c_id <$> contentItems (addContentItem noon unlabelled connected_page))
    = [Some "1735732800000-k3j9x0q1z"]
  ∧ currentContentIndex (addContentItem noon unlabelled connected_page)
    = 0%Z.
Proof.
  assert (Some "1735732800000-k3j9x0q1z"
          ∉ c_id <$> contentItems connected_page) as Hnew.
  { vm_compute. apply not_elem_of_nil. }
  split; [exact Hnew|].
  destruct (content_append_new noon unlabelled connected_page Hnew)
    as (Hitems & _ & Hidx & _).
  split.
  - rewrite Hitems. reflexivity.
  - rewrite Hidx. reflexivity.
Defined.





(** X18: the age shown for a timestamp.  A timestamp less than a minute old,
    or in the future, reads "Just now"; "n m ago" is shown for n from 1 to
    59, the whole minutes elapsed; "n h ago" for n from 1 to 23, the whole
    hours elapsed; from 24 hours on, and for a timestamp that is no date,
    the date itself is shown. *)
Theorem formatTimestamp_ages (diffMs : Z) :
  (formatTimestamp (Some diffMs) = JustNow ↔ (diffMs < 60000)%Z)
  ∧ (∀ n, formatTimestamp (Some diffMs) = MinutesAgo n ↔
          (1 ≤ n ≤ 59 ∧ 60000 * n ≤ diffMs < 60000 * (n + 1))%Z)
  ∧ (∀ n, formatTimestamp (Some diffMs) = HoursAgo n ↔
          (1 ≤ n ≤ 23 ∧ 3600000 * n ≤ diffMs < 3600000 * (n + 1))%Z)
  ∧ (formatTimestamp (Some diffMs) = LocaleDate ↔ (86400000 ≤ diffMs)%Z)
  ∧ formatTimestamp None = LocaleDate.
Proof.
  unfold formatTimestamp.
  pose proof (Z.div_mod diffMs 60000 ltac:(lia)) as Hm.
  pose proof (Z.mod_pos_bound diffMs 60000 ltac:(lia)) as Hmb.
  pose proof (Z.div_mod (diffMs `div` 60000) 60 ltac:(lia)) as Hh.
  pose proof (Z.mod_pos_bound (diffMs `div` 60000) 60 ltac:(lia)) as Hhb.
  set (m := (diffMs `div` 60000)%Z) in *.
  set (h := (m `div` 60)%Z) in *.
  split_and!.
  - repeat case_decide; split; intros; try done; lia.
  - intros n. repeat case_decide; split; intros Hn; try done;
      try (injection Hn as <-); try lia.
    f_equal. lia.
  - intros n. repeat case_decide; split; intros Hn; try done;
      try (injection Hn as <-); try lia.
    f_equal. lia.
  - repeat case_decide; split; intros; try done; lia.
  - done.
Qed.

End Display.

(** ** What the page sends *)

Section PageFrames.
Import App Spec Examples.
Implicit Types (s : app) (t : clock).

Lemma first_open attempt (ports : list Z) :
  Forall (λ q, attempt q = Fails) ports
  ∨ ∃ before p rest,
      ports = before ++ p :: rest
      ∧ Forall (λ q, attempt q = Fails) before
      ∧ attempt p = Opens.
Proof.
  induction ports as [|q ports IH]; [by left|].
  assert (attempt q = Opens ∨ attempt q = Fails) as [Hq|Hq]
    by (destruct (attempt q); auto).
  - right. exists [], q, ports. by split_and!.
  - destruct IH as [Hall|(before & p & rest & -> & Hbefore & Hp)].
    + left. by apply Forall_cons.
    + right. exists (q :: before), p, rest. split_and!; [done| |done].
      by apply Forall_cons.
Qed.

Lemma scan_sockets_length attempt ports prev s :
  length (sockets (scan attempt ports prev s))
  = (length (sockets s) + length (probed attempt ports))%nat.
Proof.
  rewrite <-(length_fmap port), scan_ports, length_app, length_fmap. done.
Qed.

(** What one call of [connectToWebSocket] sends: nothing, or one
    [register-gui] on a socket it has created. *)
Lemma connect_outbox attempt s :
  let s' := connectToWebSocket attempt s in
  (length (sockets s) ≤ length (sockets s'))%nat
  ∧ (outbox s' = outbox s
     ∨ ∃ sock, outbox s' = outbox s ++ [(sock, RegisterGui)]
               ∧ (sock < length (sockets s'))%nat).
Proof.
  unfold connectToWebSocket. cbv zeta. split.
  { rewrite scan_sockets_length. lia. }
  destruct (first_open attempt (seqZ 8080 120))
    as [Hall|(before & p & rest & Hports & Hbefore & Hp)].
  - left. by destruct (scan_exhausted attempt _ None s Hall) as (_ & -> & _).
  - right. rewrite Hports.
    destruct (scan_adopts attempt before p rest None s Hbefore Hp)
      as (_ & Hsock & _ & Hout & _); [done|].
    eexists. split; [exact Hout|]. by eapply lookup_lt_Some.
Qed.

Lemma frames_weaken (l : list (nat * message)) (n m : nat) :
  (n ≤ m)%nat →
  Forall (λ f, page_frame f.2 ∧ (f.1 < n)%nat) l →
  Forall (λ f, page_frame f.2 ∧ (f.1 < m)%nat) l.
Proof.
  intros Hnm Hl. eapply Forall_impl; [exact Hl|].
  intros f [? ?]. split; [done|lia].
Qed.

Lemma step_page_frames s e s' :
  step s e = Some s' →
  Forall (λ f, page_frame f.2 ∧ (f.1 < length (sockets s))%nat) (outbox s) →
  Forall (λ f, page_frame f.2 ∧ (f.1 < length (sockets s'))%nat) (outbox s').
Proof.
  intros Hstep Hs. destruct e; simpl in Hstep.
  - case_decide; [|done]. simplify_eq.
    match goal with
    | |- context [connectToWebSocket ?a ?x] =>
        destruct (connect_outbox a x) as [Hlen [Hout|(sock & Hout & Hsock)]]
    end; simpl in Hlen, Hout; rewrite Hout.
    + eapply frames_weaken; [exact Hlen|exact Hs].
    + apply Forall_app. split; [eapply frames_weaken; [exact Hlen|exact Hs]|].
      apply Forall_singleton. split; [by left|done].
  - destruct (socket_open _ _); simplify_eq. simpl.
    unfold set_readyState. by rewrite length_alter.
  - destruct (socket_open _ _); [|done]. simplify_eq.
    destruct data; simpl; try done.
    + unfold addAgent. by destruct (find_by _ _ _).
    + unfold addRequest. by destruct (find_by _ _ _).
    + unfold addContentItem. by destruct (find_by _ _ _).
    + unfold addContentItem. by destruct (find_by _ _ _).
    + unfold addContentItem. by destruct (find_by _ _ _).
    + unfold addContentItem. by destruct (find_by _ _ _).
  - simplify_eq. unfold openResponseModal. by destruct (find_by _ _ _).
  - by simplify_eq.
  - simplify_eq. unfold submitResponse.
    destruct (currentRequestId s) as [requestId|]; [|done].
    destruct (truthy_ident _); [|done]. simpl.
    destruct response as [|c response]; [done|]. simpl.
    destruct (is_open s) as [w|] eqn:Hopen; [|done]. simpl.
    apply Forall_app. split; [done|]. apply Forall_singleton. split.
    + right. by eexists _, (String c response).
    + simpl. unfold is_open in Hopen.
      destruct (ws s) as [w0|]; [|done]. simpl in Hopen.
      destruct (sockets s !! w0) as [sock|] eqn:Hsock; [|done].
      simpl in Hopen. case_decide; [|done]. simplify_eq.
      by eapply lookup_lt_Some.
  - simplify_eq. unfold navigateContentPrevious. by case_decide.
  - simplify_eq. unfold navigateContentNext. by case_decide.
  - simplify_eq. unfold viewContentItem. by destruct (findIndex_by _ _ _).
  - simplify_eq. by destruct confirm.
  - simplify_eq. by destruct confirm.
  - by simplify_eq.
  - by simplify_eq.
  - destruct (sockets s !! sock) as [w|]; [|done].
    case_decide; by simplify_eq.
Qed.

(** X19: the page sends two kinds of frame and no other: [register-gui], and
    [human-input-response] with a response that is not empty; and it sends
    them on sockets it has created.  It never sends a request, an agent
    registration or update, or anything when a list is cleared. *)
Theorem page_sends_two_kinds s :
  reachable s →
  Forall (λ f, page_frame f.2 ∧ (f.1 < length (sockets s))%nat) (outbox s).
Proof.
  induction 1 as [attempt status|s e s' _ IH Hstep].
  - destruct (connect_outbox attempt (new status))
      as [_ [Hout|(sock & Hout & Hsock)]]; simpl in Hout; rewrite Hout.
    + apply Forall_nil_2.
    + apply Forall_singleton. split; [by left|done].
  - by eapply step_page_frames.
Qed.

Lemma page_sends_two_kinds_witness :
  reachable (page_after [OpenResponseModal (Uuid 1); SubmitResponse ""])
  ∧ outbox (page_after [OpenResponseModal (Uuid 1); SubmitResponse ""])
    = [(0, RegisterGui)]
  ∧ Forall (λ f, page_frame f.2)
      (outbox (page_after [OpenResponseModal (Uuid 1); SubmitResponse ""])).
Proof.
  assert (reachable (page_after [OpenResponseModal (Uuid 1);
                                 SubmitResponse ""])) as Hs
    by apply reachable_page_after.
  split_and!; [exact Hs|reflexivity|].
  eapply Forall_impl; [exact (page_sends_two_kinds _ Hs)|].
  by intros f [? _].
Defined.



(** X21: submitting sends nothing and changes no list when no response box
    is open, when the text is empty, or when the page has no open socket;
    nothing reaches the hub.  With no box open the page is left as it is.
    With a box open and an empty text the page reports ["Please enter a
    response"], and with a text and no open socket ["WebSocket connection
    not available"], each time on the console and in an alert, and changes
    nothing else: the box stays open. *)
Theorem submit_guards sys now response :
  currentRequestId (System.page sys) = None
  ∨ response = ""
  ∨ is_open (System.page sys) = None →
  let page := System.page sys in
  let page' := submitResponse response page in
  outbox page' = outbox page
  ∧ humanRequests page' = humanRequests page
  ∧ currentRequestId page' = currentRequestId page
  ∧ System.hub (System.user now (submitResponse response) sys)
    = System.hub sys
  ∧ (truthy_ident (currentRequestId page) = false → page' = page)
  ∧ (truthy_ident (currentRequestId page) = true →
     response = "" →
     page' = showError "Please enter a response" page)
  ∧ (truthy_ident (currentRequestId page) = true →
     response ≠ "" →
     page' = showError "WebSocket connection not available" page).
Proof.
  intros Hguard. cbv zeta.
  assert (submitResponse response (System.page sys)
          = if truthy_ident (currentRequestId (System.page sys)) then
              if truthy (Some response)
              then showError "WebSocket connection not available"
                     (System.page sys)
              else showError "Please enter a response" (System.page sys)
            else System.page sys) as Heq.
  { unfold submitResponse.
    destruct (currentRequestId (System.page sys)) as [requestId|] eqn:Hcur;
      [|done].
    destruct (truthy_ident (Some requestId)); [|done]. cbn [negb].
    destruct (truthy (Some response)) eqn:Hresp; [|done]. cbn [negb].
    destruct Hguard as [?|[Hempty|Hclosed]]; [done|by subst|by rewrite Hclosed]. }
  assert (outbox (submitResponse response (System.page sys))
          = outbox (System.page sys)) as Hout.
  { rewrite Heq. by repeat case_match. }
  split_and!.
  - done.
  - rewrite Heq. by repeat case_match.
  - rewrite Heq. by repeat case_match.
  - unfold System.user. cbv zeta. by rewrite Hout, drop_all.
  - rewrite Heq. by intros ->.
  - rewrite Heq. by intros -> ->.
  - rewrite Heq. intros -> Hresp. by destruct response.
Qed.

Lemma submit_guards_witness :
  (currentRequestId (System.page attached) = None
   ∧ submitResponse "Yes" (System.page attached) = System.page attached)
  ∧ (currentRequestId (System.page answering) = Some (Uuid 1)
     ∧ errors (submitResponse "" (System.page answering))
       = [ErrorShown "Please enter a response"]
     ∧ alerts (submitResponse "" (System.page answering))
       = ["Error: Please enter a response"]
     ∧ System.hub (System.user "t3" (submitResponse "") answering)
       = System.hub answering)
  ∧ (is_open (System.page offline) = None
     ∧ errors (submitResponse "Yes" (System.page offline))
       = [ErrorShown "WebSocket connection not available"]
     ∧ outbox (submitResponse "Yes" (System.page offline))
       = outbox (System.page offline)).
Proof.
  split_and!.
  - reflexivity.
  - exact (proj1 (proj2 (proj2 (proj2 (proj2
             (submit_guards attached "t3" "Yes" (or_introl eq_refl))))))
             eq_refl).
  - reflexivity.
  - destruct (submit_guards answering "t3" ""
                (or_intror (or_introl eq_refl)))
      as (_ & _ & _ & _ & _ & Hempty & _).
    cbv zeta in Hempty. rewrite (Hempty eq_refl eq_refl). reflexivity.
  - destruct (submit_guards answering "t3" ""
                (or_intror (or_introl eq_refl)))
      as (_ & _ & _ & _ & _ & Hempty & _).
    cbv zeta in Hempty. rewrite (Hempty eq_refl eq_refl). reflexivity.
  - exact (proj1 (proj2 (proj2 (proj2
             (submit_guards answering "t3" ""
                (or_intror (or_introl eq_refl))))))).
  - reflexivity.
  - destruct (submit_guards offline "t3" "Yes"
                (or_intror (or_intror eq_refl)))
      as (_ & _ & _ & _ & _ & _ & Hoff).
    cbv zeta in Hoff. rewrite (Hoff eq_refl ltac:(discriminate)).
    reflexivity.
  - exact (proj1 (submit_guards offline "t3" "Yes"
                    (or_intror (or_intror eq_refl)))).
Defined.

End PageFrames.

(** ** A page that registers *)

Section Rebuild.
Import Hub Spec Examples.
Implicit Types (s : hub) (ws : conn) (out : list effect).

Lemma Map_set_Forall {K V} `{EqDecision K} (P : K * V → Prop) k v
    (m : list (K * V)) :
  P (k, v) → Forall P m → Forall P (Map_set k v m).
Proof.
  intros Hkv. induction 1 as [|[k' v'] m Hk' Hm IH]; simpl.
  - by apply Forall_singleton.
  - destruct (decide (k = k')); apply Forall_cons; by split.
Qed.

Lemma Map_get_Forall {K V} `{EqDecision K} (P : K * V → Prop) k v
    (m : list (K * V)) :
  Forall P m → Map_get k m = Some v → P (k, v).
Proof.
  intros Hm Hk%Map_get_Some_elem. by apply (proj1 (Forall_forall _ _) Hm).
Qed.

Lemma onmessage_ids ws now msg s s' out :
  Forall (λ kv, r_id kv.2 = kv.1) (humanRequests s) →
  onmessage ws now msg s = (s', out) →
  Forall (λ kv, r_id kv.2 = kv.1) (humanRequests s').
Proof.
  intros Hs. unfold onmessage, handleMessage, returns.
  destruct msg as [|data|data|requestId response|data|type].
  - by intros [= <- _].
  - destruct data; by intros [= <- _].
  - destruct data; intros [= <- _]; [|done]. simpl. by apply Map_set_Forall.
  - unfold handleHumanInputResponse.
    destruct requestId as [id|]; simpl; [|by intros [= <- _]].
    destruct (Map_get id (humanRequests s)) as [r|] eqn:Hr; simpl;
      intros [= <- _]; [|done].
    simpl. apply Map_set_Forall; [|done]. simpl.
    by apply (Map_get_Forall _ _ _ _ Hs Hr).
  - unfold handleAgentUpdate.
    destruct (sockets s !! ws ≫= agentId) as [id|]; [|by intros [= <- _]].
    by destruct (Map_get id (agents s)); intros [= <- _].
  - by intros [= <- _].
Qed.

Lemma ledger_ids s :
  reachable s → Forall (λ kv, r_id kv.2 = kv.1) (humanRequests s).
Proof.
  induction 1 as [|s e s' out _ IH Hstep]; [apply Forall_nil_2|].
  destruct e as [|c now msg|c|c|now|now]; simpl in Hstep.
  - by simplify_eq.
  - destruct (is_open s c); [|done]. simplify_eq.
    by eapply onmessage_ids.
  - destruct (is_open s c); by simplify_eq.
  - destruct (sockets s !! c) as [w|]; [|done].
    destruct (decide (readyState w = CLOSED)); [done|].
    destruct (handleDisconnection c _) as [s1 out1] eqn:Hd. simplify_eq.
    by destruct (handleDisconnection_ledger _ _ _ _ Hd) as (-> & _).
  - destruct (demo s); by simplify_eq.
  - destruct (demo s) as [|a|]; simplify_eq. simpl.
    by apply Map_set_Forall.
Qed.

Lemma deliver_agents_only t (la : list agent) (page : App.app) :
  App.humanRequests
    (foldl (λ page e, App.handleWebSocketMessage t e page) page
       (AgentConnected <$> la))
  = App.humanRequests page.
Proof.
  revert page. induction la as [|a la IH]; intros page; [done|]. simpl.
  rewrite IH. unfold App.addAgent. by destruct (find_by _ _ _).
Qed.

Lemma deliver_requests t (lr : list request) (page : App.app) :
  NoDup (r_id <$> (App.humanRequests page ++ lr)) →
  App.humanRequests
    (foldl (λ page e, App.handleWebSocketMessage t e page) page
       (HumanInputRequestEvent <$> lr))
  = App.humanRequests page ++ lr.
Proof.
  revert page. induction lr as [|r lr IH]; intros page Hnodup; simpl.
  - by rewrite app_nil_r.
  - assert (find_by r_id (r_id r) (App.humanRequests page) = None) as Hnew.
    { apply find_by_not_elem. rewrite fmap_app in Hnodup.
      apply NoDup_app in Hnodup as (_ & Hdisj & _). intros Hin.
      apply (Hdisj _ Hin). rewrite fmap_cons. apply list_elem_of_here. }
    rewrite IH.
    + unfold App.addRequest. rewrite Hnew. simpl. by rewrite <-app_assoc.
    + unfold App.addRequest. rewrite Hnew. simpl. by rewrite <-app_assoc.
Qed.

(** X22: a page that registers with an empty list of requests rebuilds the
    ledger: from any state the hub can reach, after the page has handled
    the frames the hub writes to it on [register-gui], the page lists the
    requests of the ledger, each as the hub holds it, in the order of the
    ledger. *)
Theorem replay_rebuilds_ledger s ws now s' out t page :
  reachable s →
  step s (Message ws now RegisterGui) = Some (s', out) →
  App.humanRequests page = [] →
  App.humanRequests (System.deliver t ws out page)
  = Map_values (humanRequests s).
Proof.
  intros Hs Hstep Hempty. simpl in Hstep.
  destruct (is_open s ws) eqn:Hopen; [|done].
  unfold onmessage, handleMessage, registerGUI, returns in Hstep.
  cbn [fst snd] in Hstep. rewrite app_nil_r in Hstep.
  injection Hstep as <- <-.
  unfold System.deliver. simpl.
  rewrite sent_to_app, !sent_to_replay by (by rewrite is_open_tag).
  rewrite foldl_app, deliver_requests.
  - by rewrite deliver_agents_only, Hempty.
  - rewrite deliver_agents_only, Hempty. simpl.
    assert (r_id <$> Map_values (humanRequests s) = (humanRequests s).*1)
      as ->.
    { pose proof (ledger_ids s Hs) as Hids. unfold Map_values.
      induction Hids as [|[k v] m Hkv _ IH]; [done|]. simpl in *.
      f_equal; [done|apply IH]. }
    by apply ledger_keys_distinct.
Qed.

Lemma replay_rebuilds_ledger_witness :
  reachable (after two_requests)
  ∧ ∃ s' out,
      step (after two_requests) (Message 1 "t5" RegisterGui) = Some (s', out)
      ∧ r_id <$> App.humanRequests (System.deliver noon 1 out connected_page)
        = [Uuid 1; Named "demo-request-001"].
Proof.
  assert (reachable (after two_requests)) as Hs by apply reachable_after.
  split; [exact Hs|].
  destruct (step (after two_requests) (Message 1 "t5" RegisterGui))
    as [[s' out]|] eqn:Hstep; [|by vm_compute in Hstep].
  exists s', out. split; [reflexivity|].
  rewrite (replay_rebuilds_ledger (after two_requests) 1 "t5" s' out noon
             connected_page Hs Hstep eq_refl).
  reflexivity.
Defined.

End Rebuild.

(** ** One scan for the hub *)

Section Scan.
Import App Spec Examples.
Implicit Types (s : app) (attempt : Z → outcome).

(** X23: a scan stops at the first port that opens.  When the candidates up to
    a port are all refused and that port opens, one call of
    [connectToWebSocket] creates a socket for each of those candidates and
    for that port, in this order, and for no port after it; the socket of
    that port is adopted and open, the status reads Connected and
    [register-gui] is sent on it.  On the console there is one error for
    each port refused, written by [ws.onerror], and no report that the
    server was not found. *)
Theorem scan_stops_at_first_open attempt before p rest s :
  seqZ 8080 120 = before ++ p :: rest →
  Forall (λ q, attempt q = Fails) before →
  attempt p = Opens →
  let s' := connectToWebSocket attempt s in
  let sock := (length (sockets s) + length before)%nat in
  port <$> sockets s' = (port <$> sockets s) ++ before ++ [p]
  ∧ ws s' = Some sock
  ∧ sockets s' !! sock = Some {| port := p; readyState := OPEN |}
  ∧ connectionStatus s' = "Connected"
  ∧ outbox s' = outbox s ++ [(sock, RegisterGui)]
  ∧ errors s' = errors s ++ (WebSocketError <$> before).
Proof.
  intros Hports Hbefore Hp. unfold connectToWebSocket. cbv zeta.
  rewrite Hports. split.
  - by rewrite scan_ports, probed_until_open.
  - by apply scan_adopts.
Qed.

Lemma scan_stops_at_first_open_witness :
  seqZ 8080 120 = [8080; 8081; 8082]%Z ++ 8083%Z :: seqZ 8084 116
  ∧ Forall (λ q, hub_on_8083 q = Fails) [8080; 8081; 8082]%Z
  ∧ hub_on_8083 8083 = Opens
  ∧ port <$> sockets (connectToWebSocket hub_on_8083 (new "Connecting..."))
    = [8080; 8081; 8082; 8083]%Z
  ∧ ws (connectToWebSocket hub_on_8083 (new "Connecting...")) = Some 3
  ∧ errors (connectToWebSocket hub_on_8083 (new "Connecting..."))
    = [WebSocketError 8080; WebSocketError 8081; WebSocketError 8082].
Proof.
  assert (seqZ 8080 120 = [8080; 8081; 8082]%Z ++ 8083%Z :: seqZ 8084 116)
    as Hports by (vm_compute; reflexivity).
  assert (Forall (λ q, hub_on_8083 q = Fails) [8080; 8081; 8082]%Z)
    as Hbefore by (repeat constructor).
  destruct (scan_stops_at_first_open hub_on_8083 _ _ _
              (new "Connecting...") Hports Hbefore eq_refl)
    as (Hsocks & Hws & _ & _ & _ & Herr).
  split_and!; [exact Hports|exact Hbefore|reflexivity|..].
  - exact Hsocks.
  - exact Hws.
  - exact Herr.
Defined.

(** X24: a scan that finds nothing.  When every candidate is refused, one
    call of [connectToWebSocket] creates a socket for each of the 120 ports
    from 8080 to 8199, in ascending order, adopts none and sends nothing;
    on the console there is one error for each port, written by
    [ws.onerror], and after them the report that the server was not found;
    and the call leaves 120 more timers armed than before, one for the
    close of each socket it tried. *)
Theorem scan_finds_nothing attempt s :
  Forall (λ q, attempt q = Fails) (seqZ 8080 120) →
  let s' := connectToWebSocket attempt s in
  port <$> sockets s' = (port <$> sockets s) ++ seqZ 8080 120
  ∧ ws s' = ws s
  ∧ outbox s' = outbox s
  ∧ errors s'
    = errors s ++ (WebSocketError <$> seqZ 8080 120) ++ [ServerNotFound]
  ∧ length (timers s') = (length (timers s) + 120)%nat.
Proof.
  intros Hall. unfold connectToWebSocket. cbv zeta. split.
  - by rewrite scan_ports, probed_all.
  - destruct (scan_exhausted attempt _ None s Hall) as (-> & -> & -> & ->).
    split_and!; try done; rewrite length_seqZ; lia.
Qed.

Lemma scan_finds_nothing_witness :
  Forall (λ q, nobody_listens q = Fails) (seqZ 8080 120)
  ∧ length (errors (connectToWebSocket nobody_listens (new "Connecting...")))
    = 121%nat
  ∧ last (errors (connectToWebSocket nobody_listens (new "Connecting...")))
    = Some ServerNotFound
  ∧ ws (connectToWebSocket nobody_listens (new "Connecting...")) = None.
Proof.
  assert (Forall (λ q, nobody_listens q = Fails) (seqZ 8080 120)) as Hall.
  { apply Forall_forall. by intros q _. }
  split; [exact Hall|].
  destruct (scan_finds_nothing nobody_listens (new "Connecting...") Hall)
    as (_ & Hws & _ & Herr & _).
  split_and!; [| |exact Hws].
  - rewrite Herr. reflexivity.
  - rewrite Herr. reflexivity.
Defined.

End Scan.

(** ** Connections that have closed *)

Section Closed.
Import Hub Spec Examples.
Implicit Types (s : hub) (ws : conn) (out : list effect).

Lemma sent_to_none ws out : (∀ m, (ws, m) ∉ sent out) → sent_to ws out = [].
Proof.
  induction out as [|[c m|line] out IH]; intros Hno; [done|..].
  - simpl. destruct (decide (c = ws)) as [->|Hne].
    + destruct (Hno m). simpl. apply list_elem_of_here.
    + apply IH. intros m' Hin. apply (Hno m'). simpl.
      apply elem_of_cons. by right.
  - simpl. apply IH. intros m' Hin. by apply (Hno m').
Qed.

Lemma gone_not_open s ws : gone s ws → is_open s ws = false.
Proof.
  unfold gone, is_open. destruct (sockets s !! ws) as [w|]; [|done].
  simpl. intros [= Hw]. by rewrite Hw.
Qed.

Lemma gone_silent s ws out : gone s ws → frames_ok s out → sent_to ws out = [].
Proof.
  intros Hgone%gone_not_open Hout. apply sent_to_none. intros m Hin.
  destruct (proj1 (Forall_forall _ _) Hout _ Hin) as [Hopen _].
  simpl in Hopen. congruence.
Qed.

Lemma onmessage_readyState c now msg s s' out ws :
  onmessage c now msg s = (s', out) →
  readyState <$> sockets s' !! ws = readyState <$> sockets s !! ws.
Proof.
  unfold onmessage, handleMessage, returns.
  assert (∀ f : socket → socket,
            (∀ w, readyState (f w) = readyState w) →
            readyState <$> alter f c (sockets s) !! ws
            = readyState <$> sockets s !! ws) as Halter.
  { intros f Hf. destruct (decide (c = ws)) as [->|Hne].
    - rewrite list_lookup_alter_eq.
      destruct (sockets s !! ws) as [w|]; simpl; [|done]. by rewrite Hf.
    - by rewrite list_lookup_alter_ne. }
  destruct msg as [|data|data|requestId response|data|type].
  - intros [= <- _]. simpl. by apply Halter.
  - destruct data; intros [= <- _]; [|done]. simpl. by apply Halter.
  - destruct data; by intros [= <- _].
  - unfold handleHumanInputResponse. intros Hm.
    repeat case_match; by simplify_eq.
  - unfold handleAgentUpdate. intros Hm.
    repeat case_match; by simplify_eq.
  - by intros [= <- _].
Qed.

Lemma gone_step s e s' out ws :
  gone s ws → step s e = Some (s', out) → gone s' ws.
Proof.
  intros Hgone Hstep. pose proof (gone_not_open _ _ Hgone) as Hclosed.
  unfold gone in *.
  destruct e as [|c now msg|c|c|now|now]; simpl in Hstep.
  - simplify_eq. simpl.
    destruct (sockets s !! ws) as [w|] eqn:Hw; [|done].
    by rewrite (lookup_app_l_Some _ _ _ _ Hw).
  - destruct (is_open s c); [|done]. simplify_eq.
    by erewrite onmessage_readyState.
  - destruct (is_open s c) eqn:Hopen; simplify_eq. simpl.
    rewrite list_lookup_alter_ne; [done|]. intros ->. congruence.
  - destruct (sockets s !! c) as [w|] eqn:Hw; [|done].
    destruct (decide (readyState w = CLOSED)) as [|Hne]; [done|].
    destruct (handleDisconnection c _) as [s1 out1] eqn:Hd. simplify_eq.
    apply handleDisconnection_sockets in Hd as [-> _]. simpl.
    rewrite list_lookup_alter_ne; [done|]. intros ->.
    rewrite Hw in Hgone. simpl in Hgone. congruence.
  - destruct (demo s); by simplify_eq.
  - destruct (demo s) as [|a|]; by simplify_eq.
Qed.

Lemma gone_run s es s' out ws :
  gone s ws → run s es = Some (s', out) →
  gone s' ws ∧ sent_to ws out = [].
Proof.
  revert s out. induction es as [|e es IH]; simpl; intros s out Hgone Hrun.
  - by simplify_eq.
  - destruct (step s e) as [[s1 out1]|] eqn:Hstep; [|done].
    destruct (run s1 es) as [[s2 out2]|] eqn:Hrest; [|done]. simplify_eq.
    pose proof (gone_step _ _ _ _ _ Hgone Hstep) as Hgone1.
    destruct (IH _ _ Hgone1 Hrest) as [Hgone2 Hout2].
    split; [done|]. rewrite sent_to_app, Hout2.
    by rewrite (gone_silent s1 ws out1 Hgone1 (step_frames_ok _ _ _ _ Hstep)).
Qed.

(** X25: once a socket has emitted [close], the hub is done with it: in the
    turn of the [close] and in any run after it nothing is written to the
    socket, whatever sets and records still name it, and the socket never
    counts as open again. *)
Theorem nothing_after_close s ws s1 out1 es s' out :
  step s (Close ws) = Some (s1, out1) →
  run s1 es = Some (s', out) →
  sent_to ws (out1 ++ out) = [] ∧ is_open s' ws = false.
Proof.
  intros Hclose Hrun.
  assert (gone s1 ws) as Hgone.
  { unfold gone. simpl in Hclose.
    destruct (sockets s !! ws) as [w|] eqn:Hw; [|done].
    destruct (decide (readyState w = CLOSED)); [done|].
    destruct (handleDisconnection ws _) as [s2 out2] eqn:Hd. simplify_eq.
    apply handleDisconnection_sockets in Hd as [-> _]. simpl.
    by rewrite list_lookup_alter_eq, Hw. }
  destruct (gone_run _ _ _ _ _ Hgone Hrun) as [Hgone' Hout].
  split.
  - rewrite sent_to_app, Hout.
    by rewrite (gone_silent s1 ws out1 Hgone (step_frames_ok _ _ _ _ Hclose)).
  - by apply gone_not_open.
Qed.

Lemma nothing_after_close_witness :
  ∃ s1 out1 s' out,
    step (after two_observers_pending) (Close 1) = Some (s1, out1)
    ∧ run s1 [Message 2 "t3" (HumanInputResponse (Some (Uuid 1)) (Some "Yes"));
              Message 0 "t4" (AgentUpdate (Some busy))] = Some (s', out)
    ∧ sent_to 2 out ≠ []
    ∧ sent_to 1 (out1 ++ out) = [].
Proof.
  destruct (step (after two_observers_pending) (Close 1))
    as [[s1 out1]|] eqn:Hclose; [|by vm_compute in Hclose].
  destruct (run s1 [Message 2 "t3" (HumanInputResponse (Some (Uuid 1)) (Some "Yes"));
                    Message 0 "t4" (AgentUpdate (Some busy))])
    as [[s' out]|] eqn:Hrun.
  2: { vm_compute in Hclose. injection Hclose as <- _.
       by vm_compute in Hrun. }
  exists s1, out1, s', out. split_and!; [reflexivity|exact Hrun| |].
  - vm_compute in Hclose. injection Hclose as <- _.
    vm_compute in Hrun. by injection Hrun as _ <-.
  - exact (proj1 (nothing_after_close _ 1 s1 out1 _ s' out Hclose Hrun)).
Defined.

End Closed.

(** ** A sequence of updates *)

Section Updates.
Import Hub Spec Examples.
Implicit Types (s : hub) (ws : conn) (out : list effect).

Lemma update_step s ws now id a patch :
  is_open s ws = true →
  sockets s !! ws ≫= agentId = Some id →
  Map_get id (agents s) = Some a →
  ∃ s1 out1,
    step s (Message ws now (AgentUpdate patch)) = Some (s1, out1)
    ∧ sockets s1 = sockets s ∧ guiClients s1 = guiClients s
    ∧ Map_get id (agents s1) = Some (Object_assign a patch)
    ∧ out1 = Log (ReceivedMessage (AgentUpdate patch))
             :: broadcastToGUIs s1 (AgentUpdateEvent (Object_assign a patch)).
Proof.
  intros Hopen Hid Ha. simpl. rewrite Hopen.
  unfold onmessage, handleMessage, handleAgentUpdate, returns.
  rewrite Hid, Ha. cbn [fst snd]. rewrite app_nil_r.
  eexists _, _. split; [reflexivity|]. split_and!; try done.
  simpl. apply Map_get_set_eq.
Qed.

(** X26: updates add up.  When a registered agent sends a sequence of
    [agent-update] messages on its open connection, the hub takes them all;
    afterwards the agent's record is the record it had with the patches
    assigned onto it in order, and every registered observer whose socket
    is open has been written one [agent-update] frame per message, each
    carrying the record as it stood after that message, and nothing
    else.  A message without a patch counts: it changes nothing and the
    record is sent all the same. *)
Theorem updates_accumulate s ws id a
    (ups : list (string * option agent_patch)) :
  reachable s →
  is_open s ws = true →
  sockets s !! ws ≫= agentId = Some id →
  Map_get id (agents s) = Some a →
  ∃ s' out,
    run s ((λ u, Message ws u.1 (AgentUpdate u.2)) <$> ups) = Some (s', out)
    ∧ Map_get id (agents s') = Some (foldl Object_assign a ups.*2)
    ∧ ∀ gui,
        sent_to gui out
        = if bool_decide (gui ∈ guiClients s) && is_open s gui
          then AgentUpdateEvent <$> merges a ups.*2
          else [].
Proof.
  revert s a. induction ups as [|[now patch] ups IH]; intros s a Hs Hopen Hid Ha.
  - exists s, []. split_and!; [done..|]. intros gui. simpl.
    by destruct (bool_decide _ && _).
  - destruct (update_step s ws now id a patch Hopen Hid Ha)
      as (s1 & out1 & Hstep & Hsock & Hguis & Ha1 & ->).
    assert (∀ c, is_open s1 c = is_open s c) as Hsame.
    { intros c. unfold is_open. by rewrite Hsock. }
    destruct (IH s1 (Object_assign a patch)) as (s' & out & Hrun & Ha' & Hout).
    { by eapply reachable_step. }
    { by rewrite Hsame. }
    { by rewrite Hsock. }
    { done. }
    exists s', (Log (ReceivedMessage (AgentUpdate patch))
                :: broadcastToGUIs s1
                     (AgentUpdateEvent (Object_assign a patch)) ++ out).
    split_and!.
    + rewrite fmap_cons. cbn [run fst snd]. by rewrite Hstep, Hrun.
    + done.
    + intros gui.
      change (sent_to gui (Log ?l :: ?o)) with (sent_to gui o).
      rewrite sent_to_app, Hout, sent_to_broadcast.
      2: { apply guiClients_NoDup. by eapply reachable_step. }
      rewrite Hguis, Hsame.
      by destruct (bool_decide _ && _).
Qed.

Lemma updates_accumulate_witness :
  ∃ s' out,
    run (after agent_registered)
      [Message 0 "t3" (AgentUpdate (Some crafted));
       Message 0 "t4" (AgentUpdate None);
       Message 0 "t5" (AgentUpdate (Some idle))]
    = Some (s', out)
    ∧ Map_get (Uuid 0) (agents s')
      = Some {| a_id := Named "a-7"; a_name := "Analyst (idle)";
                a_status := "Idle"; a_timestamp := "t5";
                a_more := {[ "7" := "seven"; "task" := "none" ]} |}
    ∧ length (sent_to 1 out) = 3%nat
    ∧ sent_to 0 out = [].
Proof.
  destruct (updates_accumulate (after agent_registered) 0 (Uuid 0) analyst
              [("t3", Some crafted); ("t4", None); ("t5", Some idle)]
              (reachable_after _) eq_refl eq_refl eq_refl)
    as (s' & out & Hrun & Ha & Hout).
  exists s', out. split_and!; [exact Hrun| |..].
  - rewrite Ha. vm_compute. reflexivity.
  - by rewrite (Hout 1%nat).
  - by rewrite (Hout 0%nat).
Defined.

End Updates.

(** ** Roles and the message switch *)

Section Roles.
Import Hub Spec Examples.
Implicit Types (s : hub) (ws : conn) (out : list effect).

(** X27: the switch on the message type never consults the role of the
    connection.  Two hubs that differ at most in the roles on their
    sockets handle the same message from the same connection alike: they
    write the same frames to the same sockets and log the same lines, they
    end the same way, and afterwards they still differ at most in the
    roles. *)
Theorem roles_not_consulted s1 s2 ws now m :
  same_but_roles s1 s2 →
  (handleMessage ws now m s1).1.2 = (handleMessage ws now m s2).1.2
  ∧ (handleMessage ws now m s1).2 = (handleMessage ws now m s2).2
  ∧ same_but_roles (handleMessage ws now m s1).1.1
      (handleMessage ws now m s2).1.1.
Proof. apply handleMessage_roles. Qed.

Lemma roles_not_consulted_witness :
  same_but_roles (after two_observers_pending)
    (without_roles (after two_observers_pending))
  ∧ clientType <$> sockets (after two_observers_pending) !! 1%nat
    = Some (Some "gui")
  ∧ clientType <$> sockets (without_roles (after two_observers_pending))
                     !! 1%nat
    = Some None
  ∧ (handleMessage 1 "t3" (HumanInputRequest (Some approval))
       (after two_observers_pending)).1.2
    = (handleMessage 1 "t3" (HumanInputRequest (Some approval))
         (without_roles (after two_observers_pending))).1.2.
Proof.
  assert (same_but_roles (after two_observers_pending)
            (without_roles (after two_observers_pending))) as Hsame.
  { by repeat split. }
  split_and!; [exact Hsame|reflexivity|reflexivity|].
  exact (proj1 (roles_not_consulted _ _ 1 "t3"
                  (HumanInputRequest (Some approval)) Hsame)).
Defined.

End Roles.

(** ** Picking an item of the history *)

Section View.
Import App Spec Examples.
Implicit Types (s : app).

Lemma findIndex_by_distinct {A I} `{EqDecision I} (key : A → I)
    (l : list A) (i : nat) (x : A) :
  NoDup (key <$> l) → l !! i = Some x →
  findIndex_by key (key x) l = Some i.
Proof.
  intros Hl Hx. unfold findIndex_by.
  assert (list_find (λ y, key y = key x) l = Some (i, x)) as ->; [|done].
  apply list_find_Some. split_and!; [done..|].
  intros j y Hy Hlt Hkey.
  assert (j = i); [|lia].
  eapply (NoDup_lookup _ _ _ _ Hl); rewrite list_lookup_fmap.
  - by rewrite Hy.
  - rewrite Hx. simpl. by rewrite Hkey.
Qed.

Lemma findIndex_by_absent {A I} `{EqDecision I} (key : A → I) (k : I)
    (l : list A) :
  k ∉ key <$> l → findIndex_by key k l = None.
Proof.
  intros Hk. unfold findIndex_by.
  destruct (list_find _ l) as [[i x]|] eqn:Hfind; [|done].
  apply list_find_Some in Hfind as (Hx & Hkey & _).
  destruct Hk. apply list_elem_of_fmap. exists x. split; [done|].
  by eapply list_elem_of_lookup_2.
Qed.

(** X28: picking an item from the history shows that item.  In every state the
    page can reach, [viewContentItem] with the id of the item at a position
    of the history puts the cursor on that position and that item on show,
    turns to the [latest] tab and leaves the history as it is; with an id
    the history does not hold it changes nothing. *)
Theorem view_selects s id :
  reachable s →
  (∀ i c,
     contentItems s !! i = Some c → c_id c = Some id →
     currentContentIndex (viewContentItem id s) = Z.of_nat i
     ∧ latestContent (viewContentItem id s) = Some c
     ∧ activeMainTab (viewContentItem id s) = "latest"
     ∧ contentItems (viewContentItem id s) = contentItems s)
  ∧ (Some id ∉ c_id <$> contentItems s → viewContentItem id s = s).
Proof.
  intros Hs%reachable_distinct. split.
  - intros i c Hc Hid. unfold viewContentItem.
    rewrite <-Hid, (findIndex_by_distinct c_id _ i c); [|apply Hs|done].
    by rewrite Hc.
  - intros Hno. unfold viewContentItem.
    by rewrite findIndex_by_absent.
Qed.

Lemma view_selects_witness :
  reachable (page_after browsing)
  ∧ c_id <$> contentItems (page_after browsing) !! 0%nat = Some (Some "report-1")
  ∧ currentContentIndex (viewContentItem "report-1" (page_after browsing)) = 0%Z
  ∧ viewContentItem "c9" (page_after browsing) = page_after browsing.
Proof.
  assert (reachable (page_after browsing)) as Hs
    by apply reachable_page_after.
  destruct (view_selects _ "report-1" Hs) as [Hheld _].
  destruct (view_selects _ "c9" Hs) as [_ Hnot].
  split_and!; [exact Hs|reflexivity|..].
  - destruct (contentItems (page_after browsing) !! 0%nat) as [c|] eqn:Hc;
      [|by vm_compute in Hc].
    refine (proj1 (Hheld 0%nat c Hc _)).
    vm_compute in Hc. by injection Hc as <-.
  - apply Hnot. vm_compute. intros Hin.
    repeat (apply elem_of_cons in Hin as [Hin|Hin]; [done|]).
    by apply elem_of_nil in Hin.
Defined.

End View.
